(** * Squid bridge integration: service functions and the [useSquidBridge] hook

    A shallow embedding of

    - [lib/squid/types.ts]        (the data model),
    - [lib/squid/config.ts]       (the constants),
    - [lib/squid/squidService.ts] ([retryWithBackoff], [getRoute],
      [checkAllowance], [approveToken], [executeBridge],
      [getTransactionStatus], [monitorTransaction]),
    - [hooks/useSquidBridge.ts]   ([bridge], [reset]),

    followed by the properties of the bridge flow.

    Asynchronous code is modelled in a small monad [M]: a computation takes
    the current store (the outside world and the React state of the hook) and
    gives an outcome (a resolved value or a thrown one), the new store and the
    events it produced, in order.  Everything outside the repository (the
    HTTP endpoints, the wallet, the token contract, the [ethers] helpers) is
    an oracle of the environment [Env]; the theorems hold for every
    environment. *)

From Stdlib Require Import ZArith List String Ascii Bool Lia DecimalString.
Import ListNotations.

Open Scope string_scope.
Open Scope list_scope.

Set Implicit Arguments.

Abbreviation length := List.length (only parsing).

(* ------------------------------------------------------------------------- *)
(** ** Values thrown and outcomes of awaited calls *)

(** The properties of a thrown value that the code inspects are numbers,
    strings, or absent. *)
Inductive JsVal : Type :=
| JsUndefined
| JsNum (n : Z)
| JsStr (s : string).

Definition JsVal_eqb (a b : JsVal) : bool :=
  match a, b with
  | JsUndefined, JsUndefined => true
  | JsNum x, JsNum y => Z.eqb x y
  | JsStr x, JsStr y => String.eqb x y
  | _, _ => false
  end.

(** An error object: [message], [code], [status].  An absent [message] and an
    empty one are both falsy, the only thing the code tests; both are [""]. *)
Record JsError : Type := mkJsError {
  err_message : string;
  err_code : JsVal;
  err_status : JsVal
}.

(** What a [throw] or a rejected promise carries.  [lastError] of
    [retryWithBackoff] starts out [undefined]. *)
Inductive Thrown : Type :=
| ThrownUndefined
| ThrownError (e : JsError).

(** [new Error(msg)] *)
Definition Error (msg : string) : Thrown :=
  ThrownError {| err_message := msg; err_code := JsUndefined; err_status := JsUndefined |}.

(** [error?.status], [error?.code] *)
Definition opt_status (error : Thrown) : JsVal :=
  match error with ThrownUndefined => JsUndefined | ThrownError e => err_status e end.

Definition opt_code (error : Thrown) : JsVal :=
  match error with ThrownUndefined => JsUndefined | ThrownError e => err_code e end.

Inductive Outcome (A : Type) : Type :=
| Resolved (a : A)
| Rejected (e : Thrown).

Arguments Resolved {A} a.
Arguments Rejected {A} e.

Definition settled_unit {A : Type} (r : Outcome A) : Outcome unit :=
  match r with Resolved _ => Resolved tt | Rejected e => Rejected e end.

(* ------------------------------------------------------------------------- *)
(** ** types.ts *)

Record SquidConfig : Type := {
  integratorId : string;
  feeRecipientAddress : string;
  apiBaseUrl : string
}.

Record CollectFees : Type := {
  integratorAddress : string;
  fee : Z
}.

Record RouteParams : Type := {
  fromChain : string;
  toChain : string;
  fromToken : string;
  toToken : string;
  fromAmount : string;
  fromAddress : string;
  toAddress : string;
  slippage : Z;
  collectFees : option CollectFees
}.

Record TransactionRequest : Type := {
  target : string;
  data : string;
  value : string;
  gasLimit : string;
  gasPrice : option string;
  maxFeePerGas : option string;
  maxPriorityFeePerGas : option string
}.

Record Token : Type := {
  token_address : string;
  token_symbol : string;
  token_decimals : Z
}.

Record FeeCost : Type := {
  feeCost_name : string;
  feeCost_amount : string;
  feeCost_token : Token
}.

Record GasCost : Type := {
  gasCost_type : string;
  gasCost_amount : string;
  gasCost_gasPrice : string;
  gasCost_maxFeePerGas : string;
  gasCost_maxPriorityFeePerGas : string;
  gasCost_token : Token
}.

Record Estimate : Type := {
  est_fromAmount : string;
  est_toAmount : string;
  est_toAmountMin : string;
  est_sendAmount : string;
  est_exchangeRate : string;
  est_estimatedRouteDuration : Z;
  est_aggregatePriceImpact : string;
  est_feeCosts : list FeeCost;
  est_gasCosts : list GasCost
}.

(** [quoteId] is not declared in [Route] but [getRoute] reads it from the
    parsed response. *)
Record Route : Type := {
  estimate : Estimate;
  transactionRequest : TransactionRequest;
  params : RouteParams;
  quoteId : option string
}.

Record RouteResponse : Type := {
  route : Route;
  requestId : string
}.

(** The fields of [TransactionStatus] that the code reads or writes.
    [squidTransactionStatus] is declared as
    ['success' | 'partial_success' | 'needs_gas' | 'ongoing' | 'failed'], but
    it is parsed from the upstream response and only ever compared as a
    string.  [ts_error] is the [error] property read from a failure body. *)
Record TransactionStatus : Type := {
  ts_id : string;
  ts_status : string;
  squidTransactionStatus : string;
  ts_error : option string
}.

Inductive BridgeStatus : Type :=
| status_idle
| status_approving
| status_bridging
| status_monitoring
| status_success
| status_error.

(** The string literal of each member of the union. *)
Definition status_name (s : BridgeStatus) : string :=
  match s with
  | status_idle => "idle"
  | status_approving => "approving"
  | status_bridging => "bridging"
  | status_monitoring => "monitoring"
  | status_success => "success"
  | status_error => "error"
  end.

Definition BridgeStatus_eqb (a b : BridgeStatus) : bool :=
  match a, b with
  | status_idle, status_idle
  | status_approving, status_approving
  | status_bridging, status_bridging
  | status_monitoring, status_monitoring
  | status_success, status_success
  | status_error, status_error => true
  | _, _ => false
  end.

Record BridgeState : Type := {
  isLoading : bool;
  error : option string;
  status : BridgeStatus;
  txHash : option string;
  route_ : option Route
}.

(* ------------------------------------------------------------------------- *)
(** ** config.ts *)

Definition CHAIN_IDS_BASE : string := "8453".
Definition CHAIN_IDS_POLYGON : string := "137".

Definition TOKENS_USDC_BASE : string := "0x833589fCD6eDb6E08f4c7C32D4f71b54bdA02913".
Definition TOKENS_USDC_POLYGON : string := "0x3c499c542cEF5E3811e1192ce70d8cC03d5c3359".

Definition TOKEN_DECIMALS_USDC : Z := 6.

Definition SQUID_CONFIG : SquidConfig := {|
  integratorId := "spredd-markets-14cb973b-2ec8-4c26-bffb-998b6a6a84d9";
  feeRecipientAddress := "0xA42004A36aE97dfA691D7DF74db8FA9951dA2ed4";
  apiBaseUrl := "https://v2.api.squidrouter.com"
|}.

Definition FEE_BASIS_POINTS : Z := 0.

(* ------------------------------------------------------------------------- *)
(** ** What the environment is asked and what it answers *)

(** A [fetch] response: [res.ok], [res.status] and what [res.json()] settles
    to. *)
Record Response (B : Type) : Type := {
  res_ok : bool;
  res_status : Z;
  res_json : Outcome B
}.

(** The body of a [/v2/route] response: the two properties the code reads. *)
Record RouteBody : Type := {
  body_route : option Route;
  body_error : option string
}.

(** The query of a [/v2/status] request. *)
Record StatusQuery : Type := {
  q_transactionId : string;
  q_requestId : string;
  q_fromChainId : string;
  q_toChainId : string
}.

(** An [ethers.Signer]: the account it signs for. *)
Record Signer : Type := {
  signerAddress : string
}.

(** An [ethers.TransactionResponse]. *)
Record TransactionResponse : Type := {
  hash : string
}.

(** The argument of [signer.sendTransaction]; [None] is a key that the object
    literal does not have. *)
Record SentTransaction : Type := {
  sent_to : string;
  sent_data : string;
  sent_value : string;
  sent_gasLimit : string;
  sent_gasPrice : option string;
  sent_maxFeePerGas : option string;
  sent_maxPriorityFeePerGas : option string
}.

(** One event per awaited call that leaves the repository, with what it
    settled to; one per [setTimeout] wait; one per [setState], with the state
    it produced.  [EvFn] is a call of the function given to
    [retryWithBackoff] when that function is the caller's; [EvPoll] records
    what a call of [getTransactionStatus] settled to; [EvOnStatusUpdate] is a
    call of the caller's [onStatusUpdate]. *)
Inductive Event : Type :=
| EvSleep (ms : Z)
| EvFn (r : Outcome unit)
| EvFetchRoute (body : RouteParams) (r : Outcome (Response RouteBody))
| EvFetchStatus (q : StatusQuery) (r : Outcome (Response TransactionStatus))
| EvGetSigner (r : Outcome Signer)
| EvAllowance (token owner spender : string) (r : Outcome Z)
| EvApprove (signer : Signer) (token spender : string) (amount : Z)
            (r : Outcome TransactionResponse)
| EvWait (tx : TransactionResponse) (r : Outcome unit)
| EvSendTransaction (signer : Signer) (tx : SentTransaction)
                    (r : Outcome TransactionResponse)
| EvPoll (r : Outcome TransactionStatus)
| EvOnStatusUpdate (st : TransactionStatus) (r : Outcome unit)
| EvSetState (s : BridgeState).

(** Projections of a run's events. *)
Definition calls_of (evs : list Event) : list (Outcome unit) :=
  flat_map (fun e => match e with EvFn r => [r] | _ => [] end) evs.

Definition waits_of (evs : list Event) : list Z :=
  flat_map (fun e => match e with EvSleep ms => [ms] | _ => [] end) evs.

Definition total_wait (evs : list Event) : Z :=
  fold_right Z.add 0%Z (waits_of evs).

Definition polls_of (evs : list Event) : list (Outcome TransactionStatus) :=
  flat_map (fun e => match e with EvPoll r => [r] | _ => [] end) evs.

Definition updates_of (evs : list Event) : list TransactionStatus :=
  flat_map (fun e => match e with EvOnStatusUpdate st _ => [st] | _ => [] end) evs.

Definition states_of (evs : list Event) : list BridgeState :=
  flat_map (fun e => match e with EvSetState s => [s] | _ => [] end) evs.

Definition approvals_of (evs : list Event) : list (string * string * Z) :=
  flat_map (fun e => match e with
                     | EvApprove _ token spender amount _ => [(token, spender, amount)]
                     | _ => []
                     end) evs.

Definition sends_of (evs : list Event) : list SentTransaction :=
  flat_map (fun e => match e with EvSendTransaction _ tx _ => [tx] | _ => [] end) evs.

Definition route_fetches_of (evs : list Event)
  : list (RouteParams * Outcome (Response RouteBody)) :=
  flat_map (fun e => match e with EvFetchRoute p r => [(p, r)] | _ => [] end) evs.

Definition status_fetches_of (evs : list Event) : list StatusQuery :=
  flat_map (fun e => match e with EvFetchStatus q _ => [q] | _ => [] end) evs.

(* ------------------------------------------------------------------------- *)
(** ** The store and the monad of asynchronous computations *)

(** The state cells of [useSquidBridge]. *)
Record Hook : Type := {
  state : BridgeState;
  walletAddress : option string;
  balance : option string
}.

Section Model.

(** The outside world: whatever decides the answers of the oracles. *)
Variable W : Type.

(** Everything the code calls that is not in the repository.  [env_parseUnits]
    and [env_BigInt] are [ethers.parseUnits] and the [BigInt] constructor on
    strings, which throw on malformed input. *)
Record Env : Type := {
  env_ethereum : W -> bool;
  env_getSigner : W -> Outcome Signer * W;
  env_fetchRoute : RouteParams -> W -> Outcome (Response RouteBody) * W;
  env_fetchStatus : StatusQuery -> W -> Outcome (Response TransactionStatus) * W;
  env_allowance : string -> string -> string -> W -> Outcome Z * W;
  env_approve : Signer -> string -> string -> Z -> W -> Outcome TransactionResponse * W;
  env_wait : TransactionResponse -> W -> Outcome unit * W;
  env_sendTransaction : Signer -> SentTransaction -> W -> Outcome TransactionResponse * W;
  env_parseUnits : string -> Z -> Outcome Z;
  env_BigInt : string -> Outcome Z
}.

Record Store : Type := {
  world : W;
  hook : Hook
}.

Definition M (A : Type) : Type := Store -> Outcome A * Store * list Event.

Definition ret {A : Type} (a : A) : M A :=
  fun s => (Resolved a, s, []).

Definition bind {A B : Type} (c : M A) (k : A -> M B) : M B :=
  fun s =>
    match c s with
    | (Resolved a, s1, ev1) =>
        match k a s1 with
        | (r, s2, ev2) => (r, s2, ev1 ++ ev2)
        end
    | (Rejected e, s1, ev1) => (Rejected e, s1, ev1)
    end.

Definition throw {A : Type} (e : Thrown) : M A :=
  fun s => (Rejected e, s, []).

(** [try { c } catch (error) { h error }] *)
Definition try_catch {A : Type} (c : M A) (h : Thrown -> M A) : M A :=
  fun s =>
    match c s with
    | (Resolved a, s1, ev1) => (Resolved a, s1, ev1)
    | (Rejected e, s1, ev1) =>
        match h e s1 with
        | (r, s2, ev2) => (r, s2, ev1 ++ ev2)
        end
    end.

(** A value that is already settled (a synchronous call that may throw). *)
Definition settle {A : Type} (r : Outcome A) : M A :=
  fun s => (r, s, []).

(** An awaited call answered by the world. *)
Definition await {A : Type} (ev : Outcome A -> Event) (oracle : W -> Outcome A * W) : M A :=
  fun s =>
    match oracle (world s) with
    | (r, w) => (r, {| world := w; hook := hook s |}, [ev r])
    end.

(** [await new Promise(resolve => setTimeout(resolve, ms))] *)
Definition sleep (ms : Z) : M unit :=
  fun s => (Resolved tt, s, [EvSleep ms]).

(** [setState(prev => f prev)] *)
Definition setState (f : BridgeState -> BridgeState) : M unit :=
  fun s =>
    let st := f (state (hook s)) in
    (Resolved tt,
     {| world := world s;
        hook := {| state := st;
                   walletAddress := walletAddress (hook s);
                   balance := balance (hook s) |} |},
     [EvSetState st]).

Definition getHook : M Hook :=
  fun s => (Resolved (hook s), s, []).

Definition getWorld : M W :=
  fun s => (Resolved (world s), s, []).

Declare Scope async_scope.
Delimit Scope async_scope with async.
Bind Scope async_scope with M.

Notation "x <- c ;; k" := (bind c (fun x => k))
  (at level 100, c at next level, right associativity) : async_scope.
Notation "c ;;; k" := (bind c (fun _ => k))
  (at level 100, right associativity) : async_scope.

Local Open Scope async_scope.

(* ------------------------------------------------------------------------- *)
(** ** squidService.ts *)

(** [error?.status === 429 || error?.code === 'ECONNRESET' ||
     error?.code === 'ETIMEDOUT'] *)
Definition isRetryable (error : Thrown) : bool :=
  let isRateLimit := JsVal_eqb (opt_status error) (JsNum 429) in
  isRateLimit
  || JsVal_eqb (opt_code error) (JsStr "ECONNRESET")
  || JsVal_eqb (opt_code error) (JsStr "ETIMEDOUT").

(** The [for] loop of [retryWithBackoff].  [remaining] is
    [maxRetries - attempt], so [remaining = 0] is the exit test
    [attempt < maxRetries] failing.  The delay is
    [initialDelay * Math.pow(2, attempt)]; on integers below [2^53] the
    floating-point product is exact. *)
Fixpoint retry_loop {T : Type} (fn : M T) (maxRetries : nat) (initialDelay : Z)
         (remaining attempt : nat) (lastError : Thrown) : M T :=
  match remaining with
  | O => throw lastError
  | S remaining' =>
      try_catch fn (fun error =>
        if negb (isRetryable error) || Nat.eqb attempt (maxRetries - 1)
        then throw error
        else
          sleep (initialDelay * 2 ^ Z.of_nat attempt) ;;;
          retry_loop fn maxRetries initialDelay remaining' (S attempt) error)
  end.

Definition retryWithBackoff {T : Type} (fn : M T) (maxRetries : nat) (initialDelay : Z) : M T :=
  retry_loop fn maxRetries initialDelay maxRetries 0 ThrownUndefined.

(** The default arguments: [maxRetries = 5], [initialDelay = 1000]. *)
Definition retryWithBackoff_default {T : Type} (fn : M T) : M T :=
  retryWithBackoff fn 5 1000.

Variable env : Env.

(** [x && ...] and [x || d] on an optional string: absent and empty are
    falsy. *)
Definition truthy (x : option string) : option string :=
  match x with
  | Some s => if String.eqb s "" then None else Some s
  | None => None
  end.

Definition or_else (x : option string) (d : string) : string :=
  match truthy x with
  | Some s => s
  | None => d
  end.

(** Decimal printing of an integer: [`${n}`] and [bigint.toString()]. *)
Definition decimal (n : Z) : string :=
  NilZero.string_of_int (Z.to_int n).

Definition with_collectFees (p : RouteParams) (c : option CollectFees) : RouteParams :=
  {| fromChain := fromChain p;
     toChain := toChain p;
     fromToken := fromToken p;
     toToken := toToken p;
     fromAmount := fromAmount p;
     fromAddress := fromAddress p;
     toAddress := toAddress p;
     slippage := slippage p;
     collectFees := c |}.

(** [{ ...params, ...(FEE_BASIS_POINTS > 0 && { collectFees: ... }) }] *)
Definition requestParams_of (params : RouteParams) : RouteParams :=
  if (0 <? FEE_BASIS_POINTS)%Z
  then with_collectFees params
         (Some {| integratorAddress := feeRecipientAddress SQUID_CONFIG;
                  fee := FEE_BASIS_POINTS |})
  else params.

(** [(await res.json().catch(() => ({ error: 'Unknown error' }))).error] *)
Definition errorData_error {B : Type} (error_of : B -> option string)
           (res : Response B) : option string :=
  match res_json res with
  | Resolved b => error_of b
  | Rejected _ => Some "Unknown error"
  end.

(** The function that [getRoute] hands to [retryWithBackoff]. *)
Definition getRoute_fn (requestParams : RouteParams) : M RouteBody :=
  res <- await (EvFetchRoute requestParams) (env_fetchRoute env requestParams) ;;
  if negb (res_ok res)
  then throw (Error (or_else (errorData_error body_error res)
                             (String.append "API Error: " (decimal (res_status res)))))
  else settle (res_json res).

Definition getRoute (params : RouteParams) : M RouteResponse :=
  let requestParams := requestParams_of params in
  response <- retryWithBackoff_default (getRoute_fn requestParams) ;;
  match body_route response with
  | None => throw (Error "Invalid API response: missing route")
  | Some r => ret {| route := r; requestId := or_else (quoteId r) "" |}
  end.

(** The [signer] only carries the connection for this read. *)
Definition checkAllowance (tokenAddress ownerAddress spenderAddress : string)
           (signer : Signer) : M Z :=
  await (EvAllowance tokenAddress ownerAddress spenderAddress)
        (env_allowance env tokenAddress ownerAddress spenderAddress).

Definition approveToken (tokenAddress spenderAddress : string) (amount : Z)
           (signer : Signer) : M unit :=
  tx <- await (EvApprove signer tokenAddress spenderAddress amount)
              (env_approve env signer tokenAddress spenderAddress amount) ;;
  receipt <- await (EvWait tx) (env_wait env tx) ;;
  ret receipt.

(** The object literal given to [signer.sendTransaction]. *)
Definition sent_of (txRequest : TransactionRequest) : SentTransaction :=
  {| sent_to := target txRequest;
     sent_data := data txRequest;
     sent_value := value txRequest;
     sent_gasLimit := gasLimit txRequest;
     sent_gasPrice := None;
     sent_maxFeePerGas := truthy (maxFeePerGas txRequest);
     sent_maxPriorityFeePerGas := truthy (maxPriorityFeePerGas txRequest) |}.

Definition executeBridge (route : Route) (signer : Signer) : M TransactionResponse :=
  let txRequest := transactionRequest route in
  tx <- await (EvSendTransaction signer (sent_of txRequest))
              (env_sendTransaction env signer (sent_of txRequest)) ;;
  ret tx.

(** The function that [getTransactionStatus] hands to [retryWithBackoff]. *)
Definition getTransactionStatus_fn (txHash : string) (q : StatusQuery) : M TransactionStatus :=
  res <- await (EvFetchStatus q) (env_fetchStatus env q) ;;
  if (res_status res =? 404)%Z
  then ret {| squidTransactionStatus := "ongoing";
              ts_id := txHash;
              ts_status := "pending";
              ts_error := None |}
  else if negb (res_ok res)
  then throw (Error (or_else (errorData_error ts_error res)
                             (String.append "Status API Error: " (decimal (res_status res)))))
  else settle (res_json res).

(** [c], with what it settled to recorded as a poll outcome.  The record is
    bookkeeping: it makes the calls of [getTransactionStatus] countable in
    the events and changes nothing else. *)
Definition recorded (c : M TransactionStatus) : M TransactionStatus :=
  fun s =>
    match c s with
    | (r, s1, evs) => (r, s1, evs ++ [EvPoll r])
    end.

Definition getTransactionStatus (txHash requestId fromChainId toChainId : string)
  : M TransactionStatus :=
  let q := {| q_transactionId := txHash;
              q_requestId := requestId;
              q_fromChainId := fromChainId;
              q_toChainId := toChainId |} in
  recorded (retryWithBackoff_default (getTransactionStatus_fn txHash q)).

(** [['success', 'partial_success', 'needs_gas', 'failed'].includes(s)] *)
Definition isTerminal (s : string) : bool :=
  existsb (String.eqb s) ["success"; "partial_success"; "needs_gas"; "failed"].

Definition maxAttempts : nat := 60.

Definition MonitorTimeoutError : Thrown :=
  Error "Transaction monitoring timeout - please check block explorer".

(** One iteration of the [while] loop of [monitorTransaction]: [Some status]
    is [return status], [None] is reaching the end of the iteration with
    [attempts++] done, through the [try] block or through [catch]. *)
Definition monitor_iteration (txHash requestId fromChainId toChainId : string)
           (onStatusUpdate : option (TransactionStatus -> M unit))
           (pollInterval : Z) : M (option TransactionStatus) :=
  try_catch
    (status <- getTransactionStatus txHash requestId fromChainId toChainId ;;
     match onStatusUpdate with
     | Some f => f status
     | None => ret tt
     end ;;;
     if isTerminal (squidTransactionStatus status)
     then ret (Some status)
     else sleep pollInterval ;;; ret None)
    (fun error => sleep pollInterval ;;; ret None).

(** The [while (attempts < maxAttempts)] loop; [remaining] is
    [maxAttempts - attempts]. *)
Fixpoint monitor_loop (txHash requestId fromChainId toChainId : string)
         (onStatusUpdate : option (TransactionStatus -> M unit))
         (pollInterval : Z) (remaining : nat) : M TransactionStatus :=
  match remaining with
  | O => throw MonitorTimeoutError
  | S remaining' =>
      step <- monitor_iteration txHash requestId fromChainId toChainId
                                onStatusUpdate pollInterval ;;
      match step with
      | Some status => ret status
      | None => monitor_loop txHash requestId fromChainId toChainId
                             onStatusUpdate pollInterval remaining'
      end
  end.

Definition monitorTransaction (txHash requestId fromChainId toChainId : string)
           (onStatusUpdate : option (TransactionStatus -> M unit))
           (pollInterval : Z) : M TransactionStatus :=
  sleep 3000 ;;;
  monitor_loop txHash requestId fromChainId toChainId onStatusUpdate pollInterval maxAttempts.

(** The default [pollInterval = 5000]. *)
Definition monitorTransaction_default (txHash requestId fromChainId toChainId : string)
           (onStatusUpdate : option (TransactionStatus -> M unit)) : M TransactionStatus :=
  monitorTransaction txHash requestId fromChainId toChainId onStatusUpdate 5000.

(** A caller's [onStatusUpdate]: the call is an event, and what the call does
    (return or throw) is the world's. *)
Definition observer (k : TransactionStatus -> W -> Outcome unit * W)
  : TransactionStatus -> M unit :=
  fun st => await (EvOnStatusUpdate st) (k st).

(** A caller's function for [retryWithBackoff]. *)
Definition call_fn {T : Type} (f : W -> Outcome T * W) : M T :=
  await (fun r => EvFn (settled_unit r)) f.

(** What [n] successive calls of [f] settle to, from the world [w]. *)
Fixpoint fn_outcomes {T : Type} (f : W -> Outcome T * W) (n : nat) (w : W)
  : list (Outcome T) :=
  match n with
  | O => []
  | S n' => match f w with (r, w') => r :: fn_outcomes f n' w' end
  end.

(* ------------------------------------------------------------------------- *)
(** ** useSquidBridge.ts *)

Definition initialState : BridgeState :=
  {| isLoading := false;
     error := None;
     status := status_idle;
     txHash := None;
     route_ := None |}.

(** The updaters given to [setState]. *)
Definition start_loading (prev : BridgeState) : BridgeState :=
  {| isLoading := true; error := None; status := status_idle;
     txHash := txHash prev; route_ := route_ prev |}.

Definition set_status (st : BridgeStatus) (prev : BridgeState) : BridgeState :=
  {| isLoading := isLoading prev; error := error prev; status := st;
     txHash := txHash prev; route_ := route_ prev |}.

Definition set_route (r : Route) (prev : BridgeState) : BridgeState :=
  {| isLoading := isLoading prev; error := error prev; status := status prev;
     txHash := txHash prev; route_ := Some r |}.

Definition set_txHash (h : string) (prev : BridgeState) : BridgeState :=
  {| isLoading := isLoading prev; error := error prev; status := status prev;
     txHash := Some h; route_ := route_ prev |}.

Definition set_success (prev : BridgeState) : BridgeState :=
  {| isLoading := false; error := error prev; status := status_success;
     txHash := txHash prev; route_ := route_ prev |}.

Definition set_error (errorMessage : string) (prev : BridgeState) : BridgeState :=
  {| isLoading := false; error := Some errorMessage; status := status_error;
     txHash := txHash prev; route_ := route_ prev |}.

(** The request that [bridge] sends to [getRoute]. *)
Definition bridge_request (walletAddress : string) (fromAmount : Z) : RouteParams :=
  {| fromChain := CHAIN_IDS_BASE;
     toChain := CHAIN_IDS_POLYGON;
     fromToken := TOKENS_USDC_BASE;
     toToken := TOKENS_USDC_POLYGON;
     fromAmount := decimal fromAmount;
     fromAddress := walletAddress;
     toAddress := walletAddress;
     slippage := 1;
     collectFees := None |}.

(** Step 2 of [bridge] after its [setState]: read the allowance of the
    route's target over the wallet's USDC and approve the route's
    [fromAmount] if the allowance is below it. *)
Definition bridge_ensureAllowance (walletAddress : string) (route : Route)
           (signer : Signer) : M unit :=
  allowance <- checkAllowance TOKENS_USDC_BASE walletAddress
                              (target (transactionRequest route)) signer ;;
  amountBigInt <- settle (env_BigInt env (fromAmount (params route))) ;;
  if (allowance <? amountBigInt)%Z
  then approveToken TOKENS_USDC_BASE (target (transactionRequest route))
                    amountBigInt signer
  else ret tt.

(** Steps 3 and 4 of [bridge]. *)
Definition bridge_execute (route : Route) (requestId : string) (signer : Signer)
  : M (TransactionResponse * TransactionStatus) :=
  setState (set_status status_bridging) ;;;
  tx <- executeBridge route signer ;;
  setState (set_txHash (hash tx)) ;;;
  await (EvWait tx) (env_wait env tx) ;;;
  setState (set_status status_monitoring) ;;;
  finalStatus <- monitorTransaction_default (hash tx) requestId
                   CHAIN_IDS_BASE CHAIN_IDS_POLYGON
                   (Some (fun _ => ret tt)) ;;
  if String.eqb (squidTransactionStatus finalStatus) "success"
  then setState set_success ;;; ret (tx, finalStatus)
  else throw (Error (String.append "Bridge failed with status: "
                                   (squidTransactionStatus finalStatus))).

(** The [try] block of [bridge]. *)
Definition bridge_try (walletAddress amount : string)
  : M (TransactionResponse * TransactionStatus) :=
  signer <- await EvGetSigner (env_getSigner env) ;;
  setState (set_status status_idle) ;;;
  amountInWei <- settle (env_parseUnits env amount TOKEN_DECIMALS_USDC) ;;
  rr <- getRoute (bridge_request walletAddress amountInWei) ;;
  setState (set_route (route rr)) ;;;
  setState (set_status status_approving) ;;;
  bridge_ensureAllowance walletAddress (route rr) signer ;;;
  bridge_execute (route rr) (requestId rr) signer.

Definition bridge_errorMessage (e : JsError) : string :=
  if JsVal_eqb (err_code e) (JsNum 4001) then "Transaction rejected by user"
  else if JsVal_eqb (err_code e) (JsStr "INSUFFICIENT_FUNDS")
  then "Insufficient funds for transaction"
  else if negb (String.eqb (err_message e) "") then err_message e
  else "Bridge transaction failed".

(** The [catch] block of [bridge].  Reading [error.code] of [undefined]
    throws before any [setState]. *)
Definition bridge_catch (error : Thrown) : M (TransactionResponse * TransactionStatus) :=
  match error with
  | ThrownUndefined =>
      throw (Error "Cannot read properties of undefined (reading 'code')")
  | ThrownError e =>
      setState (set_error (bridge_errorMessage e)) ;;;
      throw error
  end.

Definition bridge (amount : string) : M (TransactionResponse * TransactionStatus) :=
  h <- getHook ;;
  w <- getWorld ;;
  match truthy (walletAddress h), env_ethereum env w with
  | Some walletAddress, true =>
      setState start_loading ;;;
      try_catch (bridge_try walletAddress amount) bridge_catch
  | _, _ => throw (Error "Wallet not connected")
  end.

Definition reset : M unit :=
  setState (fun _ => initialState).

End Model.

Arguments ret {W A} a.
Arguments throw {W A} e.
Arguments sleep {W} ms.
Arguments settle {W A} r.
Arguments setState {W} f.
Arguments reset {W}.

(** The status after each [setState]. *)
Definition statuses_of (evs : list Event) : list BridgeStatus :=
  map status (states_of evs).

(** A list with runs of equal neighbours collapsed: what an observer of the
    changes of [status] sees. *)
Fixpoint changes (prev : BridgeStatus) (l : list BridgeStatus) : list BridgeStatus :=
  match l with
  | [] => []
  | x :: l' => if BridgeStatus_eqb prev x then changes prev l' else x :: changes x l'
  end.

Definition observed_statuses (evs : list Event) : list BridgeStatus :=
  match statuses_of evs with
  | [] => []
  | x :: l => x :: changes x l
  end.

(** An attempt is in flight when the status is neither [idle] nor final. *)
Definition in_flight (s : BridgeStatus) : bool :=
  match s with
  | status_approving | status_bridging | status_monitoring => true
  | status_idle | status_success | status_error => false
  end.

(* ------------------------------------------------------------------------- *)
(** ** A scripted world

    An environment to run the model in: the HTTP endpoints answer from two
    lists of canned responses, the token is a ledger of allowances that
    [approve] writes and [allowance] reads, and every transaction is mined. *)

Module Script.

Record World : Type := {
  ethereum : bool;
  signer : Outcome Signer;
  routeResponses : list (Outcome (Response RouteBody));
  statusResponses : list (Outcome (Response TransactionStatus));
  ledger : list (string * string * string * Z)
}.

Definition networkError : Thrown :=
  ThrownError {| err_message := "Failed to fetch";
                 err_code := JsUndefined;
                 err_status := JsUndefined |}.

Definition key_eqb (a b : string * string * string) : bool :=
  match a, b with
  | (t1, o1, s1), (t2, o2, s2) => String.eqb t1 t2 && String.eqb o1 o2 && String.eqb s1 s2
  end.

(** The newest entry for the key, 0 when there is none. *)
Fixpoint lookup (k : string * string * string) (l : list (string * string * string * Z)) : Z :=
  match l with
  | [] => 0%Z
  | (k', v) :: l' => if key_eqb k k' then v else lookup k l'
  end.

Definition with_ledger (w : World) (l : list (string * string * string * Z)) : World :=
  {| ethereum := ethereum w;
     signer := signer w;
     routeResponses := routeResponses w;
     statusResponses := statusResponses w;
     ledger := l |}.

Definition fetchRoute (_ : RouteParams) (w : World) : Outcome (Response RouteBody) * World :=
  match routeResponses w with
  | [] => (Rejected networkError, w)
  | r :: rest =>
      (r, {| ethereum := ethereum w;
             signer := signer w;
             routeResponses := rest;
             statusResponses := statusResponses w;
             ledger := ledger w |})
  end.

Definition fetchStatus (_ : StatusQuery) (w : World)
  : Outcome (Response TransactionStatus) * World :=
  match statusResponses w with
  | [] => (Rejected networkError, w)
  | r :: rest =>
      (r, {| ethereum := ethereum w;
             signer := signer w;
             routeResponses := routeResponses w;
             statusResponses := rest;
             ledger := ledger w |})
  end.

Definition allowance (token owner spender : string) (w : World) : Outcome Z * World :=
  (Resolved (lookup (token, owner, spender) (ledger w)), w).

Definition approve (sg : Signer) (token spender : string) (amount : Z) (w : World)
  : Outcome TransactionResponse * World :=
  (Resolved {| hash := "0xa11" |},
   with_ledger w (((token, signerAddress sg, spender), amount) :: ledger w)).

Definition wait (_ : TransactionResponse) (w : World) : Outcome unit * World :=
  (Resolved tt, w).

Definition sendTransaction (_ : Signer) (_ : SentTransaction) (w : World)
  : Outcome TransactionResponse * World :=
  (Resolved {| hash := "0xb22" |}, w).

(** Decimal numerals without a fraction. *)
Definition BigInt (s : string) : Outcome Z :=
  match NilZero.int_of_string s with
  | Some d => Resolved (Z.of_int d)
  | None => Rejected (Error "Cannot convert to a BigInt")
  end.

Definition parseUnits (s : string) (decimals : Z) : Outcome Z :=
  match NilZero.int_of_string s with
  | Some d => Resolved (Z.of_int d * 10 ^ decimals)%Z
  | None => Rejected (Error "invalid FixedNumber string value")
  end.

Definition env : Env World :=
  {| env_ethereum := ethereum;
     env_getSigner := fun w => (signer w, w);
     env_fetchRoute := fetchRoute;
     env_fetchStatus := fetchStatus;
     env_allowance := allowance;
     env_approve := approve;
     env_wait := wait;
     env_sendTransaction := sendTransaction;
     env_parseUnits := parseUnits;
     env_BigInt := BigInt |}.

(** A caller's function that answers from a list. *)
Definition pop {T : Type} (w : list (Outcome T)) : Outcome T * list (Outcome T) :=
  match w with
  | [] => (Rejected networkError, [])
  | r :: rest => (r, rest)
  end.

Definition wallet : string := "0x1111111111111111111111111111111111111111".
Definition squidRouter : string := "0xce16F69375520ab01377ce7B88f5BA8C48F8D666".

Definition connected (st : BridgeState) : Hook :=
  {| state := st; walletAddress := Some wallet; balance := Some "25.0" |}.

Definition sampleEstimate : Estimate :=
  {| est_fromAmount := "10000000";
     est_toAmount := "9950000";
     est_toAmountMin := "9850500";
     est_sendAmount := "10000000";
     est_exchangeRate := "0.995";
     est_estimatedRouteDuration := 20;
     est_aggregatePriceImpact := "0.0";
     est_feeCosts := [];
     est_gasCosts := [] |}.

Definition sampleRequest : TransactionRequest :=
  {| target := squidRouter;
     data := "0x846a1bc6";
     value := "120000000000000";
     gasLimit := "600000";
     gasPrice := Some "1000000000";
     maxFeePerGas := Some "1500000000";
     maxPriorityFeePerGas := Some "1000000" |}.

Definition sampleRoute : Route :=
  {| estimate := sampleEstimate;
     transactionRequest := sampleRequest;
     params := bridge_request wallet 10000000;
     quoteId := Some "q-7f3a" |}.

Definition okResponse {B : Type} (b : B) : Outcome (Response B) :=
  Resolved {| res_ok := true; res_status := 200; res_json := Resolved b |}.

Definition notFound : Outcome (Response TransactionStatus) :=
  Resolved {| res_ok := false; res_status := 404;
              res_json := Rejected (Error "Unexpected token") |}.

Definition statusBody (s : string) : TransactionStatus :=
  {| ts_id := "0xb22"; ts_status := "ok"; squidTransactionStatus := s; ts_error := None |}.

Definition pending : TransactionStatus :=
  {| squidTransactionStatus := "ongoing"; ts_id := "0xb22"; ts_status := "pending";
     ts_error := None |}.

(** A world in which every step of a bridge of 10 USDC succeeds: the quote is
    answered with [sampleRoute], the allowance is 0, the status endpoint says
    not found twice and then [success]. *)
Definition happyWorld : World :=
  {| ethereum := true;
     signer := Resolved {| signerAddress := wallet |};
     routeResponses := [okResponse {| body_route := Some sampleRoute; body_error := None |}];
     statusResponses := [notFound; notFound; okResponse (statusBody "success")];
     ledger := [] |}.

Definition store (st : BridgeState) (w : World) : Store World :=
  {| world := w; hook := connected st |}.

(** The session while an earlier attempt waits for its approval. *)
Definition approvingState : BridgeState :=
  {| isLoading := true;
     error := None;
     status := status_approving;
     txHash := None;
     route_ := Some sampleRoute |}.

Definition with_statusResponses (w : World)
           (l : list (Outcome (Response TransactionStatus))) : World :=
  {| ethereum := ethereum w;
     signer := signer w;
     routeResponses := routeResponses w;
     statusResponses := l;
     ledger := ledger w |}.

(** The status endpoint never finds the transaction. *)
Definition stuckWorld : World :=
  with_statusResponses happyWorld (repeat notFound 60).

(** The status endpoint cannot be reached. *)
Definition deadWorld : World :=
  with_statusResponses happyWorld [].

(** A quote whose transaction request has an empty target. *)
Definition blankRoute : Route :=
  {| estimate := sampleEstimate;
     transactionRequest :=
       {| target := "";
          data := "0x846a1bc6";
          value := "120000000000000";
          gasLimit := "600000";
          gasPrice := None;
          maxFeePerGas := None;
          maxPriorityFeePerGas := None |};
     params := bridge_request wallet 10000000;
     quoteId := None |}.

Definition blankWorld : World :=
  {| ethereum := true;
     signer := Resolved {| signerAddress := wallet |};
     routeResponses := [okResponse {| body_route := Some blankRoute; body_error := None |}];
     statusResponses := [];
     ledger := [] |}.

(** A callback that returns. *)
Definition listener (_ : TransactionStatus) (w : World) : Outcome unit * World :=
  (Resolved tt, w).

(** Errors a caller's function may fail with. *)
Definition rateLimited : Thrown :=
  ThrownError {| err_message := "Too Many Requests";
                 err_code := JsUndefined;
                 err_status := JsNum 429 |}.

Definition connectionReset : Thrown :=
  ThrownError {| err_message := "socket hang up";
                 err_code := JsStr "ECONNRESET";
                 err_status := JsUndefined |}.

Definition timedOut : Thrown :=
  ThrownError {| err_message := "connect ETIMEDOUT";
                 err_code := JsStr "ETIMEDOUT";
                 err_status := JsUndefined |}.

Definition badRequest : Thrown :=
  ThrownError {| err_message := "Bad Request";
                 err_code := JsUndefined;
                 err_status := JsNum 400 |}.

(** A store whose world is the list of answers of a caller's function. *)
Definition answers (l : list (Outcome Z)) : Store (list (Outcome Z)) :=
  {| world := l; hook := connected initialState |}.

End Script.

(* ------------------------------------------------------------------------- *)
(** ** Reading a run *)

Definition outcome_of {A S : Type} (run : Outcome A * S * list Event) : Outcome A :=
  fst (fst run).

Definition store_of {A S : Type} (run : Outcome A * S * list Event) : S :=
  snd (fst run).

Definition events_of {A S : Type} (run : Outcome A * S * list Event) : list Event :=
  snd run.

(** The events of [retryWithBackoff] on a caller's function that fails with
    [es] and then settles to [last]: each failure is followed by its wait,
    [initialDelay * 2^attempt]; nothing follows the last call. *)
Fixpoint retry_events (initialDelay : Z) (attempt : nat) (es : list Thrown)
         (last : Outcome unit) : list Event :=
  match es with
  | [] => [EvFn last]
  | e :: es' =>
      EvFn (Rejected e) :: EvSleep (initialDelay * 2 ^ Z.of_nat attempt)
        :: retry_events initialDelay (S attempt) es' last
  end.

(** The waits before attempts [attempt+1 .. attempt+n]. *)
Fixpoint backoff_delays (initialDelay : Z) (attempt n : nat) : list Z :=
  match n with
  | O => []
  | S n' => (initialDelay * 2 ^ Z.of_nat attempt)%Z :: backoff_delays initialDelay (S attempt) n'
  end.

(** Events of the HTTP layer: requests and waits. *)
Definition http_event (e : Event) : bool :=
  match e with
  | EvSleep _ | EvFetchRoute _ _ | EvFetchStatus _ _ => true
  | _ => false
  end.

(** Events of monitoring without a caller's callback. *)
Definition monitor_event (e : Event) : bool :=
  match e with
  | EvSleep _ | EvFetchStatus _ _ | EvPoll _ => true
  | _ => false
  end.

Definition is_http (e : Event) : Prop := http_event e = true.
Definition is_monitor (e : Event) : Prop := monitor_event e = true.

(** Polls and callback calls, in the order they happen. *)
Inductive Obs : Type :=
| ObsPoll (r : Outcome TransactionStatus)
| ObsUpdate (st : TransactionStatus).

Definition obs_of (evs : list Event) : list Obs :=
  flat_map (fun e => match e with
                     | EvPoll r => [ObsPoll r]
                     | EvOnStatusUpdate st _ => [ObsUpdate st]
                     | _ => []
                     end) evs.

(** What one poll contributes: the poll and, when it gave a status and there
    is a callback, the call of the callback with that status. *)
Definition expected_obs (withCallback : bool) (r : Outcome TransactionStatus) : list Obs :=
  ObsPoll r ::
  match r with
  | Resolved st => if withCallback then [ObsUpdate st] else []
  | Rejected _ => []
  end.

Definition resolved_of {A : Type} (l : list (Outcome A)) : list A :=
  flat_map (fun r => match r with Resolved a => [a] | Rejected _ => [] end) l.

Definition is_some {A : Type} (x : option A) : bool :=
  match x with Some _ => true | None => false end.

Definition obs_update (o : Obs) : list TransactionStatus :=
  match o with ObsUpdate st => [st] | ObsPoll _ => [] end.

(** A computation that leaves the hook alone and whose events all satisfy
    [P]. *)
Definition quiet {W A : Type} (P : Event -> Prop) (c : M W A) : Prop :=
  forall s, Forall P (events_of (c s)) /\ hook (store_of (c s)) = hook s.

(** The token behaves like an ERC-20 contract towards the signer: once an
    approval sent by the signer is mined, the allowance of the spender over
    the signer's tokens reads as the approved amount. *)
Definition approval_law {W : Type} (env : Env W) : Prop :=
  forall signer token spender amount w tx w1 w2,
    env_approve env signer token spender amount w = (Resolved tx, w1) ->
    env_wait env tx w1 = (Resolved tt, w2) ->
    exists w3,
      env_allowance env token (signerAddress signer) spender w2 = (Resolved amount, w3).

(** ** Assertions on runs

    [check seen e] is a condition on an event [e] given the events [seen]
    before it.  A list of events is [guarded] after [seen] when each of its
    events meets the condition.  [triple Pre c Post]: from a store and a
    past that satisfy [Pre], every event of [c] meets the condition, and what
    [c] settles to, the past extended with the events of [c], and the new
    store satisfy [Post]. *)
Definition guarded (check : list Event -> Event -> Prop) (seen evs : list Event) : Prop :=
  forall pre e post, evs = pre ++ e :: post -> check (seen ++ pre) e.

Definition triple {W A : Type} (check : list Event -> Event -> Prop)
           (Pre : list Event -> Store W -> Prop) (c : M W A)
           (Post : Outcome A -> list Event -> Store W -> Prop) : Prop :=
  forall seen s,
    Pre seen s ->
    guarded check seen (events_of (c s))
    /\ Post (outcome_of (c s)) (seen ++ events_of (c s)) (store_of (c s)).

(** The store with the hook's state replaced. *)
Definition with_state {W : Type} (st : BridgeState) (s : Store W) : Store W :=
  {| world := world s;
     hook := {| state := st;
                walletAddress := walletAddress (hook s);
                balance := balance (hook s) |} |}.

(** What has been set, approved and sent so far. *)
Definition progress (statuses : list BridgeStatus) (approvals : list (string * string * Z))
           (sends : list SentTransaction) (seen : list Event) : Prop :=
  statuses_of seen = statuses /\ approvals_of seen = approvals /\ sends_of seen = sends.

(** Among the events [seen]: the quote request for [amount], parsed with the
    6 decimals of USDC, was answered with a success response whose body has
    the route [r]. *)
Definition quoted {W : Type} (env : Env W) (wallet amount : string) (r : Route)
           (seen : list Event) : Prop :=
  exists amountInWei res body,
    env_parseUnits env amount TOKEN_DECIMALS_USDC = Resolved amountInWei
    /\ In (bridge_request wallet amountInWei, Resolved res) (route_fetches_of seen)
    /\ res_json res = Resolved body
    /\ body_route body = Some r.

(** Among the events [seen]: the allowance of the route's target was read as
    [a]; [approvals] is one approval of the route's [fromAmount] when [a] is
    below it, and none otherwise. *)
Definition allowed {W : Type} (env : Env W) (wallet : string) (r : Route)
           (approvals : list (string * string * Z)) (seen : list Event) : Prop :=
  exists a required,
    env_BigInt env (fromAmount (params r)) = Resolved required
    /\ In (EvAllowance TOKENS_USDC_BASE wallet (target (transactionRequest r)) (Resolved a))
          seen
    /\ approvals = if (a <? required)%Z
                   then [(TOKENS_USDC_BASE, target (transactionRequest r), required)]
                   else [].

(** ** The order of the steps of bridge *)

(** Among the events [seen], the allowance of the route's target over the
    wallet's USDC was read and either it was at least [required], or an
    approval of exactly [required] for the target was sent and mined. *)
Definition allowance_verified (wallet : string) (r : Route) (required : Z)
           (seen : list Event) : Prop :=
  exists a,
    In (EvAllowance TOKENS_USDC_BASE wallet (target (transactionRequest r)) (Resolved a)) seen
    /\ ((required <= a)%Z
        \/ exists signer tx,
             In (EvApprove signer TOKENS_USDC_BASE (target (transactionRequest r))
                           required (Resolved tx)) seen
             /\ In (EvWait tx (Resolved tt)) seen).

(** Among the events [seen], the transaction [tx] was sent and mined. *)
Definition mined (tx : TransactionResponse) (seen : list Event) : Prop :=
  exists signer sent,
    In (EvSendTransaction signer sent (Resolved tx)) seen
    /\ In (EvWait tx (Resolved tt)) seen.

(** The condition on each event of [bridge], given the events before it:
    the status becomes (or stays) [bridging], and the bridge transaction is
    sent, only with the allowance verified for the route in the state and its
    [fromAmount]; the status becomes [monitoring] only with the transaction
    of the state's [txHash] mined. *)
Definition bridge_order {W : Type} (env : Env W) (wallet : string)
           (seen : list Event) (e : Event) : Prop :=
  match e with
  | EvSetState st =>
      (status st = status_bridging ->
       exists r required,
         route_ st = Some r
         /\ env_BigInt env (fromAmount (params r)) = Resolved required
         /\ allowance_verified wallet r required seen)
      /\ (status st = status_monitoring ->
          exists tx, txHash st = Some (hash tx) /\ mined tx seen)
  | EvSendTransaction _ sent _ =>
      exists r required,
        sent = sent_of (transactionRequest r)
        /\ env_BigInt env (fromAmount (params r)) = Resolved required
        /\ allowance_verified wallet r required seen
  | _ => True
  end.

(** Events that are neither a [setState] nor the sending of a transaction. *)
Definition plain_event (e : Event) : Prop :=
  match e with
  | EvSetState _ | EvSendTransaction _ _ _ => False
  | _ => True
  end.

(* ------------------------------------------------------------------------- *)
(** ** More of useSquidBridge.ts and squidService.ts *)

(** What the wallet provider and [ethers] answer to [connectWallet] and
    [getTokenBalance]; these calls leave no event. *)
Record WalletEnv (W : Type) : Type := {
  wenv_requestAccounts : W -> Outcome (list string) * W;
  wenv_getNetwork : W -> Outcome string * W;
  wenv_switchChain : string -> W -> Outcome unit * W;
  wenv_balanceOf : string -> option string -> W -> Outcome Z * W;
  wenv_formatUnits : Z -> Z -> string
}.

Section More.

Variable W : Type.
Variable env : Env W.
Variable wenv : WalletEnv W.

Declare Scope async_scope.

Notation "x <- c ;; k" := (bind c (fun x => k))
  (at level 100, c at next level, right associativity) : async_scope.
Notation "c ;;; k" := (bind c (fun _ => k))
  (at level 100, right associativity) : async_scope.

Local Open Scope async_scope.

(** An awaited call that leaves no event. *)
Definition ask {A : Type} (oracle : W -> Outcome A * W) : M W A :=
  fun s =>
    match oracle (world s) with
    | (r, w) => (r, {| world := w; hook := hook s |}, [])
    end.

(** [setWalletAddress], [setBalance] *)
Definition setWalletAddress (a : option string) : M W unit :=
  fun s =>
    (Resolved tt,
     {| world := world s;
        hook := {| state := state (hook s);
                   walletAddress := a;
                   balance := balance (hook s) |} |},
     []).

Definition setBalance (b : option string) : M W unit :=
  fun s =>
    (Resolved tt,
     {| world := world s;
        hook := {| state := state (hook s);
                   walletAddress := walletAddress (hook s);
                   balance := b |} |},
     []).

(** *** squidService.ts: getTokenBalance *)

Definition getTokenBalance (tokenAddress : string) (walletAddress : option string)
  : M W Z :=
  balance <- ask (wenv_balanceOf wenv tokenAddress walletAddress) ;;
  ret balance.

(** *** useSquidBridge.ts: fetchRoute *)

(** [prev => ({ ...prev, isLoading: true, error: null })] *)
Definition set_loading (prev : BridgeState) : BridgeState :=
  {| isLoading := true; error := None; status := status prev;
     txHash := txHash prev; route_ := route_ prev |}.

(** [prev => ({ ...prev, route, isLoading: false })] *)
Definition set_quoted (r : Route) (prev : BridgeState) : BridgeState :=
  {| isLoading := false; error := error prev; status := status prev;
     txHash := txHash prev; route_ := Some r |}.

(** [prev => ({ ...prev, isLoading: false })] *)
Definition set_loaded (prev : BridgeState) : BridgeState :=
  {| isLoading := false; error := error prev; status := status prev;
     txHash := txHash prev; route_ := route_ prev |}.

(** [error.message || d] *)
Definition message_or (e : JsError) (d : string) : string :=
  if String.eqb (err_message e) "" then d else err_message e.

(** The [catch] block of [fetchRoute]. *)
Definition fetchRoute_catch (error : Thrown) : M W Route :=
  match error with
  | ThrownUndefined =>
      throw (Error "Cannot read properties of undefined (reading 'message')")
  | ThrownError e =>
      setState (set_error (message_or e "Failed to fetch route")) ;;;
      throw error
  end.

(** The [try] block of [fetchRoute]. *)
Definition fetchRoute_try (walletAddress amount : string) : M W Route :=
  amountInWei <- settle (env_parseUnits env amount TOKEN_DECIMALS_USDC) ;;
  rr <- getRoute env (bridge_request walletAddress amountInWei) ;;
  setState (set_quoted (route rr)) ;;;
  ret (route rr).

Definition fetchRoute (amount : string) : M W Route :=
  h <- @getHook W ;;
  match truthy (walletAddress h) with
  | None => throw (Error "Wallet not connected")
  | Some walletAddress =>
      setState set_loading ;;;
      try_catch (fetchRoute_try walletAddress amount) fetchRoute_catch
  end.

(** *** useSquidBridge.ts: connectWallet *)

(** ['0x' + Number(CHAIN_IDS.BASE).toString(16)] *)
Definition BASE_CHAIN_HEX : string := "0x2105".

(** The [catch (switchError)] block. *)
Definition connectWallet_switchCatch (switchError : Thrown) : M W unit :=
  match switchError with
  | ThrownUndefined =>
      throw (Error "Cannot read properties of undefined (reading 'code')")
  | ThrownError e =>
      if JsVal_eqb (err_code e) (JsNum 4902)
      then throw (Error "Please add Base network to your wallet")
      else throw switchError
  end.

(** The balance read and [setBalance(ethers.formatUnits(bal, 6))]. *)
Definition connectWallet_balance (address : option string) : M W unit :=
  bal <- getTokenBalance TOKENS_USDC_BASE address ;;
  setBalance (Some (wenv_formatUnits wenv bal TOKEN_DECIMALS_USDC)).

(** The [try] block of [connectWallet] from the network check on. *)
Definition connectWallet_network (address : option string) : M W (option string) :=
  chainId <- ask (wenv_getNetwork wenv) ;;
  (if negb (String.eqb chainId CHAIN_IDS_BASE)
   then try_catch
          (ask (wenv_switchChain wenv BASE_CHAIN_HEX) ;;;
           connectWallet_balance address)
          connectWallet_switchCatch
   else connectWallet_balance address) ;;;
  setState set_loaded ;;;
  ret address.

(** The [try] block of [connectWallet]; [accounts[0]] of an empty list is
    [undefined]. *)
Definition connectWallet_try : M W (option string) :=
  w <- @getWorld W ;;
  if negb (env_ethereum env w)
  then throw (Error "MetaMask is not installed. Please install MetaMask to continue.")
  else
    accounts <- ask (wenv_requestAccounts wenv) ;;
    let address := hd_error accounts in
    setWalletAddress address ;;;
    connectWallet_network address.

Definition connectWallet_errorMessage (e : JsError) : string :=
  if JsVal_eqb (err_code e) (JsNum 4001)
  then "Wallet connection rejected by user"
  else message_or e "Failed to connect wallet".

(** The [catch] block of [connectWallet]. *)
Definition connectWallet_catch (error : Thrown) : M W (option string) :=
  match error with
  | ThrownUndefined =>
      throw (Error "Cannot read properties of undefined (reading 'code')")
  | ThrownError e =>
      setState (set_error (connectWallet_errorMessage e)) ;;;
      throw error
  end.

Definition connectWallet : M W (option string) :=
  setState set_loading ;;;
  try_catch connectWallet_try connectWallet_catch.

End More.

(* ------------------------------------------------------------------------- *)
(** ** Reading the runs of the service functions *)

(** The events of [retryWithBackoff] on a function that makes one awaited
    call, recorded by [ev]: the call fails with [es], each failure followed
    by its wait, and then settles to [last]. *)
Fixpoint retried_events {A : Type} (ev : Outcome A -> Event) (initialDelay : Z)
         (attempt : nat) (es : list Thrown) (last : Outcome A) : list Event :=
  match es with
  | [] => [ev last]
  | e :: es' =>
      ev (Rejected e) :: EvSleep (initialDelay * 2 ^ Z.of_nat attempt)
        :: retried_events ev initialDelay (S attempt) es' last
  end.

(** Waits and requests to the route endpoint with the body [p]. *)
Definition route_event (p : RouteParams) (e : Event) : Prop :=
  match e with
  | EvSleep _ => True
  | EvFetchRoute p' _ => p' = p
  | _ => False
  end.

(** Waits, requests to the status endpoint with the query [q], and the
    records of polls. *)
Definition status_event (q : StatusQuery) (e : Event) : Prop :=
  match e with
  | EvSleep _ | EvPoll _ => True
  | EvFetchStatus q' _ => q' = q
  | _ => False
  end.

(* ------------------------------------------------------------------------- *)
(** ** Assertions on the hook and on counts *)

(** From a hook that satisfies [Pre], [c] settles to an outcome and leaves a
    hook that satisfy [Post]. *)
Definition hoare {W A : Type} (Pre : Hook -> Prop) (c : M W A)
           (Post : Outcome A -> Hook -> Prop) : Prop :=
  forall s, Pre (hook s) -> Post (outcome_of (c s)) (hook (store_of (c s))).

(** No run of [c] has more than [n] of the events that [proj] selects. *)
Definition at_most {W A X : Type} (proj : list Event -> list X) (n : nat) (c : M W A)
  : Prop :=
  forall s, length (proj (events_of (c s))) <= n.

(** Every event of every run of [c] satisfies [P]. *)
Definition only {W A : Type} (P : Event -> Prop) (c : M W A) : Prop :=
  forall s, Forall P (events_of (c s)).

(** The events that ask the wallet for a signature. *)
Definition signature_event (e : Event) : bool :=
  match e with
  | EvApprove _ _ _ _ _ | EvSendTransaction _ _ _ => true
  | _ => false
  end.

(** The events that go to the wallet or the chain. *)
Definition wallet_event (e : Event) : bool :=
  match e with
  | EvGetSigner _ | EvAllowance _ _ _ _ | EvApprove _ _ _ _ _ | EvWait _ _
  | EvSendTransaction _ _ _ => true
  | _ => false
  end.

(** The events of asking for a quote of [amount] for [wallet]: changes of the
    state, waits, and requests to the route endpoint with the body that
    [bridge] sends too. *)
Definition quote_event {W : Type} (env : Env W) (wallet amount : string) (e : Event)
  : Prop :=
  match e with
  | EvSetState _ | EvSleep _ => True
  | EvFetchRoute p _ =>
      exists a, env_parseUnits env amount TOKEN_DECIMALS_USDC = Resolved a
                /\ p = bridge_request wallet a
  | _ => False
  end.

(** The hashes of the transactions that the wallet accepted to send. *)
Definition sent_hashes (evs : list Event) : list string :=
  flat_map (fun e => match e with
                     | EvSendTransaction _ _ (Resolved tx) => [hash tx]
                     | _ => []
                     end) evs.

(** The condition on the wallet calls of [bridge], given the events before
    them: the allowance read, the approval and the transaction are those of
    a route that the quote request of this run was answered with -- the
    spender is the route's target, the amount approved the route's
    [fromAmount], the transaction the route's [transactionRequest]. *)
Definition from_quote {W : Type} (env : Env W) (wallet amount : string)
           (seen : list Event) (e : Event) : Prop :=
  match e with
  | EvAllowance token owner spender _ =>
      exists r, quoted env wallet amount r seen
                /\ token = TOKENS_USDC_BASE /\ owner = wallet
                /\ spender = target (transactionRequest r)
  | EvApprove _ token spender amt _ =>
      exists r, quoted env wallet amount r seen
                /\ token = TOKENS_USDC_BASE
                /\ spender = target (transactionRequest r)
                /\ env_BigInt env (fromAmount (params r)) = Resolved amt
  | EvSendTransaction _ sent _ =>
      exists r, quoted env wallet amount r seen
                /\ sent = sent_of (transactionRequest r)
  | _ => True
  end.

(** Events that are no allowance read, approval or transaction. *)
Definition unsigned_event (e : Event) : Prop :=
  match e with
  | EvAllowance _ _ _ _ | EvApprove _ _ _ _ _ | EvSendTransaction _ _ _ => False
  | _ => True
  end.

(** The session is loading and shows no error. *)
Definition loading (st : BridgeState) : Prop :=
  isLoading st = true /\ error st = None.

(* ------------------------------------------------------------------------- *)
(** ** More scripted worlds *)

Module Scenario.

(** The route endpoint cannot be reached twice, then answers. *)
Definition flakyWorld : Script.World :=
  {| Script.ethereum := true;
     Script.signer := Resolved {| signerAddress := Script.wallet |};
     Script.routeResponses :=
       [Rejected Script.connectionReset; Rejected Script.timedOut;
        Script.okResponse {| body_route := Some Script.sampleRoute; body_error := None |}];
     Script.statusResponses := [];
     Script.ledger := [] |}.

(** A response of the status endpoint that is not a success. *)
Definition tooManyRequests : Response TransactionStatus :=
  {| res_ok := false; res_status := 429;
     res_json := Resolved {| ts_id := ""; ts_status := ""; squidTransactionStatus := "";
                             ts_error := Some "Too Many Requests" |} |}.

(** The status endpoint always answers [success]. *)
Definition alwaysDoneWorld : Script.World :=
  Script.with_statusResponses Script.happyWorld
    (repeat (Script.okResponse (Script.statusBody "success")) 60).

(** The user rejects the request for the signer. *)
Definition userRejected : JsError :=
  {| err_message := "user rejected action";
     err_code := JsNum 4001;
     err_status := JsUndefined |}.

Definition with_signer (w : Script.World) (sg : Outcome Signer) : Script.World :=
  {| Script.ethereum := Script.ethereum w;
     Script.signer := sg;
     Script.routeResponses := Script.routeResponses w;
     Script.statusResponses := Script.statusResponses w;
     Script.ledger := Script.ledger w |}.

Definition rejectingWorld : Script.World :=
  with_signer Script.happyWorld (Rejected (ThrownError userRejected)).

(** The wallet rejects the request for the signer with [undefined]. *)
Definition silentWorld : Script.World :=
  with_signer Script.happyWorld (Rejected ThrownUndefined).

(** The route endpoint refuses the request. *)
Definition refusedWorld : Script.World :=
  {| Script.ethereum := true;
     Script.signer := Resolved {| signerAddress := Script.wallet |};
     Script.routeResponses :=
       [Resolved {| res_ok := false; res_status := 400;
                    res_json := Resolved {| body_route := None;
                                            body_error := Some "amount too low" |} |}];
     Script.statusResponses := [];
     Script.ledger := [] |}.

(** A session without a wallet. *)
Definition disconnected (w : Script.World) : Store Script.World :=
  {| world := w;
     hook := {| state := initialState; walletAddress := None; balance := None |} |}.

(** [ethers.formatUnits] on whole amounts of tokens. *)
Definition formatWhole (v decimals : Z) : string :=
  String.append (decimal (v / 10 ^ decimals)) ".0".

(** A wallet on Base that holds 25 USDC. *)
Definition walletOnBase : WalletEnv Script.World :=
  {| wenv_requestAccounts := fun w => (Resolved [Script.wallet], w);
     wenv_getNetwork := fun w => (Resolved "8453", w);
     wenv_switchChain := fun _ w => (Resolved tt, w);
     wenv_balanceOf := fun _ _ w => (Resolved 25000000%Z, w);
     wenv_formatUnits := formatWhole |}.

(** A wallet on another network that does not know Base. *)
Definition unknownChain : JsError :=
  {| err_message := "Unrecognized chain ID";
     err_code := JsNum 4902;
     err_status := JsUndefined |}.

Definition walletElsewhere : WalletEnv Script.World :=
  {| wenv_requestAccounts := fun w => (Resolved [Script.wallet], w);
     wenv_getNetwork := fun w => (Resolved "1", w);
     wenv_switchChain := fun _ w => (Rejected (ThrownError unknownChain), w);
     wenv_balanceOf := fun _ _ w => (Resolved 25000000%Z, w);
     wenv_formatUnits := formatWhole |}.

(** The bridge transaction is mined on Base and fails on the way. *)
Definition failedWorld : Script.World :=
  Script.with_statusResponses Script.happyWorld
    [Script.okResponse (Script.statusBody "failed")].

(** A callback that throws. *)
Definition thrower (_ : TransactionStatus) (w : Script.World)
  : Outcome unit * Script.World :=
  (Rejected (Error "listener failed"), w).

End Scenario.

(* ------------------------------------------------------------------------- *)
(** ** components/SquidBridge.tsx: the amount field *)

Definition is_digit (c : ascii) : bool :=
  let n := nat_of_ascii c in Nat.leb 48 n && Nat.leb n 57.

(** The rest of a string after its leading decimal digits: [\d*]. *)
Fixpoint skip_digits (s : string) : string :=
  match s with
  | String c s' => if is_digit c then skip_digits s' else s
  | EmptyString => s
  end.

(** [/^\d*\.?\d*$/.test(value)] *)
Definition amount_pattern (value : string) : bool :=
  match skip_digits value with
  | String "."%char rest => String.eqb (skip_digits rest) ""
  | rest => String.eqb rest ""
  end.

(** The component's own state. *)
Record Form : Type := {
  amount : string;
  showQuote : bool
}.

Definition handleAmountChange (value : string) (f : Form) : Form :=
  if String.eqb value "" || amount_pattern value
  then {| amount := value; showQuote := false |}
  else f.

(** The strings of decimal digits with at most one dot. *)
Definition amount_char (c : ascii) : bool :=
  is_digit c || Ascii.eqb c "."%char.

Definition count_dots (s : string) : nat :=
  List.length (filter (Ascii.eqb "."%char) (list_ascii_of_string s)).

Definition decimal_text (s : string) : bool :=
  forallb amount_char (list_ascii_of_string s) && Nat.leb (count_dots s) 1.

(* ========================================================================= *)
(** * Properties *)

(** ** The monad and the projections *)

Lemma calls_of_app (a b : list Event) : calls_of (a ++ b) = calls_of a ++ calls_of b.
Proof. apply flat_map_app. Qed.

Lemma waits_of_app (a b : list Event) : waits_of (a ++ b) = waits_of a ++ waits_of b.
Proof. apply flat_map_app. Qed.

Lemma polls_of_app (a b : list Event) : polls_of (a ++ b) = polls_of a ++ polls_of b.
Proof. apply flat_map_app. Qed.

Lemma updates_of_app (a b : list Event) : updates_of (a ++ b) = updates_of a ++ updates_of b.
Proof. apply flat_map_app. Qed.

Lemma states_of_app (a b : list Event) : states_of (a ++ b) = states_of a ++ states_of b.
Proof. apply flat_map_app. Qed.

Lemma approvals_of_app (a b : list Event) :
  approvals_of (a ++ b) = approvals_of a ++ approvals_of b.
Proof. apply flat_map_app. Qed.

Lemma sends_of_app (a b : list Event) : sends_of (a ++ b) = sends_of a ++ sends_of b.
Proof. apply flat_map_app. Qed.

Lemma route_fetches_of_app (a b : list Event) :
  route_fetches_of (a ++ b) = route_fetches_of a ++ route_fetches_of b.
Proof. apply flat_map_app. Qed.

Lemma status_fetches_of_app (a b : list Event) :
  status_fetches_of (a ++ b) = status_fetches_of a ++ status_fetches_of b.
Proof. apply flat_map_app. Qed.

Create Rewrite HintDb events.

#[export] Hint Rewrite calls_of_app waits_of_app polls_of_app updates_of_app
  states_of_app approvals_of_app sends_of_app route_fetches_of_app
  status_fetches_of_app : events.

(** ** retryWithBackoff *)

Section Retry.

Variables (W T : Type) (f : W -> Outcome T * W).

Lemma call_fn_run (s : Store W) :
  call_fn f s
  = (fst (f (world s)),
     {| world := snd (f (world s)); hook := hook s |},
     [EvFn (settled_unit (fst (f (world s))))]).
Proof. unfold call_fn, await. now destruct (f (world s)). Qed.

Lemma calls_of_retry_events initialDelay attempt es last :
  calls_of (retry_events initialDelay attempt es last) = map Rejected es ++ [last].
Proof.
  revert attempt. induction es as [|e es IH]; intros attempt; simpl.
  - reflexivity.
  - now rewrite IH.
Qed.

Lemma waits_of_retry_events initialDelay attempt es last :
  waits_of (retry_events initialDelay attempt es last)
  = backoff_delays initialDelay attempt (length es).
Proof.
  revert attempt. induction es as [|e es IH]; intros attempt; simpl.
  - reflexivity.
  - now rewrite IH.
Qed.

(** The loop calls the function once per iteration. *)
Lemma retry_loop_calls_le maxRetries initialDelay remaining :
  forall attempt lastError (s : Store W),
    length (calls_of (events_of
      (retry_loop (call_fn f) maxRetries initialDelay remaining attempt lastError s)))
    <= remaining.
Proof.
  induction remaining as [|remaining IH]; intros attempt lastError s.
  - simpl. lia.
  - cbn [retry_loop]. unfold try_catch. rewrite call_fn_run.
    destruct (f (world s)) as [[v|e] w]; cbn [events_of fst snd].
    + simpl. lia.
    + destruct (negb (isRetryable e) || Nat.eqb attempt (maxRetries - 1)).
      * simpl. lia.
      * unfold bind, sleep.
        match goal with
        | |- context [retry_loop ?c ?m ?d remaining ?a ?l ?s'] =>
            specialize (IH a l s'); revert IH;
            destruct (retry_loop c m d remaining a l s') as [[r1 s1] ev1]; intros IH
        end.
        cbn [events_of snd] in *. autorewrite with events. simpl.
        lia.
Qed.

(** A run of the loop on a function that fails retryably with [es] and then
    settles to [r], where [r] ends the loop: a value, an error that is not
    retryable, or the error of the last attempt. *)
Lemma retry_loop_run maxRetries initialDelay :
  forall es r remaining attempt lastError (s : Store W),
    fn_outcomes f (S (length es)) (world s) = map Rejected es ++ [r] ->
    Forall (fun e => isRetryable e = true) es ->
    length es < remaining ->
    attempt + remaining = maxRetries ->
    match r with
    | Resolved _ => True
    | Rejected e => isRetryable e = false \/ S (length es) = remaining
    end ->
    let run := retry_loop (call_fn f) maxRetries initialDelay remaining attempt lastError s in
    outcome_of run = r /\
    events_of run = retry_events initialDelay attempt es (settled_unit r).
Proof.
  induction es as [|e es IH]; intros r remaining attempt lastError s Hout Hes Hlen Hsum Hend.
  - destruct remaining as [|remaining]; [simpl in Hlen; lia|].
    cbn [retry_loop]. unfold try_catch. rewrite call_fn_run.
    simpl in Hout. destruct (f (world s)) as [r0 w]. injection Hout as ->.
    destruct r as [v|e]; cbn.
    + split; reflexivity.
    + assert (Hc : negb (isRetryable e) || Nat.eqb attempt (maxRetries - 1) = true).
      { destruct Hend as [Hn|Hl].
        - now rewrite Hn.
        - apply orb_true_iff. right. apply Nat.eqb_eq. simpl in Hl. lia. }
      rewrite Hc. cbn. split; reflexivity.
  - destruct remaining as [|remaining]; [simpl in Hlen; lia|].
    cbn [retry_loop]. unfold try_catch. rewrite call_fn_run.
    cbn [fn_outcomes List.length map app] in Hout.
    destruct (f (world s)) as [r0 w] eqn:Hf.
    injection Hout as -> Hout. cbn [fst snd].
    apply Forall_cons_iff in Hes. destruct Hes as [He Hes'].
    assert (Hc : negb (isRetryable e) || Nat.eqb attempt (maxRetries - 1) = false).
    { rewrite He. simpl. apply Nat.eqb_neq. simpl in Hlen. lia. }
    rewrite Hc. unfold bind, sleep.
    specialize (IH r remaining (S attempt) e {| world := w; hook := hook s |}).
    cbn [world] in IH.
    specialize (IH Hout Hes').
    assert (Hlen' : length es < remaining) by (simpl in Hlen; lia).
    assert (Hsum' : S attempt + remaining = maxRetries) by lia.
    specialize (IH Hlen' Hsum').
    assert (Hend' : match r with
                    | Resolved _ => True
                    | Rejected e0 => isRetryable e0 = false \/ S (length es) = remaining
                    end).
    { destruct r; [exact I|]. destruct Hend as [Hn|Hl]; [now left|right].
      simpl in Hl. lia. }
    specialize (IH Hend'). cbv zeta in IH.
    destruct (retry_loop (call_fn f) maxRetries initialDelay remaining (S attempt) e
                {| world := w; hook := hook s |}) as [[r1 s1] ev1].
    cbn [outcome_of events_of fst snd] in *.
    destruct IH as [-> ->]. split; reflexivity.
Qed.

End Retry.

(** C3 -- [retryWithBackoff(fn, 5, 1000)], for every function [fn] of the
    caller: (1) [fn] is called at most 5 times; (2) if the first four calls
    fail with retryable errors (status 429, code ECONNRESET or ETIMEDOUT) and
    the fifth succeeds, the value is returned after waits of 1000, 2000,
    4000 and 8000 ms, 15000 ms in all; (3) if all five calls fail, the first
    four retryably, the fifth error is thrown after exactly five calls and the
    same four waits, with no wait after it; (4) an error that is not
    retryable is thrown at once: the events of the run end with the failing
    call, each earlier failure being followed by its wait. *)
Theorem retryWithBackoff_policy (W T : Type) (f : W -> Outcome T * W) (s : Store W) :
  let run := retryWithBackoff (call_fn f) 5 1000 s in
  length (calls_of (events_of run)) <= 5
  /\ (forall e1 e2 e3 e4 v,
        fn_outcomes f 5 (world s)
        = [Rejected e1; Rejected e2; Rejected e3; Rejected e4; Resolved v] ->
        Forall (fun e => isRetryable e = true) [e1; e2; e3; e4] ->
        outcome_of run = Resolved v
        /\ length (calls_of (events_of run)) = 5
        /\ waits_of (events_of run) = [1000; 2000; 4000; 8000]%Z
        /\ total_wait (events_of run) = 15000%Z)
  /\ (forall e1 e2 e3 e4 e5,
        fn_outcomes f 5 (world s)
        = [Rejected e1; Rejected e2; Rejected e3; Rejected e4; Rejected e5] ->
        Forall (fun e => isRetryable e = true) [e1; e2; e3; e4] ->
        outcome_of run = Rejected e5
        /\ calls_of (events_of run)
           = [Rejected e1; Rejected e2; Rejected e3; Rejected e4; Rejected e5]
        /\ waits_of (events_of run) = [1000; 2000; 4000; 8000]%Z)
  /\ (forall es e,
        length es < 5 ->
        fn_outcomes f (S (length es)) (world s) = map Rejected es ++ [Rejected e] ->
        Forall (fun x => isRetryable x = true) es ->
        isRetryable e = false ->
        outcome_of run = Rejected e
        /\ events_of run = retry_events 1000 0 es (Rejected e)
        /\ length (calls_of (events_of run)) = S (length es)
        /\ waits_of (events_of run) = backoff_delays 1000 0 (length es)).
Proof.
  intros run. subst run. unfold retryWithBackoff.
  split; [apply retry_loop_calls_le|].
  split; [|split].
  - intros e1 e2 e3 e4 v Hout Hes.
    destruct (@retry_loop_run W T f 5 1000%Z [e1; e2; e3; e4] (Resolved v) 5 0
                ThrownUndefined s Hout Hes ltac:(simpl; lia) eq_refl I) as [Ho He].
    rewrite Ho, He. repeat split.
  - intros e1 e2 e3 e4 e5 Hout Hes.
    destruct (@retry_loop_run W T f 5 1000%Z [e1; e2; e3; e4] (Rejected e5) 5 0
                ThrownUndefined s Hout Hes ltac:(simpl; lia) eq_refl
                (or_intror eq_refl)) as [Ho He].
    rewrite Ho, He. repeat split.
  - intros es e Hlen Hout Hes Hne.
    destruct (@retry_loop_run W T f 5 1000%Z es (Rejected e) 5 0
                ThrownUndefined s Hout Hes Hlen eq_refl (or_introl Hne)) as [Ho He].
    rewrite Ho, He, calls_of_retry_events, waits_of_retry_events.
    repeat split. rewrite length_app, length_map. simpl. lia.
Qed.

Lemma retryWithBackoff_policy_witness :
  (let run := retryWithBackoff (call_fn Script.pop) 5 1000
       (Script.answers [Rejected Script.rateLimited; Rejected Script.connectionReset;
                        Rejected Script.timedOut; Rejected Script.rateLimited;
                        Resolved 42%Z]) in
   outcome_of run = Resolved 42%Z /\ total_wait (events_of run) = 15000%Z)
  /\ (let run := retryWithBackoff (call_fn Script.pop) 5 1000
       (Script.answers [Rejected Script.rateLimited; Rejected Script.rateLimited;
                        Rejected Script.rateLimited; Rejected Script.rateLimited;
                        Rejected Script.timedOut; Resolved 42%Z]) in
      outcome_of run = Rejected Script.timedOut
      /\ waits_of (events_of run) = [1000; 2000; 4000; 8000]%Z)
  /\ (let run := retryWithBackoff (call_fn Script.pop) 5 1000
       (Script.answers [Rejected Script.rateLimited; Rejected Script.badRequest;
                        Resolved 42%Z]) in
      outcome_of run = Rejected Script.badRequest
      /\ waits_of (events_of run) = [1000]%Z).
Proof.
  split; [|split]; cbv zeta.
  - match goal with
    | |- context [retryWithBackoff (call_fn ?f) 5 1000 ?s] =>
        destruct (retryWithBackoff_policy f s) as (_ & H & _ & _)
    end.
    destruct (H Script.rateLimited Script.connectionReset Script.timedOut
                Script.rateLimited 42%Z eq_refl
                ltac:(repeat constructor)) as (H1 & _ & _ & H4).
    split; [exact H1 | exact H4].
  - match goal with
    | |- context [retryWithBackoff (call_fn ?f) 5 1000 ?s] =>
        destruct (retryWithBackoff_policy f s) as (_ & _ & H & _)
    end.
    destruct (H Script.rateLimited Script.rateLimited Script.rateLimited
                Script.rateLimited Script.timedOut eq_refl
                ltac:(repeat constructor)) as (H1 & _ & H3).
    split; [exact H1 | exact H3].
  - match goal with
    | |- context [retryWithBackoff (call_fn ?f) 5 1000 ?s] =>
        destruct (retryWithBackoff_policy f s) as (_ & _ & _ & H)
    end.
    destruct (H [Script.rateLimited] Script.badRequest
                ltac:(simpl; lia) eq_refl ltac:(repeat constructor) eq_refl)
      as (H1 & _ & _ & H4).
    split; [exact H1 | exact H4].
Defined.

(** ** Computations that only talk to the network *)

Lemma obs_of_app (a b : list Event) : obs_of (a ++ b) = obs_of a ++ obs_of b.
Proof. apply flat_map_app. Qed.

Lemma statuses_of_app (a b : list Event) :
  statuses_of (a ++ b) = statuses_of a ++ statuses_of b.
Proof. unfold statuses_of. now rewrite states_of_app, map_app. Qed.

#[export] Hint Rewrite obs_of_app statuses_of_app : events.

Section Quiet.

Variable W : Type.
Variable P : Event -> Prop.

Lemma await_run (A : Type) (ev : Outcome A -> Event) (oracle : W -> Outcome A * W)
      (s : Store W) :
  await ev oracle s
  = (fst (oracle (world s)),
     {| world := snd (oracle (world s)); hook := hook s |},
     [ev (fst (oracle (world s)))]).
Proof. unfold await. now destruct (oracle (world s)). Qed.

Lemma quiet_ret (A : Type) (a : A) : quiet P (ret (W:=W) a).
Proof. intros s. split; [constructor | reflexivity]. Qed.

Lemma quiet_throw (A : Type) (e : Thrown) : quiet P (throw (W:=W) (A:=A) e).
Proof. intros s. split; [constructor | reflexivity]. Qed.

Lemma quiet_settle (A : Type) (r : Outcome A) : quiet P (settle (W:=W) r).
Proof. intros s. split; [constructor | reflexivity]. Qed.

Lemma quiet_sleep (ms : Z) : P (EvSleep ms) -> quiet P (sleep (W:=W) ms).
Proof. intros H s. split; [repeat constructor; exact H | reflexivity]. Qed.

Lemma quiet_await (A : Type) (ev : Outcome A -> Event) (oracle : W -> Outcome A * W) :
  (forall r, P (ev r)) -> quiet P (await ev oracle).
Proof.
  intros H s. rewrite await_run. split; [repeat constructor; apply H | reflexivity].
Qed.

Lemma quiet_bind (A B : Type) (c : M W A) (k : A -> M W B) :
  quiet P c -> (forall a, quiet P (k a)) -> quiet P (bind c k).
Proof.
  intros Hc Hk s. unfold bind. destruct (Hc s) as [Hev Hh].
  destruct (c s) as [[[a|e] s1] ev1]; cbn [events_of store_of fst snd] in *.
  - destruct (Hk a s1) as [Hev2 Hh2].
    destruct (k a s1) as [[r s2] ev2]; cbn [events_of store_of fst snd] in *.
    split; [apply Forall_app; split; assumption | congruence].
  - split; assumption.
Qed.

Lemma quiet_try_catch (A : Type) (c : M W A) (h : Thrown -> M W A) :
  quiet P c -> (forall e, quiet P (h e)) -> quiet P (try_catch c h).
Proof.
  intros Hc Hh s. unfold try_catch. destruct (Hc s) as [Hev Hk].
  destruct (c s) as [[[a|e] s1] ev1]; cbn [events_of store_of fst snd] in *.
  - split; assumption.
  - destruct (Hh e s1) as [Hev2 Hh2].
    destruct (h e s1) as [[r s2] ev2]; cbn [events_of store_of fst snd] in *.
    split; [apply Forall_app; split; assumption | congruence].
Qed.

Lemma quiet_retry_loop (T : Type) (fn : M W T) maxRetries initialDelay :
  quiet P fn -> (forall ms, P (EvSleep ms)) ->
  forall remaining attempt lastError,
    quiet P (retry_loop fn maxRetries initialDelay remaining attempt lastError).
Proof.
  intros Hfn Hsleep. induction remaining as [|remaining IH]; intros attempt lastError.
  - apply quiet_throw.
  - cbn [retry_loop]. apply quiet_try_catch; [exact Hfn|].
    intros e. destruct (negb (isRetryable e) || Nat.eqb attempt (maxRetries - 1)).
    + apply quiet_throw.
    + apply quiet_bind; [apply quiet_sleep, Hsleep | intros _; apply IH].
Qed.

End Quiet.

(** Events of the HTTP layer are invisible to every projection but the waits
    and the fetches. *)
Lemma http_silent (evs : list Event) :
  Forall is_http evs ->
  polls_of evs = [] /\ updates_of evs = [] /\ obs_of evs = [] /\ states_of evs = []
  /\ approvals_of evs = [] /\ sends_of evs = [] /\ calls_of evs = [].
Proof.
  induction 1 as [|e evs He _ IH]; [repeat split|].
  destruct IH as (? & ? & ? & ? & ? & ? & ?).
  destruct e; try discriminate He; cbn; repeat split; assumption.
Qed.

Lemma monitor_silent (evs : list Event) :
  Forall is_monitor evs ->
  updates_of evs = [] /\ states_of evs = [] /\ approvals_of evs = []
  /\ sends_of evs = [] /\ calls_of evs = [] /\ route_fetches_of evs = [].
Proof.
  induction 1 as [|e evs He _ IH]; [repeat split|].
  destruct IH as (? & ? & ? & ? & ? & ?).
  destruct e; try discriminate He; cbn; repeat split; assumption.
Qed.

(** ** getRoute, getTransactionStatus and monitorTransaction are quiet *)

Section QuietService.

Variable W : Type.
Variable env : Env W.
Variable P : Event -> Prop.
Hypothesis P_sleep : forall ms, P (EvSleep ms).

Lemma getRoute_fn_quiet requestParams :
  (forall p r, P (EvFetchRoute p r)) -> quiet P (getRoute_fn env requestParams).
Proof.
  intros HP. unfold getRoute_fn. apply quiet_bind.
  - apply quiet_await. intros r. apply HP.
  - intros res. destruct (negb (res_ok res)); [apply quiet_throw | apply quiet_settle].
Qed.

Lemma getRoute_quiet params :
  (forall p r, P (EvFetchRoute p r)) -> quiet P (getRoute env params).
Proof.
  intros HP. unfold getRoute, retryWithBackoff_default, retryWithBackoff.
  apply quiet_bind.
  - apply quiet_retry_loop; [apply getRoute_fn_quiet, HP | exact P_sleep].
  - intros response. destruct (body_route response); [apply quiet_ret | apply quiet_throw].
Qed.

Lemma getTransactionStatus_fn_quiet txHash q :
  (forall q' r, P (EvFetchStatus q' r)) -> quiet P (getTransactionStatus_fn env txHash q).
Proof.
  intros HP. unfold getTransactionStatus_fn. apply quiet_bind.
  - apply quiet_await. intros r. apply HP.
  - intros res. destruct (res_status res =? 404)%Z; [apply quiet_ret|].
    destruct (negb (res_ok res)); [apply quiet_throw | apply quiet_settle].
Qed.

Lemma recorded_quiet (c : M W TransactionStatus) :
  (forall r, P (EvPoll r)) -> quiet P c -> quiet P (recorded c).
Proof.
  intros HP Hc s. unfold recorded. destruct (Hc s) as [Hev Hh].
  destruct (c s) as [[r s1] ev1]; cbn [events_of store_of fst snd] in *.
  split; [|exact Hh]. apply Forall_app. split; [exact Hev|]. repeat constructor. apply HP.
Qed.

Lemma getTransactionStatus_quiet txHash requestId fromChainId toChainId :
  (forall q r, P (EvFetchStatus q r)) -> (forall r, P (EvPoll r)) ->
  quiet P (getTransactionStatus env txHash requestId fromChainId toChainId).
Proof.
  intros HF HP. unfold getTransactionStatus, retryWithBackoff_default, retryWithBackoff.
  apply recorded_quiet; [exact HP|].
  apply quiet_retry_loop; [apply getTransactionStatus_fn_quiet, HF | exact P_sleep].
Qed.

Lemma monitorTransaction_quiet txHash requestId fromChainId toChainId onStatusUpdate
      pollInterval :
  (forall q r, P (EvFetchStatus q r)) -> (forall r, P (EvPoll r)) ->
  (forall f, onStatusUpdate = Some f -> forall st, quiet P (f st)) ->
  quiet P (monitorTransaction env txHash requestId fromChainId toChainId
                              onStatusUpdate pollInterval).
Proof.
  intros HF HP Hcb. unfold monitorTransaction.
  apply quiet_bind; [apply quiet_sleep, P_sleep|]. intros _.
  induction maxAttempts as [|remaining IH]; [apply quiet_throw|].
  cbn [monitor_loop]. apply quiet_bind.
  - unfold monitor_iteration. apply quiet_try_catch.
    + apply quiet_bind; [apply getTransactionStatus_quiet; assumption|].
      intros status. apply quiet_bind.
      * destruct onStatusUpdate as [f|]; [now apply (Hcb f) | apply quiet_ret].
      * intros _. destruct (isTerminal (squidTransactionStatus status)).
        -- apply quiet_ret.
        -- apply quiet_bind; [apply quiet_sleep, P_sleep | intros _; apply quiet_ret].
    + intros e. apply quiet_bind; [apply quiet_sleep, P_sleep | intros _; apply quiet_ret].
  - intros [status|]; [apply quiet_ret | exact IH].
Qed.

End QuietService.

(** ** The polling loop *)

Section Monitor.

Variable W : Type.
Variable env : Env W.
Variables txHash requestId fromChainId toChainId : string.
Variable k : option (TransactionStatus -> W -> Outcome unit * W).
Variable pollInterval : Z.

Let onStatusUpdate := option_map (@observer W) k.

(** A call of [getTransactionStatus] is one poll: its events are HTTP events
    followed by the record of what it settled to. *)
Lemma getTransactionStatus_poll (s : Store W) :
  let run := getTransactionStatus env txHash requestId fromChainId toChainId s in
  polls_of (events_of run) = [outcome_of run]
  /\ obs_of (events_of run) = [ObsPoll (outcome_of run)]
  /\ hook (store_of run) = hook s.
Proof.
  unfold getTransactionStatus, recorded, retryWithBackoff_default, retryWithBackoff.
  match goal with
  | |- context [retry_loop ?fn ?m ?d ?r ?a ?l s] =>
      assert (Hq : quiet is_http (retry_loop fn m d r a l));
      [ apply quiet_retry_loop;
        [ apply getTransactionStatus_fn_quiet; intros; reflexivity
        | intros; reflexivity ]
      | destruct (Hq s) as [Hev Hh];
        destruct (retry_loop fn m d r a l s) as [[r0 s1] ev1] ]
  end.
  cbn [events_of store_of outcome_of fst snd] in *.
  destruct (http_silent Hev) as (Hp & _ & Ho & _).
  autorewrite with events. rewrite Hp, Ho. repeat split. exact Hh.
Qed.

(** One iteration polls once, calls the callback when the poll gave a status,
    and returns only a terminal status. *)
Lemma monitor_iteration_spec (s : Store W) :
  let run := monitor_iteration env txHash requestId fromChainId toChainId
                               onStatusUpdate pollInterval s in
  exists r,
    polls_of (events_of run) = [r]
    /\ obs_of (events_of run) = expected_obs (is_some k) r
    /\ (outcome_of run = Resolved None
        \/ exists st, outcome_of run = Resolved (Some st)
                      /\ r = Resolved st
                      /\ isTerminal (squidTransactionStatus st) = true).
Proof.
  unfold monitor_iteration, try_catch, bind.
  destruct (getTransactionStatus_poll s) as (Hp & Ho & _). revert Hp Ho.
  destruct (getTransactionStatus env txHash requestId fromChainId toChainId s)
    as [[[st|e] s1] ev1]; cbn [events_of outcome_of fst snd]; intros Hp Ho.
  - exists (Resolved st). subst onStatusUpdate.
    destruct k as [k0|]; cbn [option_map is_some expected_obs].
    + unfold observer. rewrite await_run.
      destruct (k0 st (world s1)) as [[u|e] w]; cbn [fst snd].
      * destruct (isTerminal (squidTransactionStatus st)) eqn:Ht;
          cbn; autorewrite with events; rewrite Hp, Ho; cbn;
          (split; [reflexivity | split; [reflexivity|]]).
        -- right. exists st. repeat split. exact Ht.
        -- now left.
      * cbn. autorewrite with events. rewrite Hp, Ho. cbn.
        split; [reflexivity | split; [reflexivity | now left]].
    + destruct (isTerminal (squidTransactionStatus st)) eqn:Ht;
        cbn; autorewrite with events; rewrite Hp, Ho; cbn;
        (split; [reflexivity | split; [reflexivity|]]).
      * right. exists st. repeat split. exact Ht.
      * now left.
  - exists (Rejected e). cbn. autorewrite with events. rewrite Hp, Ho. cbn.
    split; [reflexivity | split; [reflexivity | now left]].
Qed.

(** The loop: at most [remaining] polls; every poll and callback call in
    order; it ends with a terminal status, the last poll, or with the
    timeout after exactly [remaining] polls. *)
Lemma monitor_loop_spec (remaining : nat) :
  forall s : Store W,
    let run := monitor_loop env txHash requestId fromChainId toChainId
                            onStatusUpdate pollInterval remaining s in
    obs_of (events_of run) = flat_map (expected_obs (is_some k)) (polls_of (events_of run))
    /\ ((exists st pre, outcome_of run = Resolved st
                        /\ isTerminal (squidTransactionStatus st) = true
                        /\ polls_of (events_of run) = pre ++ [Resolved st]
                        /\ length pre < remaining)
        \/ (outcome_of run = Rejected MonitorTimeoutError
            /\ length (polls_of (events_of run)) = remaining)).
Proof.
  induction remaining as [|remaining IH]; intros s.
  - cbn. split; [reflexivity | right; split; reflexivity].
  - cbn [monitor_loop]. unfold bind.
    destruct (monitor_iteration_spec s) as (r & Hp & Ho & Hres). revert Hp Ho Hres.
    destruct (monitor_iteration env txHash requestId fromChainId toChainId
                                onStatusUpdate pollInterval s)
      as [[step s1] ev1]; cbn [events_of outcome_of fst snd]; intros Hp Ho Hres.
    destruct Hres as [->|(st & -> & -> & Ht)].
    + specialize (IH s1). revert IH.
      destruct (monitor_loop env txHash requestId fromChainId toChainId
                             onStatusUpdate pollInterval remaining s1)
        as [[r2 s2] ev2]; cbn [events_of outcome_of fst snd]; intros [IHo IHr].
      autorewrite with events. rewrite Hp, Ho, IHo. cbn [flat_map app].
      split; [reflexivity|].
      destruct IHr as [(st & pre & H1 & H2 & H3 & H4)|[H1 H2]].
      * left. exists st, (r :: pre). rewrite H3. repeat split; try assumption.
        simpl. lia.
      * right. split; [exact H1 | simpl; lia].
    + cbn. autorewrite with events. rewrite Hp, Ho. cbn.
      split; [reflexivity|]. left. exists st, []. repeat split; try assumption.
      simpl. lia.
Qed.

(** [monitorTransaction] is the loop with [maxAttempts] iterations after the
    first wait. *)
Lemma monitorTransaction_spec (s : Store W) :
  let run := monitorTransaction env txHash requestId fromChainId toChainId
                                onStatusUpdate pollInterval s in
  obs_of (events_of run) = flat_map (expected_obs (is_some k)) (polls_of (events_of run))
  /\ ((exists st pre, outcome_of run = Resolved st
                      /\ isTerminal (squidTransactionStatus st) = true
                      /\ polls_of (events_of run) = pre ++ [Resolved st]
                      /\ length pre < maxAttempts)
      \/ (outcome_of run = Rejected MonitorTimeoutError
          /\ length (polls_of (events_of run)) = maxAttempts)).
Proof.
  unfold monitorTransaction, bind, sleep.
  generalize (monitor_loop_spec maxAttempts s).
  destruct (monitor_loop env txHash requestId fromChainId toChainId
                         onStatusUpdate pollInterval maxAttempts s)
    as [[r1 s1] ev1]; cbn [events_of outcome_of fst snd].
  autorewrite with events. cbn [obs_of polls_of flat_map app]. exact (fun H => H).
Qed.

End Monitor.

Lemma updates_of_obs (evs : list Event) :
  updates_of evs = flat_map obs_update (obs_of evs).
Proof.
  unfold updates_of, obs_of.
  induction evs as [|e evs IH]; [reflexivity|].
  destruct e; simpl; rewrite <- ?IH; reflexivity.
Qed.

Lemma updates_of_expected (b : bool) (l : list (Outcome TransactionStatus)) :
  flat_map obs_update (flat_map (expected_obs b) l) = if b then resolved_of l else [].
Proof.
  induction l as [|r l IH]; [now destruct b|].
  cbn [flat_map]. rewrite flat_map_app, IH.
  destruct r as [st|e], b; reflexivity.
Qed.

Section MonitorReturn.

Variable W : Type.
Variable env : Env W.
Variables txHash requestId fromChainId toChainId : string.
Variable k : option (TransactionStatus -> W -> Outcome unit * W).
Variable pollInterval : Z.




End MonitorReturn.



(** C5 -- In every run of [monitorTransaction] in which no poll gives a
    terminal status (polls may also throw), the function throws the timeout
    error -- it does not return a status, [failed] or other -- and it has
    polled exactly [maxAttempts] = 60 times. *)
Theorem monitorTransaction_timeout (W : Type) (env : Env W)
        (txHash requestId fromChainId toChainId : string)
        (k : option (TransactionStatus -> W -> Outcome unit * W))
        (pollInterval : Z) (s : Store W) :
  let run := monitorTransaction env txHash requestId fromChainId toChainId
                                (option_map (@observer W) k) pollInterval s in
  (forall st, In (Resolved st) (polls_of (events_of run)) ->
              isTerminal (squidTransactionStatus st) = false) ->
  outcome_of run = Rejected MonitorTimeoutError
  /\ length (polls_of (events_of run)) = 60
  /\ (forall st, outcome_of run <> Resolved st).
Proof.
  intros run Hnt.
  destruct (monitorTransaction_spec env txHash requestId fromChainId toChainId
                                    k pollInterval s) as [_ Hr].
  fold run in Hr.
  destruct Hr as [(st & pre & _ & Ht & Hp & _)|[H1 H2]].
  - rewrite (Hnt st) in Ht; [discriminate Ht|].
    rewrite Hp. apply in_or_app. right. now left.
  - rewrite H1. repeat split; [exact H2 | discriminate].
Qed.

Lemma monitorTransaction_timeout_witness :
  let run := monitorTransaction Script.env "0xb22" "q-7f3a" CHAIN_IDS_BASE CHAIN_IDS_POLYGON
               (option_map (@observer Script.World) None) 5000
               (Script.store initialState Script.stuckWorld) in
  outcome_of run = Rejected MonitorTimeoutError
  /\ length (polls_of (events_of run)) = 60.
Proof.
  intros run.
  assert (Hp : polls_of (events_of run) = repeat (Resolved Script.pending) 60)
    by (vm_compute; reflexivity).
  destruct (monitorTransaction_timeout Script.env "0xb22" "q-7f3a"
              CHAIN_IDS_BASE CHAIN_IDS_POLYGON None 5000
              (Script.store initialState Script.stuckWorld)) as (H1 & H2 & _).
  - fold run. rewrite Hp. intros st Hin.
    apply repeat_spec in Hin. injection Hin as ->. reflexivity.
  - split; [exact H1 | exact H2].
Defined.

(** Each poll makes at most five requests to the status endpoint: the
    attempts of [retryWithBackoff]. *)
Lemma retry_loop_status_fetches_le (W T : Type) (fn : M W T) (maxRetries : nat)
      (initialDelay : Z) :
  (forall s, length (status_fetches_of (events_of (fn s))) <= 1) ->
  forall remaining attempt lastError s,
    length (status_fetches_of
              (events_of (retry_loop fn maxRetries initialDelay remaining attempt lastError s)))
    <= remaining.
Proof.
  intros Hfn. induction remaining as [|remaining IH]; intros attempt lastError s.
  - cbn. lia.
  - cbn [retry_loop]. unfold try_catch. specialize (Hfn s). revert Hfn.
    destruct (fn s) as [[[a|e] s1] ev1]; cbn [events_of snd]; intros Hfn; [lia|].
    destruct (negb (isRetryable e) || Nat.eqb attempt (maxRetries - 1)).
    + unfold throw. cbn [events_of snd]. rewrite app_nil_r. lia.
    + unfold bind, sleep. specialize (IH (S attempt) e s1). revert IH.
      destruct (retry_loop fn maxRetries initialDelay remaining (S attempt) e s1)
        as [[r2 s2] ev2]; cbn [events_of snd]; intros IH.
      autorewrite with events. rewrite !length_app.
      change (length (status_fetches_of [EvSleep (initialDelay * 2 ^ Z.of_nat attempt)]))
        with 0. lia.
Qed.

Lemma getTransactionStatus_fetches_le (W : Type) (env : Env W)
      (txHash requestId fromChainId toChainId : string) (s : Store W) :
  length (status_fetches_of
            (events_of (getTransactionStatus env txHash requestId fromChainId toChainId s)))
  <= 5.
Proof.
  unfold getTransactionStatus, recorded, retryWithBackoff_default, retryWithBackoff.
  match goal with
  | |- context [retry_loop ?fn 5 ?d 5 0 ?l s] =>
      pose proof (@retry_loop_status_fetches_le W _ fn 5 d) as H
  end.
  match type of H with
  | ?A -> _ => assert (Hfn : A)
  end.
  { intros s0. unfold getTransactionStatus_fn, bind. rewrite await_run.
    match goal with
    | |- context [env_fetchStatus env ?q (world s0)] =>
        destruct (env_fetchStatus env q (world s0)) as [[res|e] w]
    end; cbn [fst snd]; [|cbn; lia].
    destruct (res_status res =? 404)%Z; [cbn; lia|].
    destruct (negb (res_ok res)); cbn; lia. }
  specialize (H Hfn 5 0 ThrownUndefined s). revert H.
  match goal with
  | |- context [retry_loop ?fn 5 ?d 5 0 ?l s] =>
      destruct (retry_loop fn 5 d 5 0 l s) as [[r1 s1] ev1]
  end.
  cbn [events_of snd]. intros H. autorewrite with events. rewrite length_app. cbn. lia.
Qed.

Lemma monitor_loop_fetches_le (W : Type) (env : Env W)
      (txHash requestId fromChainId toChainId : string)
      (k : option (TransactionStatus -> W -> Outcome unit * W)) (pollInterval : Z)
      (remaining : nat) :
  forall s,
    length (status_fetches_of
              (events_of (monitor_loop env txHash requestId fromChainId toChainId
                                       (option_map (@observer W) k) pollInterval
                                       remaining s)))
    <= 5 * remaining.
Proof.
  induction remaining as [|remaining IH]; intros s.
  - cbn. lia.
  - cbn [monitor_loop]. unfold bind at 1.
    assert (Hit : length (status_fetches_of
                            (events_of (monitor_iteration env txHash requestId fromChainId
                                          toChainId (option_map (@observer W) k)
                                          pollInterval s))) <= 5).
    { unfold monitor_iteration, try_catch, bind.
      pose proof (getTransactionStatus_fetches_le env txHash requestId fromChainId
                    toChainId s) as Hg. revert Hg.
      destruct (getTransactionStatus env txHash requestId fromChainId toChainId s)
        as [[[st|e] s1] ev1]; cbn [events_of snd]; intros Hg.
      - destruct k as [k0|]; cbn [option_map].
        + unfold observer. rewrite await_run.
          destruct (k0 st (world s1)) as [[u|e] w]; cbn [fst snd].
          * destruct (isTerminal (squidTransactionStatus st)); cbn;
              autorewrite with events; rewrite ?length_app; cbn; lia.
          * cbn. autorewrite with events. rewrite ?length_app. cbn. lia.
        + destruct (isTerminal (squidTransactionStatus st)); cbn;
            autorewrite with events; rewrite ?length_app; cbn; lia.
      - cbn. autorewrite with events. rewrite ?length_app. cbn. lia. }
    revert Hit.
    destruct (monitor_iteration env txHash requestId fromChainId toChainId
                                (option_map (@observer W) k) pollInterval s)
      as [[[[st|]|e] s1] ev1]; cbn [events_of snd]; intros Hit.
    + unfold ret. cbn [events_of snd]. rewrite app_nil_r. lia.
    + specialize (IH s1). revert IH.
      destruct (monitor_loop env txHash requestId fromChainId toChainId
                             (option_map (@observer W) k) pollInterval remaining s1)
        as [[r2 s2] ev2]; cbn [events_of snd]; intros IH.
      autorewrite with events. rewrite length_app. lia.
    + lia.
Qed.

(** C10 -- Every run of [monitorTransaction] polls at most [maxAttempts] = 60
    times and ends either by returning a terminal status or by throwing the
    timeout error, the latter after exactly 60 polls whatever they settled
    to: a poll that throws counts like one that gives a status that is not
    terminal.  In particular, if every poll throws, the run polls 60 times
    and throws the timeout error.  (A poll is a call of
    [getTransactionStatus]; with the retries inside it a run makes at most
    300 requests to the status endpoint.) *)
Theorem monitorTransaction_bounded (W : Type) (env : Env W)
        (txHash requestId fromChainId toChainId : string)
        (k : option (TransactionStatus -> W -> Outcome unit * W))
        (pollInterval : Z) (s : Store W) :
  let run := monitorTransaction env txHash requestId fromChainId toChainId
                                (option_map (@observer W) k) pollInterval s in
  length (polls_of (events_of run)) <= 60
  /\ ((exists st, outcome_of run = Resolved st
                  /\ isTerminal (squidTransactionStatus st) = true)
      \/ (outcome_of run = Rejected MonitorTimeoutError
          /\ length (polls_of (events_of run)) = 60))
  /\ ((forall r, In r (polls_of (events_of run)) -> exists e, r = Rejected e) ->
      outcome_of run = Rejected MonitorTimeoutError
      /\ length (polls_of (events_of run)) = 60)
  /\ length (status_fetches_of (events_of run)) <= 300.
Proof.
  intros run.
  destruct (monitorTransaction_spec env txHash requestId fromChainId toChainId
                                    k pollInterval s) as [_ Hr].
  fold run in Hr. unfold maxAttempts in Hr.
  split; [|split; [|split]]; cycle 3.
  { subst run. unfold monitorTransaction, bind, sleep.
    pose proof (monitor_loop_fetches_le env txHash requestId fromChainId toChainId
                  k pollInterval maxAttempts s) as Hf. revert Hf.
    destruct (monitor_loop env txHash requestId fromChainId toChainId
                           (option_map (@observer W) k) pollInterval maxAttempts s)
      as [[r1 s1] ev1]; cbn [events_of snd].
    unfold maxAttempts. autorewrite with events.
    change (status_fetches_of [EvSleep 3000]) with (@nil StatusQuery).
    cbn [app]. lia. }
  - destruct Hr as [(st & pre & _ & _ & Hp & Hl)|[_ H2]].
    + rewrite Hp, length_app. simpl. lia.
    + lia.
  - destruct Hr as [(st & pre & H1 & Ht & _ & _)|[H1 H2]].
    + left. exists st. split; assumption.
    + right. split; assumption.
  - intros Hall. destruct Hr as [(st & pre & _ & _ & Hp & _)|[H1 H2]].
    + destruct (Hall (Resolved st)) as [e He]; [|discriminate He].
      rewrite Hp. apply in_or_app. right. now left.
    + split; assumption.
Qed.

Lemma monitorTransaction_bounded_witness :
  let run := monitorTransaction Script.env "0xb22" "q-7f3a" CHAIN_IDS_BASE CHAIN_IDS_POLYGON
               (option_map (@observer Script.World) (Some Script.listener)) 5000
               (Script.store initialState Script.deadWorld) in
  outcome_of run = Rejected MonitorTimeoutError
  /\ length (polls_of (events_of run)) = 60.
Proof.
  intros run.
  assert (Hp : polls_of (events_of run) = repeat (Rejected Script.networkError) 60)
    by (vm_compute; reflexivity).
  destruct (monitorTransaction_bounded Script.env "0xb22" "q-7f3a"
              CHAIN_IDS_BASE CHAIN_IDS_POLYGON (Some Script.listener) 5000
              (Script.store initialState Script.deadWorld)) as (_ & _ & H & _).
  apply H. fold run. rewrite Hp. intros r Hin.
  apply repeat_spec in Hin. exists Script.networkError. exact Hin.
Defined.

(** ** executeBridge *)

(** C7 (as the code has it) -- [executeBridge] makes exactly one call,
    [signer.sendTransaction], and what that call settles to is its result.
    The transaction sent has [to], [data], [value] and [gasLimit] of the
    route's [transactionRequest] as they are; [maxFeePerGas] and
    [maxPriorityFeePerGas] as they are when present and not empty, and not at
    all otherwise; and never a [gasPrice]. *)
Theorem executeBridge_sends_request (W : Type) (env : Env W) (route : Route)
        (signer : Signer) (s : Store W) :
  let run := executeBridge env route signer s in
  let txRequest := transactionRequest route in
  exists tx,
    events_of run = [EvSendTransaction signer tx (outcome_of run)]
    /\ sends_of (events_of run) = [tx]
    /\ sent_to tx = target txRequest
    /\ sent_data tx = data txRequest
    /\ sent_value tx = value txRequest
    /\ sent_gasLimit tx = gasLimit txRequest
    /\ sent_maxFeePerGas tx = truthy (maxFeePerGas txRequest)
    /\ sent_maxPriorityFeePerGas tx = truthy (maxPriorityFeePerGas txRequest)
    /\ sent_gasPrice tx = None.
Proof.
  cbv zeta. exists (sent_of (transactionRequest route)).
  unfold executeBridge, bind. rewrite await_run.
  destruct (env_sendTransaction env signer (sent_of (transactionRequest route)) (world s))
    as [[tx|e] w]; cbn; repeat split.
Qed.

(** C7, counterexample -- the sample route carries a [gasPrice]; the
    transaction that [executeBridge] sends for it has none. *)
Lemma executeBridge_drops_gasPrice :
  let run := executeBridge Script.env Script.sampleRoute {| signerAddress := Script.wallet |}
                           (Script.store initialState Script.happyWorld) in
  gasPrice (transactionRequest Script.sampleRoute) = Some "1000000000"
  /\ exists tx, sends_of (events_of run) = [tx] /\ sent_gasPrice tx = None.
Proof.
  cbv zeta. split; [reflexivity|].
  eexists. split; reflexivity.
Qed.

(** ** getRoute *)

Section RetryResolved.

Variables (W T : Type) (fn : M W T).
Variables (maxRetries : nat) (initialDelay : Z).

(** A value returned by the loop is the value of its last call. *)
Lemma retry_loop_resolved (remaining : nat) :
  forall attempt lastError (s : Store W) v,
    outcome_of (retry_loop fn maxRetries initialDelay remaining attempt lastError s)
    = Resolved v ->
    exists s0 pre,
      outcome_of (fn s0) = Resolved v
      /\ events_of (retry_loop fn maxRetries initialDelay remaining attempt lastError s)
         = pre ++ events_of (fn s0)
      /\ store_of (retry_loop fn maxRetries initialDelay remaining attempt lastError s)
         = store_of (fn s0).
Proof.
  induction remaining as [|remaining IH]; intros attempt lastError s v.
  - cbn. discriminate.
  - cbn [retry_loop]. unfold try_catch.
    destruct (fn s) as [[[a|e] s1] ev1] eqn:Hfn.
    + cbn. intros [= ->]. exists s, []. rewrite Hfn. repeat split.
    + destruct (negb (isRetryable e) || Nat.eqb attempt (maxRetries - 1)).
      * cbn. discriminate.
      * unfold bind, sleep.
        specialize (IH (S attempt) e s1 v). revert IH.
        destruct (retry_loop fn maxRetries initialDelay remaining (S attempt) e s1)
          as [[r2 s2] ev2]; cbn [outcome_of events_of store_of fst snd].
        intros IH Hr. destruct (IH Hr) as (s0 & pre & H1 & H2 & H3).
        exists s0, (ev1 ++ EvSleep (initialDelay * 2 ^ Z.of_nat attempt) :: pre).
        repeat split; [exact H1 | | exact H3].
        rewrite H2, <- app_assoc. reflexivity.
Qed.

(** The first call decides when it gives a value or an error that is not
    retryable. *)
Lemma retry_loop_first (remaining attempt : nat) (lastError : Thrown) (s : Store W) :
  match outcome_of (fn s) with
  | Resolved _ => True
  | Rejected e => isRetryable e = false
  end ->
  outcome_of (retry_loop fn maxRetries initialDelay (S remaining) attempt lastError s)
  = outcome_of (fn s)
  /\ events_of (retry_loop fn maxRetries initialDelay (S remaining) attempt lastError s)
     = events_of (fn s).
Proof.
  cbn [retry_loop]. unfold try_catch.
  destruct (fn s) as [[[a|e] s1] ev1]; cbn [outcome_of events_of fst snd].
  - intros _. split; reflexivity.
  - intros ->. cbn. rewrite app_nil_r. split; reflexivity.
Qed.

End RetryResolved.

Section GetRoute.

Variable W : Type.
Variable env : Env W.

Lemma getRoute_fn_run (requestParams : RouteParams) (s : Store W) :
  let run := getRoute_fn env requestParams s in
  let res := fst (env_fetchRoute env requestParams (world s)) in
  events_of run = [EvFetchRoute requestParams res]
  /\ match res with
     | Rejected e => outcome_of run = Rejected e
     | Resolved r =>
         if res_ok r
         then outcome_of run = res_json r
         else outcome_of run
              = Rejected (Error (or_else (errorData_error body_error r)
                                         (String.append "API Error: "
                                                        (decimal (res_status r)))))
     end.
Proof.
  cbv zeta. unfold getRoute_fn, bind. rewrite await_run.
  destruct (env_fetchRoute env requestParams (world s)) as [[r|e] w]; cbn [fst snd].
  - destruct (res_ok r); cbn; split; reflexivity.
  - cbn. split; reflexivity.
Qed.

End GetRoute.

Lemma isRetryable_Error (msg : string) : isRetryable (Error msg) = false.
Proof. reflexivity. Qed.

(** A route returned by [getRoute] is the one of the last response, a
    success, to the request. *)
Lemma getRoute_resolved (W : Type) (env : Env W) (params : RouteParams) (s : Store W)
      (rr : RouteResponse) :
  outcome_of (getRoute env params s) = Resolved rr ->
  exists pre res body,
    route_fetches_of (events_of (getRoute env params s))
    = pre ++ [(requestParams_of params, Resolved res)]
    /\ res_ok res = true
    /\ res_json res = Resolved body
    /\ body_route body = Some (route rr)
    /\ requestId rr = or_else (quoteId (route rr)) "".
Proof.
  unfold getRoute, retryWithBackoff_default, retryWithBackoff, bind.
  set (fn := getRoute_fn env (requestParams_of params)).
  pose proof (@retry_loop_resolved W RouteBody fn 5 1000%Z 5 0 ThrownUndefined s) as Hres.
  destruct (retry_loop fn 5 1000 5 0 ThrownUndefined s) as [[[body|e] s1] ev1];
    cbn [outcome_of events_of store_of fst snd] in *; [|discriminate].
  destruct (Hres body eq_refl) as (s0 & pre & Ho & Hev & _).
  destruct (getRoute_fn_run env (requestParams_of params) s0) as [Hev0 Ho0].
  fold fn in Hev0, Ho0.
  destruct (body_route body) as [r|] eqn:Hbr; cbn; [|discriminate].
  intros [= <-]. cbn [route requestId].
  destruct (fst (env_fetchRoute env (requestParams_of params) (world s0)))
    as [res|e]; [|congruence].
  destruct (res_ok res) eqn:Hok; [|congruence].
  exists (route_fetches_of pre), res, body.
  rewrite Hev, Hev0, app_nil_r. autorewrite with events. cbn.
  split; [reflexivity|]. split; [exact Hok|].
  split; [congruence|]. split; [exact Hbr | reflexivity].
Qed.

(** C6 (as the code has it) -- [getRoute] either returns or throws.  What it
    returns is the [route] of a success response of the upstream service,
    the last one fetched for the request, as it was received -- whatever its
    [transactionRequest.target], which is not looked at -- with [requestId]
    its [quoteId] or the empty string.  When the upstream service answers
    the request with a status that is not a success, [getRoute] throws at
    once, with no further request; when it answers with a success whose body
    has no [route], [getRoute] throws 'Invalid API response: missing route';
    when the body has a [route], that route is returned. *)
Theorem getRoute_contract (W : Type) (env : Env W) (params : RouteParams) (s : Store W) :
  let run := getRoute env params s in
  (forall rr,
      outcome_of run = Resolved rr ->
      exists pre res body,
        route_fetches_of (events_of run) = pre ++ [(requestParams_of params, Resolved res)]
        /\ res_ok res = true
        /\ res_json res = Resolved body
        /\ body_route body = Some (route rr)
        /\ requestId rr = or_else (quoteId (route rr)) "")
  /\ (forall res w1,
        env_fetchRoute env (requestParams_of params) (world s) = (Resolved res, w1) ->
        (res_ok res = false ->
         outcome_of run
         = Rejected (Error (or_else (errorData_error body_error res)
                                    (String.append "API Error: " (decimal (res_status res)))))
         /\ route_fetches_of (events_of run) = [(requestParams_of params, Resolved res)])
        /\ (forall body,
              res_ok res = true ->
              res_json res = Resolved body ->
              match body_route body with
              | None => outcome_of run
                        = Rejected (Error "Invalid API response: missing route")
              | Some r => outcome_of run
                          = Resolved {| route := r; requestId := or_else (quoteId r) "" |}
              end)).
Proof.
  cbv zeta. split; [intros rr; apply getRoute_resolved|].
  unfold getRoute, retryWithBackoff_default, retryWithBackoff, bind.
  set (fn := getRoute_fn env (requestParams_of params)).
  intros res w1 Hfetch.
  destruct (getRoute_fn_run env (requestParams_of params) s) as [Hev0 Ho0].
  fold fn in Hev0, Ho0. rewrite Hfetch in Hev0, Ho0. cbn [fst] in Hev0, Ho0.
  split.
  - intros Hok. rewrite Hok in Ho0.
    destruct (@retry_loop_first W RouteBody fn 5 1000%Z 4 0 ThrownUndefined s) as [H1 H2].
    { rewrite Ho0. apply isRetryable_Error. }
    revert H1 H2.
    destruct (retry_loop fn 5 1000 5 0 ThrownUndefined s) as [[r1 s1] ev1];
      cbn [outcome_of events_of fst snd]; intros -> ->.
    rewrite Ho0, Hev0. cbn. split; reflexivity.
  - intros body Hok Hjson. rewrite Hok, Hjson in Ho0.
    destruct (@retry_loop_first W RouteBody fn 5 1000%Z 4 0 ThrownUndefined s) as [H1 _].
    { now rewrite Ho0. }
    revert H1.
    destruct (retry_loop fn 5 1000 5 0 ThrownUndefined s) as [[r1 s1] ev1];
      cbn [outcome_of events_of fst snd]; intros ->.
    rewrite Ho0. destruct (body_route body); reflexivity.
Qed.

Lemma getRoute_contract_witness :
  let run := getRoute Script.env (bridge_request Script.wallet 10000000)
                      (Script.store initialState Script.happyWorld) in
  outcome_of run = Resolved {| route := Script.sampleRoute; requestId := "q-7f3a" |}.
Proof.
  intros run.
  destruct (getRoute_contract Script.env (bridge_request Script.wallet 10000000)
              (Script.store initialState Script.happyWorld)) as [_ H].
  destruct (H _ _ eq_refl) as [_ H2].
  exact (H2 _ eq_refl eq_refl).
Defined.

(** C6, counterexample -- the upstream service answers with a route whose
    [transactionRequest.target] is empty; [getRoute] returns it. *)
Lemma getRoute_returns_blank_target :
  let run := getRoute Script.env (bridge_request Script.wallet 10000000)
                      (Script.store initialState Script.blankWorld) in
  exists rr, outcome_of run = Resolved rr
             /\ target (transactionRequest (route rr)) = "".
Proof.
  cbv zeta. eexists. split; reflexivity.
Qed.

(** ** The allowance step of bridge *)

Section Allowance.

Variable W : Type.
Variable env : Env W.
Variables (walletAddress : string) (route : Route) (signer : Signer).

Let spender := target (transactionRequest route).

(** The step in full, by what the world answers. *)
Lemma bridge_ensureAllowance_run (s : Store W) :
  let run := bridge_ensureAllowance env walletAddress route signer s in
  let read := env_allowance env TOKENS_USDC_BASE walletAddress spender (world s) in
  match fst read, env_BigInt env (fromAmount (params route)) with
  | Rejected e, _ =>
      run = (Rejected e, {| world := snd read; hook := hook s |},
             [EvAllowance TOKENS_USDC_BASE walletAddress spender (Rejected e)])
  | Resolved a, Rejected e =>
      run = (Rejected e, {| world := snd read; hook := hook s |},
             [EvAllowance TOKENS_USDC_BASE walletAddress spender (Resolved a)])
  | Resolved a, Resolved required =>
      if (a <? required)%Z
      then
        let sent := env_approve env signer TOKENS_USDC_BASE spender required (snd read) in
        match fst sent with
        | Rejected e =>
            run = (Rejected e, {| world := snd sent; hook := hook s |},
                   [EvAllowance TOKENS_USDC_BASE walletAddress spender (Resolved a);
                    EvApprove signer TOKENS_USDC_BASE spender required (Rejected e)])
        | Resolved tx =>
            let mined := env_wait env tx (snd sent) in
            run = (fst mined, {| world := snd mined; hook := hook s |},
                   [EvAllowance TOKENS_USDC_BASE walletAddress spender (Resolved a);
                    EvApprove signer TOKENS_USDC_BASE spender required (Resolved tx);
                    EvWait tx (fst mined)])
        end
      else
        run = (Resolved tt, {| world := snd read; hook := hook s |},
               [EvAllowance TOKENS_USDC_BASE walletAddress spender (Resolved a)])
  end.
Proof.
  cbv zeta. unfold bridge_ensureAllowance, checkAllowance, bind, settle. rewrite await_run.
  fold spender.
  destruct (env_allowance env TOKENS_USDC_BASE walletAddress spender (world s))
    as [[a|e] w1]; cbn [fst snd]; [|reflexivity].
  destruct (env_BigInt env (fromAmount (params route))) as [required|e]; [|reflexivity].
  destruct (a <? required)%Z; [|reflexivity].
  unfold approveToken, bind. rewrite await_run. cbn [world hook].
  destruct (env_approve env signer TOKENS_USDC_BASE spender required w1)
    as [[tx|e] w2]; cbn [fst snd]; [|reflexivity].
  rewrite await_run. cbn [world hook].
  destruct (env_wait env tx w2) as [[[]|e] w3]; reflexivity.
Qed.

Lemma bridge_ensureAllowance_approvals_le (s : Store W) :
  length (approvals_of (events_of (bridge_ensureAllowance env walletAddress route signer s)))
  <= 1.
Proof.
  pose proof (bridge_ensureAllowance_run s) as H. cbv zeta in H.
  destruct (fst (env_allowance env TOKENS_USDC_BASE walletAddress spender (world s)))
    as [a|e]; [|rewrite H; cbn; lia].
  destruct (env_BigInt env (fromAmount (params route))) as [required|e];
    [|rewrite H; cbn; lia].
  destruct (a <? required)%Z; [|rewrite H; cbn; lia].
  destruct (fst (env_approve env signer TOKENS_USDC_BASE spender required
                   (snd (env_allowance env TOKENS_USDC_BASE walletAddress spender (world s)))))
    as [tx|e]; rewrite H; cbn; lia.
Qed.

End Allowance.

(** C4 -- The allowance step of [bridge] (read the allowance, approve when it
    is too low), for the route's target as spender and the route's
    [fromAmount] as required amount: (1) when the allowance read is at least
    the required amount, the read is the only call made: no approval is sent
    and the step returns; (2) when it is below, exactly one approval is sent,
    for exactly the required amount; and (3) when the token behaves like an
    ERC-20 contract and the signer is the owner whose allowance is read, a
    run of the step that returns followed at once by a second run sends at
    most one approval in all. *)
Theorem bridge_ensureAllowance_policy (W : Type) (env : Env W) (walletAddress : string)
        (route : Route) (signer : Signer) (s : Store W) :
  let spender := target (transactionRequest route) in
  let run := bridge_ensureAllowance env walletAddress route signer s in
  (forall a w1 required,
      env_allowance env TOKENS_USDC_BASE walletAddress spender (world s) = (Resolved a, w1) ->
      env_BigInt env (fromAmount (params route)) = Resolved required ->
      ((required <= a)%Z ->
       run = (Resolved tt, {| world := w1; hook := hook s |},
              [EvAllowance TOKENS_USDC_BASE walletAddress spender (Resolved a)])
       /\ approvals_of (events_of run) = [])
      /\ ((a < required)%Z ->
          approvals_of (events_of run) = [(TOKENS_USDC_BASE, spender, required)]))
  /\ (approval_law env ->
      signerAddress signer = walletAddress ->
      outcome_of run = Resolved tt ->
      let run2 := bridge_ensureAllowance env walletAddress route signer (store_of run) in
      length (approvals_of (events_of run) ++ approvals_of (events_of run2)) <= 1).
Proof.
  cbv zeta.
  pose proof (bridge_ensureAllowance_run env walletAddress route signer s) as H.
  cbv zeta in H. split.
  - intros a w1 required Hread Hbig. rewrite Hread, Hbig in H. cbn [fst snd] in H.
    split.
    + intros Hle. destruct (Z.ltb_spec a required) as [Hlt|_]; [lia|].
      rewrite H. split; reflexivity.
    + intros Hlt. destruct (Z.ltb_spec a required) as [_|Hge]; [|lia].
      destruct (fst (env_approve env signer TOKENS_USDC_BASE
                       (target (transactionRequest route)) required w1));
        rewrite H; reflexivity.
  - intros Hlaw Hsigner Hret.
    pose proof (bridge_ensureAllowance_approvals_le env walletAddress route signer) as Hle.
    destruct (env_allowance env TOKENS_USDC_BASE walletAddress
                (target (transactionRequest route)) (world s)) as [[a|e] w1];
      cbn [fst snd] in H; [|rewrite H in Hret; discriminate Hret].
    destruct (env_BigInt env (fromAmount (params route))) as [required|e] eqn:Hbig;
      [|rewrite H in Hret; discriminate Hret].
    destruct (Z.ltb_spec a required) as [Hlt|Hge].
    + destruct (env_approve env signer TOKENS_USDC_BASE
                  (target (transactionRequest route)) required w1)
        as [[tx|e] w2] eqn:Happ;
        cbn [fst snd] in H; [|rewrite H in Hret; discriminate Hret].
      destruct (env_wait env tx w2) as [[[]|e] w3] eqn:Hwait;
        cbn [fst snd] in H; [|rewrite H in Hret; discriminate Hret].
      destruct (Hlaw _ _ _ _ _ _ _ _ Happ Hwait) as [w4 Hread2].
      rewrite Hsigner in Hread2.
      rewrite H. cbn [store_of events_of fst snd].
      pose proof (bridge_ensureAllowance_run env walletAddress route signer
                    {| world := w3; hook := hook s |}) as H2.
      cbv zeta in H2. cbn [world hook] in H2.
      rewrite Hread2, Hbig in H2. cbn [fst snd] in H2.
      rewrite Z.ltb_irrefl in H2. rewrite H2. cbn. lia.
    + rewrite H. cbn [store_of events_of fst snd approvals_of flat_map app].
      apply Hle.
Qed.

Lemma script_approval_law : approval_law Script.env.
Proof.
  intros sg token spender amount w tx w1 w2 Happ Hwait.
  cbn in Happ, Hwait. injection Happ as _ <-. injection Hwait as <-.
  eexists. cbn. unfold Script.allowance. cbn.
  rewrite !String.eqb_refl. reflexivity.
Qed.

Lemma bridge_ensureAllowance_policy_witness :
  let s := Script.store initialState Script.happyWorld in
  let sg := {| signerAddress := Script.wallet |} in
  let run := bridge_ensureAllowance Script.env Script.wallet Script.sampleRoute sg s in
  let run2 := bridge_ensureAllowance Script.env Script.wallet Script.sampleRoute sg
                                     (store_of run) in
  approvals_of (events_of run) = [(TOKENS_USDC_BASE, Script.squidRouter, 10000000%Z)]
  /\ approvals_of (events_of run2) = []
  /\ length (approvals_of (events_of run) ++ approvals_of (events_of run2)) <= 1.
Proof.
  intros s sg run run2.
  destruct (bridge_ensureAllowance_policy Script.env Script.wallet Script.sampleRoute sg s)
    as [H1 H3].
  destruct (H1 0%Z Script.happyWorld 10000000%Z eq_refl eq_refl) as [_ Hlow].
  destruct (bridge_ensureAllowance_policy Script.env Script.wallet Script.sampleRoute sg
              (store_of run)) as [H1' _].
  destruct (H1' 10000000%Z (world (store_of run)) 10000000%Z eq_refl eq_refl) as [Hhigh _].
  split; [exact (Hlow eq_refl)|].
  split; [apply Hhigh; discriminate|].
  exact (H3 script_approval_law eq_refl eq_refl).
Defined.

(** ** Rules for assertions on runs *)

Section Logic.

Variable W : Type.
Variable check : list Event -> Event -> Prop.

Lemma guarded_nil (seen : list Event) : guarded check seen [].
Proof. intros [|x pre] e post H; discriminate H. Qed.

Lemma guarded_one (seen : list Event) (e : Event) :
  check seen e -> guarded check seen [e].
Proof.
  intros H [|x pre] e' post Heq.
  - injection Heq as <- _. now rewrite app_nil_r.
  - injection Heq as _ Heq. destruct pre; discriminate Heq.
Qed.

Lemma guarded_cons (seen : list Event) (x : Event) (l : list Event) :
  check seen x -> guarded check (seen ++ [x]) l -> guarded check seen (x :: l).
Proof.
  intros Hx Hl [|y pre] e post Heq.
  - injection Heq as <- _. now rewrite app_nil_r.
  - injection Heq as <- Heq. specialize (Hl pre e post Heq).
    now rewrite <- app_assoc in Hl.
Qed.

Lemma guarded_tail (seen : list Event) (x : Event) (l : list Event) :
  guarded check seen (x :: l) -> guarded check (seen ++ [x]) l.
Proof.
  intros H pre e post Heq. rewrite <- app_assoc. cbn.
  apply (H (x :: pre) e post). now rewrite Heq.
Qed.

Lemma guarded_app (a : list Event) :
  forall seen b,
    guarded check seen a -> guarded check (seen ++ a) b -> guarded check seen (a ++ b).
Proof.
  induction a as [|x a IH]; intros seen b Ha Hb.
  - now rewrite app_nil_r in Hb.
  - cbn. apply guarded_cons.
    + specialize (Ha [] x a eq_refl). now rewrite app_nil_r in Ha.
    + apply IH; [now apply guarded_tail|].
      now rewrite <- app_assoc.
Qed.

Lemma guarded_Forall (X : Event -> Prop) (evs : list Event) :
  (forall seen e, X e -> check seen e) ->
  Forall X evs -> forall seen, guarded check seen evs.
Proof.
  intros HX Hall seen pre e post Heq. apply HX.
  rewrite Forall_forall in Hall. apply Hall. rewrite Heq.
  apply in_or_app. right. now left.
Qed.

(** *** Rules *)

Lemma triple_conseq (A : Type) (Pre Pre' : list Event -> Store W -> Prop)
      (Post Post' : Outcome A -> list Event -> Store W -> Prop) (c : M W A) :
  triple check Pre' c Post' ->
  (forall seen s, Pre seen s -> Pre' seen s) ->
  (forall r seen s, Post' r seen s -> Post r seen s) ->
  triple check Pre c Post.
Proof.
  intros Hc HPre HPost seen s HP. destruct (Hc seen s (HPre _ _ HP)) as [Hg Hq].
  split; [exact Hg | now apply HPost].
Qed.

Lemma triple_ret (A : Type) (a : A) (Pre : list Event -> Store W -> Prop)
      (Post : Outcome A -> list Event -> Store W -> Prop) :
  (forall seen s, Pre seen s -> Post (Resolved a) seen s) ->
  triple check Pre (ret a) Post.
Proof.
  intros H seen s HP. cbn. rewrite app_nil_r. split; [apply guarded_nil | now apply H].
Qed.

Lemma triple_throw (A : Type) (e : Thrown) (Pre : list Event -> Store W -> Prop)
      (Post : Outcome A -> list Event -> Store W -> Prop) :
  (forall seen s, Pre seen s -> Post (Rejected e) seen s) ->
  triple check Pre (throw e) Post.
Proof.
  intros H seen s HP. cbn. rewrite app_nil_r. split; [apply guarded_nil | now apply H].
Qed.

Lemma triple_settle (A : Type) (r : Outcome A) (Pre : list Event -> Store W -> Prop)
      (Post : Outcome A -> list Event -> Store W -> Prop) :
  (forall seen s, Pre seen s -> Post r seen s) ->
  triple check Pre (settle r) Post.
Proof.
  intros H seen s HP. cbn. rewrite app_nil_r. split; [apply guarded_nil | now apply H].
Qed.

Lemma triple_bind (A B : Type) (c : M W A) (k : A -> M W B)
      (Pre : list Event -> Store W -> Prop)
      (Mid : Outcome A -> list Event -> Store W -> Prop)
      (Post : Outcome B -> list Event -> Store W -> Prop) :
  triple check Pre c Mid ->
  (forall a, triple check (Mid (Resolved a)) (k a) Post) ->
  (forall e seen s, Mid (Rejected e) seen s -> Post (Rejected e) seen s) ->
  triple check Pre (bind c k) Post.
Proof.
  intros Hc Hk Hrej seen s HP. unfold bind.
  destruct (Hc seen s HP) as [Hg Hm]. revert Hg Hm.
  destruct (c s) as [[[a|e] s1] ev1]; cbn [events_of outcome_of store_of fst snd];
    intros Hg Hm.
  - destruct (Hk a _ _ Hm) as [Hg2 Hq]. revert Hg2 Hq.
    destruct (k a s1) as [[r s2] ev2]; cbn [events_of outcome_of store_of fst snd];
      intros Hg2 Hq.
    split; [now apply guarded_app | now rewrite app_assoc].
  - split; [exact Hg | now apply Hrej].
Qed.

Lemma triple_try_catch (A : Type) (c : M W A) (h : Thrown -> M W A)
      (Pre : list Event -> Store W -> Prop)
      (Mid Post : Outcome A -> list Event -> Store W -> Prop) :
  triple check Pre c Mid ->
  (forall e, triple check (Mid (Rejected e)) (h e) Post) ->
  (forall a seen s, Mid (Resolved a) seen s -> Post (Resolved a) seen s) ->
  triple check Pre (try_catch c h) Post.
Proof.
  intros Hc Hh Hres seen s HP. unfold try_catch.
  destruct (Hc seen s HP) as [Hg Hm]. revert Hg Hm.
  destruct (c s) as [[[a|e] s1] ev1]; cbn [events_of outcome_of store_of fst snd];
    intros Hg Hm.
  - split; [exact Hg | now apply Hres].
  - destruct (Hh e _ _ Hm) as [Hg2 Hq]. revert Hg2 Hq.
    destruct (h e s1) as [[r s2] ev2]; cbn [events_of outcome_of store_of fst snd];
      intros Hg2 Hq.
    split; [now apply guarded_app | now rewrite app_assoc].
Qed.

Lemma triple_await (A : Type) (ev : Outcome A -> Event) (oracle : W -> Outcome A * W)
      (Pre : list Event -> Store W -> Prop)
      (Post : Outcome A -> list Event -> Store W -> Prop) :
  (forall seen s r w,
      Pre seen s -> oracle (world s) = (r, w) ->
      check seen (ev r) /\ Post r (seen ++ [ev r]) {| world := w; hook := hook s |}) ->
  triple check Pre (await ev oracle) Post.
Proof.
  intros H seen s HP. rewrite await_run.
  destruct (oracle (world s)) as [r w] eqn:Ho. cbn.
  destruct (H seen s r w HP Ho) as [Hc Hq].
  split; [now apply guarded_one | exact Hq].
Qed.

Lemma triple_setState (f : BridgeState -> BridgeState)
      (Pre : list Event -> Store W -> Prop)
      (Post : Outcome unit -> list Event -> Store W -> Prop) :
  (forall seen s,
      Pre seen s ->
      let st := f (state (hook s)) in
      check seen (EvSetState st)
      /\ Post (Resolved tt) (seen ++ [EvSetState st])
              {| world := world s;
                 hook := {| state := st;
                            walletAddress := walletAddress (hook s);
                            balance := balance (hook s) |} |}) ->
  triple check Pre (setState f) Post.
Proof.
  intros H seen s HP. cbn. destruct (H seen s HP) as [Hc Hq].
  split; [now apply guarded_one | exact Hq].
Qed.

(** A fact about the past that more events do not undo is kept. *)
Lemma triple_frame (A : Type) (F : list Event -> Prop) (c : M W A)
      (Pre : list Event -> Store W -> Prop)
      (Post : Outcome A -> list Event -> Store W -> Prop) :
  (forall seen more, F seen -> F (seen ++ more)) ->
  triple check Pre c Post ->
  triple check (fun seen s => Pre seen s /\ F seen) c
         (fun o seen s => Post o seen s /\ F seen).
Proof.
  intros HF Hc seen s [HP HFs]. destruct (Hc seen s HP) as [Hg Hq].
  split; [exact Hg | split; [exact Hq | now apply HF]].
Qed.

(** A quiet computation whose kind of events always meets the condition. *)
Lemma triple_quiet (A : Type) (X : Event -> Prop) (c : M W A)
      (Pre : list Event -> Store W -> Prop)
      (Post : Outcome A -> list Event -> Store W -> Prop) :
  quiet X c ->
  (forall seen e, X e -> check seen e) ->
  (forall seen s r evs s',
      Pre seen s -> Forall X evs -> hook s' = hook s ->
      c s = (r, s', evs) -> Post r (seen ++ evs) s') ->
  triple check Pre c Post.
Proof.
  intros Hq HX H seen s HP. destruct (Hq s) as [Hev Hh]. split.
  - now apply (guarded_Forall HX).
  - apply (H seen s); try assumption. now destruct (c s) as [[r s1] ev1].
Qed.

End Logic.

(** ** The order of the steps of bridge *)

Lemma allowance_verified_mono (wallet : string) (r : Route) (required : Z)
      (seen more : list Event) :
  allowance_verified wallet r required seen ->
  allowance_verified wallet r required (seen ++ more).
Proof.
  intros (a & Ha & Hv). exists a. split; [apply in_or_app; now left|].
  destruct Hv as [Hle|(sg & tx & H1 & H2)]; [now left|right].
  exists sg, tx. split; apply in_or_app; now left.
Qed.

Lemma is_http_plain (e : Event) : is_http e -> plain_event e.
Proof. destruct e; cbv; intros H; try discriminate H; exact I. Qed.

Lemma is_monitor_plain (e : Event) : is_monitor e -> plain_event e.
Proof. destruct e; cbv; intros H; try discriminate H; exact I. Qed.

Section BridgeOrder.

Variable W : Type.
Variable env : Env W.
Variable wallet : string.

Let check := bridge_order env wallet.

Lemma plain_event_ok (seen : list Event) (e : Event) : plain_event e -> check seen e.
Proof. destruct e; cbn; intros H; try exact I; contradiction. Qed.

(** A state whose status is neither [bridging] nor [monitoring] is always
    allowed. *)
Lemma other_status_ok (seen : list Event) (st : BridgeState) :
  status st <> status_bridging -> status st <> status_monitoring ->
  check seen (EvSetState st).
Proof. intros H1 H2. split; intros H; contradiction. Qed.

Let verified (r : Route) : list Event -> Store W -> Prop :=
  fun seen s =>
    route_ (state (hook s)) = Some r
    /\ exists required,
         env_BigInt env (fromAmount (params r)) = Resolved required
         /\ allowance_verified wallet r required seen.

Lemma bridge_ensureAllowance_triple (r : Route) (signer : Signer) :
  triple check
         (fun _ s => route_ (state (hook s)) = Some r)
         (bridge_ensureAllowance env wallet r signer)
         (fun o seen s => match o with Resolved _ => verified r seen s | Rejected _ => True end).
Proof.
  intros seen s Hr.
  pose proof (bridge_ensureAllowance_run env wallet r signer s) as H. cbv zeta in H.
  assert (Hg : forall evs, Forall plain_event evs -> guarded check seen evs).
  { intros evs Hevs. apply guarded_Forall with (X := plain_event); [|exact Hevs].
    intros; now apply plain_event_ok. }
  destruct (env_allowance env TOKENS_USDC_BASE wallet (target (transactionRequest r)) (world s))
    as [[a|e] w1]; cbn [fst snd] in H.
  2:{ rewrite H. split; [apply Hg; repeat constructor | exact I]. }
  destruct (env_BigInt env (fromAmount (params r))) as [required|e] eqn:Hbig.
  2:{ rewrite H. split; [apply Hg; repeat constructor | exact I]. }
  destruct (Z.ltb_spec a required) as [Hlt|Hge].
  - destruct (env_approve env signer TOKENS_USDC_BASE (target (transactionRequest r))
                required w1) as [[tx|e] w2]; cbn [fst snd] in H.
    2:{ rewrite H. split; [apply Hg; repeat constructor | exact I]. }
    destruct (env_wait env tx w2) as [[[]|e] w3]; cbn [fst snd] in H; rewrite H;
      (split; [apply Hg; repeat constructor|]); [|exact I].
    cbn [outcome_of store_of events_of fst snd hook]. split; [exact Hr|].
    exists required. split; [exact Hbig|]. exists a.
    split; [apply in_or_app; right; now left|]. right. exists signer, tx.
    split; apply in_or_app; right; cbn; auto.
  - rewrite H. split; [apply Hg; repeat constructor|].
    cbn [outcome_of store_of events_of fst snd hook]. split; [exact Hr|].
    exists required. split; [exact Hbig|]. exists a.
    split; [apply in_or_app; right; now left | now left].
Qed.

Lemma bridge_execute_triple (r : Route) (requestId : string) (signer : Signer) :
  triple check (verified r) (bridge_execute env r requestId signer) (fun _ _ _ => True).
Proof.
  unfold bridge_execute.
  (* setState bridging *)
  apply triple_bind with (Mid := fun o seen s =>
           match o with
           | Resolved _ => verified r seen s /\ status (state (hook s)) = status_bridging
           | Rejected _ => True
           end);
    [|intros _|trivial].
  { apply triple_setState. intros seen s (Hr & q & Hq & Hv). cbn. split.
    - split; [|discriminate]. intros _. exists r, q. repeat split; assumption.
    - split; [|reflexivity]. split; [exact Hr|].
      exists q. split; [exact Hq | now apply allowance_verified_mono]. }
  (* executeBridge *)
  apply triple_bind with (Mid := fun o seen s =>
           match o with
           | Resolved tx =>
               (verified r seen s /\ status (state (hook s)) = status_bridging)
               /\ exists sg sent, In (EvSendTransaction sg sent (Resolved tx)) seen
           | Rejected _ => True
           end); [|intros tx|trivial].
  { unfold executeBridge.
    apply triple_bind with (Mid := fun o seen s =>
             match o with
             | Resolved tx =>
                 (verified r seen s /\ status (state (hook s)) = status_bridging)
                 /\ exists sg sent, In (EvSendTransaction sg sent (Resolved tx)) seen
             | Rejected _ => True
             end); [|intros tx; apply triple_ret; trivial|trivial].
    apply triple_await. intros seen s o w ((Hr & q & Hq & Hv) & Hst) _. split.
    - exists r, q. repeat split; assumption.
    - destruct o as [tx|e]; [|exact I]. split.
      + split; [|exact Hst]. split; [exact Hr|].
        exists q. split; [exact Hq | now apply allowance_verified_mono].
      + exists signer, (sent_of (transactionRequest r)). apply in_or_app. right. now left. }
  (* setState txHash *)
  apply triple_bind with (Mid := fun o seen s =>
           match o with
           | Resolved _ =>
               txHash (state (hook s)) = Some (hash tx)
               /\ exists sg sent, In (EvSendTransaction sg sent (Resolved tx)) seen
           | Rejected _ => True
           end); [|intros _|trivial].
  { apply triple_setState.
    intros seen s (((Hr & q & Hq & Hv) & Hst) & sg & sent & Hs). cbn. split.
    - split.
      + intros _. exists r, q. repeat split; assumption.
      + rewrite Hst. discriminate.
    - split; [reflexivity|]. exists sg, sent. apply in_or_app. now left. }
  (* tx.wait() *)
  apply triple_bind with (Mid := fun o seen s =>
           match o with
           | Resolved _ => txHash (state (hook s)) = Some (hash tx) /\ mined tx seen
           | Rejected _ => True
           end); [|intros _|trivial].
  { apply triple_await. intros seen s o w (Hh & sg & sent & Hs) _.
    split; [exact I|]. destruct o as [[]|e]; [|exact I]. split; [exact Hh|].
    exists sg, sent. split; apply in_or_app; [now left | right; now left]. }
  (* setState monitoring *)
  apply triple_bind with (Mid := fun _ _ _ => True); [|intros _|trivial].
  { apply triple_setState. intros seen s (Hh & Hm). cbn. split; [|exact I].
    split; [discriminate|]. intros _. exists tx. split; assumption. }
  (* monitorTransaction *)
  apply triple_bind with (Mid := fun _ _ _ => True); [|intros finalStatus|trivial].
  { apply triple_quiet with (X := is_monitor).
    - unfold monitorTransaction_default. apply monitorTransaction_quiet;
        try (intros; reflexivity).
      intros f [= <-] st. apply quiet_ret.
    - intros seen e He. apply plain_event_ok. now apply is_monitor_plain.
    - trivial. }
  destruct (String.eqb (squidTransactionStatus finalStatus) "success").
  - apply triple_bind with (Mid := fun _ _ _ => True); [|intros _|trivial].
    + apply triple_setState. intros seen s _. cbn. split; [|exact I].
      split; discriminate.
    + apply triple_ret. trivial.
  - apply triple_throw. trivial.
Qed.

Lemma bridge_try_triple (amount : string) :
  triple check
         (fun _ s => status (state (hook s)) = status_idle)
         (bridge_try env wallet amount)
         (fun _ _ _ => True).
Proof.
  unfold bridge_try.
  (* provider.getSigner() *)
  apply triple_bind with (Mid := fun _ _ s => status (state (hook s)) = status_idle);
    [|intros signer|trivial].
  { apply triple_await. intros seen s o w Hst _. split; [exact I | exact Hst]. }
  (* setState idle *)
  apply triple_bind with (Mid := fun _ _ s => status (state (hook s)) = status_idle);
    [|intros _|trivial].
  { apply triple_setState. intros seen s _. cbv zeta. split; [|reflexivity].
    apply other_status_ok; cbn; discriminate. }
  (* ethers.parseUnits *)
  apply triple_bind with (Mid := fun _ _ s => status (state (hook s)) = status_idle);
    [|intros amountInWei|trivial].
  { apply triple_settle. trivial. }
  (* getRoute *)
  apply triple_bind with (Mid := fun _ _ s => status (state (hook s)) = status_idle);
    [|intros rr|trivial].
  { apply triple_quiet with (X := is_http).
    - apply getRoute_quiet; intros; reflexivity.
    - intros seen e He. apply plain_event_ok. now apply is_http_plain.
    - intros seen s o evs s' Hst _ Hh _. now rewrite Hh. }
  (* setState route *)
  apply triple_bind with (Mid := fun _ _ s =>
           status (state (hook s)) = status_idle
           /\ route_ (state (hook s)) = Some (route rr));
    [|intros _|trivial].
  { apply triple_setState. intros seen s Hst. cbv zeta.
    split; [|split; [exact Hst | reflexivity]].
    apply other_status_ok; cbn; rewrite Hst; discriminate. }
  (* setState approving *)
  apply triple_bind with (Mid := fun _ _ s => route_ (state (hook s)) = Some (route rr));
    [|intros _|trivial].
  { apply triple_setState. intros seen s [_ Hr]. cbv zeta. split; [|exact Hr].
    apply other_status_ok; cbn; discriminate. }
  (* allowance *)
  apply triple_bind with (Mid := fun o seen s =>
           match o with Resolved _ => verified (route rr) seen s | Rejected _ => True end);
    [|intros _|trivial].
  { apply bridge_ensureAllowance_triple. }
  apply bridge_execute_triple.
Qed.

Lemma bridge_catch_triple (e : Thrown) :
  triple check (fun _ _ => True) (bridge_catch (W:=W) e) (fun _ _ _ => True).
Proof.
  destruct e as [|e]; cbn [bridge_catch].
  - apply triple_throw. trivial.
  - apply triple_bind with (Mid := fun _ _ _ => True); [|intros _|trivial].
    + apply triple_setState. intros seen s _. cbv zeta. split; [|exact I].
      apply other_status_ok; cbn; discriminate.
    + apply triple_throw. trivial.
Qed.

End BridgeOrder.

Lemma bridge_unfold (W : Type) (env : Env W) (amount : string) (s : Store W) :
  bridge env amount s
  = match truthy (walletAddress (hook s)), env_ethereum env (world s) with
    | Some wallet, true =>
        bind (setState start_loading)
             (fun _ => try_catch (bridge_try env wallet amount) (@bridge_catch W)) s
    | _, _ => (Rejected (Error "Wallet not connected"), s, [])
    end.
Proof.
  unfold bridge at 1. unfold bind at 1 2. cbn [getHook getWorld].
  destruct (truthy (walletAddress (hook s))) as [wallet|];
    destruct (env_ethereum env (world s)); cbn [throw app]; try reflexivity.
  now destruct (bind (setState start_loading)
                     (fun _ => try_catch (bridge_try env wallet amount) (@bridge_catch W)) s)
    as [[r s1] ev1].
Qed.

(** C9 -- In every run of [bridge], for every event of the run and the
    events before it: a state whose status is [bridging] is set, and the
    bridge transaction is sent, only when among the earlier events the
    allowance of the route's target over the wallet's USDC was read and either
    it was at least the route's [fromAmount], or an approval of exactly that
    amount was sent and mined; and a state whose status is [monitoring] is
    set only when among the earlier events the bridge transaction, whose hash
    the state holds, was sent and mined. *)
Theorem bridge_order_respected (W : Type) (env : Env W) (amount : string) (s : Store W) :
  forall pre e post,
    events_of (bridge env amount s) = pre ++ e :: post ->
    bridge_order env (or_else (walletAddress (hook s)) "") pre e.
Proof.
  rewrite bridge_unfold. unfold or_else.
  destruct (truthy (walletAddress (hook s))) as [wallet|].
  2:{ intros [|x pre] e post H; discriminate H. }
  destruct (env_ethereum env (world s)).
  2:{ intros [|x pre] e post H; discriminate H. }
  assert (Ht : triple (bridge_order env wallet) (fun _ _ => True)
                 (bind (setState start_loading)
                       (fun _ => try_catch (bridge_try env wallet amount) (@bridge_catch W)))
                 (fun _ _ _ => True)).
  { apply triple_bind with (Mid := fun _ _ s => status (state (hook s)) = status_idle);
      [|intros _|trivial].
    - apply triple_setState. intros seen s0 _. cbv zeta. split; [|reflexivity].
      apply other_status_ok; cbn; discriminate.
    - apply triple_try_catch with (Mid := fun _ _ _ => True); [| |trivial].
      + eapply triple_conseq; [apply bridge_try_triple| |]; trivial.
      + intros e. apply bridge_catch_triple. }
  destruct (Ht [] s I) as [Hg _]. exact Hg.
Qed.

Lemma bridge_order_respected_witness :
  let evs := events_of (bridge Script.env "10" (Script.store initialState Script.happyWorld)) in
  bridge_order Script.env Script.wallet (firstn 13 evs) (nth 13 evs (EvSleep 0))
  /\ exists st, nth 13 evs (EvSleep 0) = EvSetState st /\ status st = status_monitoring.
Proof.
  intros evs. split.
  - apply (bridge_order_respected Script.env "10"
             (Script.store initialState Script.happyWorld)
             (firstn 13 evs) (nth 13 evs (EvSleep 0)) (skipn 14 evs)).
    vm_compute. reflexivity.
  - eexists. split; vm_compute; reflexivity.
Defined.

(** ** No single-flight guard in bridge *)

Lemma bind_events_prefix (W A B : Type) (c : M W A) (k : A -> M W B) (s : Store W) :
  exists rest, events_of (bind c k s) = events_of (c s) ++ rest.
Proof.
  unfold bind. destruct (c s) as [[[a|e] s1] ev1]; cbn [events_of snd].
  - destruct (k a s1) as [[r s2] ev2]. now exists ev2.
  - exists []. now rewrite app_nil_r.
Qed.

Lemma try_catch_events_prefix (W A : Type) (c : M W A) (h : Thrown -> M W A) (s : Store W) :
  exists rest, events_of (try_catch c h s) = events_of (c s) ++ rest.
Proof.
  unfold try_catch. destruct (c s) as [[[a|e] s1] ev1]; cbn [events_of snd].
  - exists []. now rewrite app_nil_r.
  - destruct (h e s1) as [[r s2] ev2]. now exists ev2.
Qed.

(** C1 (as the code has it) -- [bridge] never looks at the session's status.
    The only call it rejects before doing anything is one made without a
    connected wallet: it throws 'Wallet not connected', makes no call and
    leaves the session as it was.  With a wallet connected, a call made in
    any state -- also while an attempt is in flight -- does what a call made
    with any other [status], [isLoading] and [error] would do: it sets the
    status to [idle], with [isLoading], and goes on to ask the wallet for the
    signer. *)
Theorem bridge_ignores_status (W : Type) (env : Env W) (amount : string) (s : Store W) :
  let run := bridge env amount s in
  (truthy (walletAddress (hook s)) = None \/ env_ethereum env (world s) = false ->
   run = (Rejected (Error "Wallet not connected"), s, []))
  /\ (forall wallet,
        truthy (walletAddress (hook s)) = Some wallet ->
        env_ethereum env (world s) = true ->
        (forall st,
            txHash st = txHash (state (hook s)) ->
            route_ st = route_ (state (hook s)) ->
            bridge env amount (with_state st s) = run)
        /\ exists rest,
             events_of run
             = EvSetState (start_loading (state (hook s)))
                 :: EvGetSigner (fst (env_getSigner env (world s))) :: rest).
Proof.
  cbv zeta. split.
  - rewrite bridge_unfold. intros [-> | ->]; [reflexivity|].
    now destruct (truthy (walletAddress (hook s))).
  - intros wallet Hw He. split.
    + intros st Ht Hr. rewrite !bridge_unfold. cbn [with_state hook world walletAddress].
      rewrite Hw, He. unfold bind.
      replace (setState start_loading (with_state st s))
        with (setState start_loading s); [reflexivity|].
      unfold setState, start_loading, with_state. cbn. now rewrite Ht, Hr.
    + rewrite bridge_unfold, Hw, He. unfold bind at 1. cbn [setState].
      destruct (try_catch_events_prefix (bridge_try env wallet amount) (@bridge_catch W)
                  {| world := world s;
                     hook := {| state := start_loading (state (hook s));
                                walletAddress := walletAddress (hook s);
                                balance := balance (hook s) |} |}) as [rest1 H1].
      unfold bridge_try at 2 in H1.
      match type of H1 with
      | context [events_of (bind ?c ?k ?s1)] =>
          destruct (bind_events_prefix c k s1) as [rest2 H2]; rewrite H2 in H1; clear H2
      end.
      rewrite await_run in H1. cbn [events_of snd world app] in H1.
      revert H1.
      match goal with
      | |- context [try_catch ?c ?h ?s1] => destruct (try_catch c h s1) as [[r1 s2] ev1]
      end.
      cbn [events_of snd]. intros ->. eexists. reflexivity.
Qed.

Lemma bridge_ignores_status_witness :
  let s := Script.store (set_status status_success initialState) Script.happyWorld in
  bridge Script.env "10" (with_state (set_status status_monitoring (state (hook s))) s)
  = bridge Script.env "10" s.
Proof.
  intros s.
  destruct (bridge_ignores_status Script.env "10" s) as [_ H].
  destruct (H Script.wallet eq_refl eq_refl) as [H1 _].
  exact (H1 (set_status status_monitoring (state (hook s))) eq_refl eq_refl).
Defined.

(** C1, counterexample -- [bridge] is called while an attempt is in flight
    (status [approving]): the call is not rejected; it runs to the end,
    fetching a quote on the way, and leaves the session in another state. *)
Lemma bridge_runs_while_in_flight :
  let s := Script.store Script.approvingState Script.happyWorld in
  let run := bridge Script.env "10" s in
  in_flight (status (state (hook s))) = true
  /\ (exists r, outcome_of run = Resolved r)
  /\ length (route_fetches_of (events_of run)) = 1
  /\ status (state (hook (store_of run))) = status_success.
Proof.
  cbv zeta. split; [reflexivity|]. split; [eexists; vm_compute; reflexivity|].
  split; vm_compute; reflexivity.
Qed.

(** ** A run of bridge that returns *)

Lemma quoted_mono (W : Type) (env : Env W) (wallet amount : string) (r : Route)
      (seen more : list Event) :
  quoted env wallet amount r seen -> quoted env wallet amount r (seen ++ more).
Proof.
  intros (amt & res & body & H1 & H2 & H3 & H4). exists amt, res, body.
  repeat split; try assumption. rewrite route_fetches_of_app. apply in_or_app. now left.
Qed.

Lemma allowed_mono (W : Type) (env : Env W) (wallet : string) (r : Route)
      (approvals : list (string * string * Z)) (seen more : list Event) :
  allowed env wallet r approvals seen -> allowed env wallet r approvals (seen ++ more).
Proof.
  intros (a & q & H1 & H2 & H3). exists a, q.
  repeat split; try assumption. apply in_or_app. now left.
Qed.

Lemma progress_snoc (sts : list BridgeStatus) (apps : list (string * string * Z))
      (snds : list SentTransaction) (seen : list Event) (e : Event) :
  progress sts apps snds seen ->
  progress (sts ++ statuses_of [e]) (apps ++ approvals_of [e]) (snds ++ sends_of [e])
           (seen ++ [e]).
Proof.
  intros (H1 & H2 & H3). unfold progress. autorewrite with events.
  now rewrite H1, H2, H3.
Qed.

Lemma progress_plain (sts : list BridgeStatus) (apps : list (string * string * Z))
      (snds : list SentTransaction) (seen evs : list Event) :
  statuses_of evs = [] -> approvals_of evs = [] -> sends_of evs = [] ->
  progress sts apps snds seen -> progress sts apps snds (seen ++ evs).
Proof.
  intros E1 E2 E3 (H1 & H2 & H3). unfold progress. autorewrite with events.
  now rewrite H1, H2, H3, E1, E2, E3, !app_nil_r.
Qed.

Lemma progress_http (sts : list BridgeStatus) (apps : list (string * string * Z))
      (snds : list SentTransaction) (seen evs : list Event) :
  Forall is_http evs -> progress sts apps snds seen -> progress sts apps snds (seen ++ evs).
Proof.
  intros H. destruct (http_silent H) as (_ & _ & _ & E1 & E2 & E3 & _).
  apply progress_plain; try assumption. unfold statuses_of. now rewrite E1.
Qed.

Lemma progress_monitor (sts : list BridgeStatus) (apps : list (string * string * Z))
      (snds : list SentTransaction) (seen evs : list Event) :
  Forall is_monitor evs -> progress sts apps snds seen -> progress sts apps snds (seen ++ evs).
Proof.
  intros H. destruct (monitor_silent H) as (_ & E1 & E2 & E3 & _).
  apply progress_plain; try assumption. unfold statuses_of. now rewrite E1.
Qed.

Section BridgeSuccess.

Variable W : Type.
Variable env : Env W.
Variables wallet amount : string.

Let free : list Event -> Event -> Prop := fun _ _ => True.

Let i := status_idle.

Lemma bridge_ensureAllowance_summary (r : Route) (signer : Signer)
      (sts : list BridgeStatus) :
  triple free
         (fun seen s => progress sts [] [] seen)
         (bridge_ensureAllowance env wallet r signer)
         (fun o seen s =>
            match o with
            | Resolved _ => exists apps, allowed env wallet r apps seen
                                         /\ progress sts apps [] seen
            | Rejected _ => True
            end).
Proof.
  intros seen s Hp. split; [intros pre e post _; exact I|].
  pose proof (bridge_ensureAllowance_run env wallet r signer s) as H. cbv zeta in H.
  destruct (env_allowance env TOKENS_USDC_BASE wallet (target (transactionRequest r)) (world s))
    as [[a|e] w1]; cbn [fst snd] in H; [|rewrite H; exact I].
  destruct (env_BigInt env (fromAmount (params r))) as [required|e] eqn:Hbig;
    [|rewrite H; exact I].
  destruct (a <? required)%Z eqn:Hlt.
  - destruct (env_approve env signer TOKENS_USDC_BASE (target (transactionRequest r))
                required w1) as [[tx|e] w2]; cbn [fst snd] in H; [|rewrite H; exact I].
    destruct (env_wait env tx w2) as [[[]|e] w3]; cbn [fst snd] in H; rewrite H; [|exact I].
    cbn [outcome_of events_of store_of fst snd].
    exists [(TOKENS_USDC_BASE, target (transactionRequest r), required)]. split.
    + exists a, required. rewrite Hlt. repeat split; [exact Hbig|].
      apply in_or_app. right. now left.
    + destruct Hp as (H1 & H2 & H3). unfold progress. autorewrite with events.
      rewrite H1, H2, H3. cbn. now rewrite app_nil_r.
  - rewrite H. cbn [outcome_of events_of store_of fst snd].
    exists []. split.
    + exists a, required. rewrite Hlt. repeat split; [exact Hbig|].
      apply in_or_app. right. now left.
    + destruct Hp as (H1 & H2 & H3). unfold progress. autorewrite with events.
      rewrite H1, H2, H3. cbn. now rewrite !app_nil_r.
Qed.

Lemma bridge_execute_summary (r : Route) (requestId : string) (signer : Signer)
      (sts : list BridgeStatus) (apps : list (string * string * Z)) :
  triple free
         (fun seen s => progress sts apps [] seen)
         (bridge_execute env r requestId signer)
         (fun o seen s =>
            match o with
            | Resolved _ =>
                progress (sts ++ [status_bridging; status_bridging;
                                  status_monitoring; status_success])
                         apps [sent_of (transactionRequest r)] seen
            | Rejected _ => True
            end).
Proof.
  unfold bridge_execute.
  (* setState bridging *)
  apply triple_bind with (Mid := fun o seen s =>
           match o with
           | Resolved _ => progress (sts ++ [status_bridging]) apps [] seen
                           /\ status (state (hook s)) = status_bridging
           | Rejected _ => True
           end); [|intros _|trivial].
  { apply triple_setState. intros seen s Hp. cbv zeta. split; [exact I|].
    split; [|reflexivity].
    apply progress_snoc with (e := EvSetState (set_status status_bridging (state (hook s))))
      in Hp.
    cbn in Hp. now rewrite !app_nil_r in Hp. }
  (* executeBridge *)
  apply triple_bind with (Mid := fun o seen s =>
           match o with
           | Resolved _ =>
               progress (sts ++ [status_bridging]) apps [sent_of (transactionRequest r)] seen
               /\ status (state (hook s)) = status_bridging
           | Rejected _ => True
           end); [|intros tx|trivial].
  { unfold executeBridge.
    apply triple_bind with (Mid := fun o seen s =>
           match o with
           | Resolved _ =>
               progress (sts ++ [status_bridging]) apps [sent_of (transactionRequest r)] seen
               /\ status (state (hook s)) = status_bridging
           | Rejected _ => True
           end); [|intros tx; apply triple_ret; trivial|trivial].
    apply triple_await. intros seen s o w [Hp Hst] _. split; [exact I|].
    destruct o as [tx|e]; [|exact I]. split; [|exact Hst].
    apply progress_snoc
      with (e := EvSendTransaction signer (sent_of (transactionRequest r)) (Resolved tx))
      in Hp.
    cbn in Hp. now rewrite !app_nil_r in Hp. }
  (* setState txHash *)
  apply triple_bind with (Mid := fun o seen s =>
           match o with
           | Resolved _ =>
               progress (sts ++ [status_bridging; status_bridging]) apps
                        [sent_of (transactionRequest r)] seen
           | Rejected _ => True
           end); [|intros _|trivial].
  { apply triple_setState. intros seen s [Hp Hst]. cbv zeta. split; [exact I|].
    apply progress_snoc with (e := EvSetState (set_txHash (hash tx) (state (hook s)))) in Hp.
    cbn in Hp. rewrite Hst, !app_nil_r, <- app_assoc in Hp. exact Hp. }
  (* tx.wait() *)
  apply triple_bind with (Mid := fun o seen s =>
           match o with
           | Resolved _ =>
               progress (sts ++ [status_bridging; status_bridging]) apps
                        [sent_of (transactionRequest r)] seen
           | Rejected _ => True
           end); [|intros _|trivial].
  { apply triple_await. intros seen s o w Hp _. split; [exact I|].
    destruct o as [u|e]; [|exact I].
    apply progress_snoc with (e := EvWait tx (Resolved u)) in Hp.
    cbn in Hp. now rewrite !app_nil_r in Hp. }
  (* setState monitoring *)
  apply triple_bind with (Mid := fun o seen s =>
           match o with
           | Resolved _ =>
               progress (sts ++ [status_bridging; status_bridging; status_monitoring]) apps
                        [sent_of (transactionRequest r)] seen
           | Rejected _ => True
           end); [|intros _|trivial].
  { apply triple_setState. intros seen s Hp. cbv zeta. split; [exact I|].
    apply progress_snoc with (e := EvSetState (set_status status_monitoring (state (hook s))))
      in Hp.
    cbn in Hp. rewrite !app_nil_r, <- app_assoc in Hp. exact Hp. }
  (* monitorTransaction *)
  apply triple_bind with (Mid := fun o seen s =>
           match o with
           | Resolved _ =>
               progress (sts ++ [status_bridging; status_bridging; status_monitoring]) apps
                        [sent_of (transactionRequest r)] seen
           | Rejected _ => True
           end); [|intros finalStatus|trivial].
  { apply triple_quiet with (X := is_monitor).
    - unfold monitorTransaction_default. apply monitorTransaction_quiet;
        try (intros; reflexivity).
      intros f [= <-] st. apply quiet_ret.
    - intros seen e _. exact I.
    - intros seen s o evs s' Hp Hevs _ _. destruct o; [|exact I].
      now apply progress_monitor. }
  destruct (String.eqb (squidTransactionStatus finalStatus) "success").
  - apply triple_bind with (Mid := fun o seen s =>
           match o with
           | Resolved _ =>
               progress (sts ++ [status_bridging; status_bridging;
                                 status_monitoring; status_success]) apps
                        [sent_of (transactionRequest r)] seen
           | Rejected _ => True
           end); [|intros _|trivial].
    + apply triple_setState. intros seen s Hp. cbv zeta. split; [exact I|].
      apply progress_snoc with (e := EvSetState (set_success (state (hook s)))) in Hp.
      cbn in Hp. rewrite !app_nil_r, <- app_assoc in Hp. exact Hp.
    + apply triple_ret. trivial.
  - apply triple_throw. trivial.
Qed.

Lemma bridge_try_summary :
  triple free
         (fun seen s => progress [i] [] [] seen /\ status (state (hook s)) = i)
         (bridge_try env wallet amount)
         (fun o seen s =>
            match o with
            | Resolved _ =>
                exists r apps,
                  quoted env wallet amount r seen
                  /\ allowed env wallet r apps seen
                  /\ progress [i; i; i; status_approving; status_bridging; status_bridging;
                               status_monitoring; status_success]
                              apps [sent_of (transactionRequest r)] seen
            | Rejected _ => True
            end).
Proof.
  unfold bridge_try.
  (* provider.getSigner() *)
  apply triple_bind with (Mid := fun o seen s =>
           match o with
           | Resolved _ => progress [i] [] [] seen /\ status (state (hook s)) = i
           | Rejected _ => True
           end); [|intros signer|trivial].
  { apply triple_await. intros seen s o w [Hp Hst] _. split; [exact I|].
    destruct o as [sg|e]; [|exact I]. split; [|exact Hst].
    apply progress_snoc with (e := EvGetSigner (Resolved sg)) in Hp. exact Hp. }
  (* setState idle *)
  apply triple_bind with (Mid := fun o seen s =>
           match o with
           | Resolved _ => progress [i; i] [] [] seen /\ status (state (hook s)) = i
           | Rejected _ => True
           end); [|intros _|trivial].
  { apply triple_setState. intros seen s [Hp _]. cbv zeta. split; [exact I|].
    split; [|reflexivity].
    apply progress_snoc with (e := EvSetState (set_status status_idle (state (hook s))))
      in Hp.
    exact Hp. }
  (* ethers.parseUnits *)
  apply triple_bind with (Mid := fun o seen s =>
           match o with
           | Resolved amountInWei =>
               (progress [i; i] [] [] seen /\ status (state (hook s)) = i)
               /\ env_parseUnits env amount TOKEN_DECIMALS_USDC = Resolved amountInWei
           | Rejected _ => True
           end); [|intros amountInWei|trivial].
  { destruct (env_parseUnits env amount TOKEN_DECIMALS_USDC) as [amt|e] eqn:Hparse;
      apply triple_settle; [|trivial].
    intros seen s H. split; [exact H | reflexivity]. }
  (* getRoute *)
  apply triple_bind with (Mid := fun o seen s =>
           match o with
           | Resolved rr =>
               (progress [i; i] [] [] seen /\ status (state (hook s)) = i)
               /\ quoted env wallet amount (route rr) seen
           | Rejected _ => True
           end); [|intros rr|trivial].
  { apply triple_quiet with (X := is_http).
    - apply getRoute_quiet; intros; reflexivity.
    - intros seen e _. exact I.
    - intros seen s o evs s' [[Hp Hst] Hparse] Hevs Hh Hrun.
      destruct o as [rr|e]; [|exact I]. split.
      + split; [now apply progress_http | now rewrite Hh].
      + destruct (getRoute_resolved env (bridge_request wallet amountInWei) s (rr := rr))
          as (pre & res & body & H1 & _ & H3 & H4 & _); [now rewrite Hrun|].
        rewrite Hrun in H1. cbn [events_of snd] in H1.
        exists amountInWei, res, body. repeat split; try assumption.
        rewrite route_fetches_of_app, H1. apply in_or_app. right.
        apply in_or_app. right. now left. }
  (* setState route *)
  apply triple_bind with (Mid := fun o seen s =>
           match o with
           | Resolved _ =>
               (progress [i; i; i] [] [] seen /\ status (state (hook s)) = i)
               /\ quoted env wallet amount (route rr) seen
           | Rejected _ => True
           end); [|intros _|trivial].
  { apply triple_setState. intros seen s [[Hp Hst] Hq]. cbv zeta. split; [exact I|].
    split; [split; [|exact Hst] | now apply quoted_mono].
    apply progress_snoc with (e := EvSetState (set_route (route rr) (state (hook s)))) in Hp.
    cbn in Hp. rewrite Hst in Hp. exact Hp. }
  (* setState approving *)
  apply triple_bind with (Mid := fun o seen s =>
           match o with
           | Resolved _ =>
               progress [i; i; i; status_approving] [] [] seen
               /\ quoted env wallet amount (route rr) seen
           | Rejected _ => True
           end); [|intros _|trivial].
  { apply triple_setState. intros seen s [[Hp Hst] Hq]. cbv zeta. split; [exact I|].
    split; [|now apply quoted_mono].
    apply progress_snoc with (e := EvSetState (set_status status_approving (state (hook s))))
      in Hp.
    exact Hp. }
  (* allowance *)
  apply triple_bind with (Mid := fun o seen s =>
           match o with
           | Resolved _ =>
               (exists apps, allowed env wallet (route rr) apps seen
                             /\ progress [i; i; i; status_approving] apps [] seen)
               /\ quoted env wallet amount (route rr) seen
           | Rejected _ => True
           end); [|intros _|trivial].
  { eapply triple_conseq.
    - apply triple_frame with (F := quoted env wallet amount (route rr));
        [apply quoted_mono | apply bridge_ensureAllowance_summary].
    - intros seen s H. exact H.
    - intros [u|e] seen s [H1 H2]; [split; assumption | exact I]. }
  (* execute and monitor *)
  intros seen s [(apps & Hal & Hp) Hq].
  destruct (@bridge_execute_summary (route rr) (requestId rr) signer
              [i; i; i; status_approving] apps seen s Hp) as [Hg Hpost].
  split; [exact Hg|].
  destruct (outcome_of (bridge_execute env (route rr) (requestId rr) signer s));
    [|exact I].
  exists (route rr), apps. split; [now apply quoted_mono|].
  split; [now apply allowed_mono | exact Hpost].
Qed.

(** A run of [bridge] that returns: the quote for the amount was answered
    with a route; the statuses set are idle (three times), approving,
    bridging (twice), monitoring, success; the approvals are one of the
    route's [fromAmount] when the allowance read was below it and none
    otherwise; one transaction was sent, the route's. *)
Lemma bridge_success_summary (s : Store W) (v : TransactionResponse * TransactionStatus) :
  truthy (walletAddress (hook s)) = Some wallet ->
  outcome_of (bridge env amount s) = Resolved v ->
  exists r apps,
    quoted env wallet amount r (events_of (bridge env amount s))
    /\ allowed env wallet r apps (events_of (bridge env amount s))
    /\ progress [i; i; i; status_approving; status_bridging; status_bridging;
                 status_monitoring; status_success]
                apps [sent_of (transactionRequest r)] (events_of (bridge env amount s)).
Proof.
  intros Hw. rewrite bridge_unfold, Hw.
  destruct (env_ethereum env (world s)); [|discriminate].
  assert (Ht : triple free (fun seen _ => seen = [])
                 (bind (setState start_loading)
                       (fun _ => try_catch (bridge_try env wallet amount) (@bridge_catch W)))
                 (fun o seen s =>
                    match o with
                    | Resolved _ =>
                        exists r apps,
                          quoted env wallet amount r seen
                          /\ allowed env wallet r apps seen
                          /\ progress [i; i; i; status_approving; status_bridging;
                                       status_bridging; status_monitoring; status_success]
                                      apps [sent_of (transactionRequest r)] seen
                    | Rejected _ => True
                    end)).
  { apply triple_bind with (Mid := fun o seen s =>
             match o with
             | Resolved _ => progress [i] [] [] seen /\ status (state (hook s)) = i
             | Rejected _ => True
             end); [|intros _|trivial].
    - apply triple_setState. intros seen s0 ->. cbv zeta. split; [exact I|].
      split; [|reflexivity]. repeat split.
    - apply triple_try_catch with (Mid := fun o seen s =>
             match o with
             | Resolved _ =>
                 exists r apps,
                   quoted env wallet amount r seen
                   /\ allowed env wallet r apps seen
                   /\ progress [i; i; i; status_approving; status_bridging;
                                status_bridging; status_monitoring; status_success]
                               apps [sent_of (transactionRequest r)] seen
             | Rejected _ => True
             end); [apply bridge_try_summary| |trivial].
      intros e. destruct e as [|e]; cbn [bridge_catch].
      + apply triple_throw. trivial.
      + apply triple_bind with (Mid := fun _ _ _ => True); [|intros _|trivial].
        * apply triple_setState. intros; cbv zeta; split; exact I.
        * apply triple_throw. trivial. }
  destruct (Ht [] s eq_refl) as [_ Hpost]. cbn [app] in Hpost.
  intros Hv. rewrite Hv in Hpost. exact Hpost.
Qed.

End BridgeSuccess.

(** C2 (as the code has it) -- For every run of [bridge] with amount "10"
    (parsed with the 6 decimals of USDC to 10_000_000) in which the quote
    carries the requested amount, the allowance read is 0 and every step
    succeeds (the call returns): the statuses observed are exactly
    idle, approving, bridging, monitoring, success -- the status is [idle]
    while the quote is fetched and [bridging] while the transaction is sent;
    exactly one approval is sent, of 10_000_000 for the route's target, and
    exactly one bridge transaction, the route's. *)
Theorem bridge_ten_usdc (W : Type) (env : Env W) (s : Store W) :
  let run := bridge env "10" s in
  env_parseUnits env "10" TOKEN_DECIMALS_USDC = Resolved 10000000%Z ->
  env_BigInt env "10000000" = Resolved 10000000%Z ->
  (forall p res body rt,
      In (p, Resolved res) (route_fetches_of (events_of run)) ->
      res_json res = Resolved body ->
      body_route body = Some rt ->
      fromAmount (params rt) = fromAmount p) ->
  (forall token owner spender a,
      In (EvAllowance token owner spender (Resolved a)) (events_of run) -> a = 0%Z) ->
  (exists v, outcome_of run = Resolved v) ->
  observed_statuses (events_of run)
  = [status_idle; status_approving; status_bridging; status_monitoring; status_success]
  /\ exists r,
       approvals_of (events_of run)
       = [(TOKENS_USDC_BASE, target (transactionRequest r), 10000000%Z)]
       /\ sends_of (events_of run) = [sent_of (transactionRequest r)].
Proof.
  intros run Hparse Hbig Hecho Hzero [v Hv]. subst run.
  destruct (truthy (walletAddress (hook s))) as [wallet|] eqn:Hw.
  2:{ rewrite bridge_unfold, Hw in Hv. discriminate Hv. }
  destruct (@bridge_success_summary W env wallet "10" s v Hw Hv)
    as (r & apps & Hq & Ha & Hs & Hp & Hn).
  split.
  - unfold observed_statuses. rewrite Hs. reflexivity.
  - exists r. split; [|exact Hn]. rewrite Hp.
    destruct Hq as (amt & res & body & H1 & H2 & H3 & H4).
    rewrite Hparse in H1. injection H1 as <-.
    pose proof (Hecho _ _ _ _ H2 H3 H4) as Hfrom.
    destruct Ha as (a & required & Hb & Hin & ->).
    rewrite Hfrom in Hb. change (fromAmount (bridge_request wallet 10000000)) with "10000000" in Hb.
    rewrite Hbig in Hb. injection Hb as <-.
    rewrite (Hzero _ _ _ _ Hin). reflexivity.
Qed.

Lemma bridge_ten_usdc_witness :
  let run := bridge Script.env "10" (Script.store initialState Script.happyWorld) in
  observed_statuses (events_of run)
  = [status_idle; status_approving; status_bridging; status_monitoring; status_success]
  /\ exists r,
       approvals_of (events_of run)
       = [(TOKENS_USDC_BASE, target (transactionRequest r), 10000000%Z)]
       /\ sends_of (events_of run) = [sent_of (transactionRequest r)].
Proof.
  intros run.
  pose proof (bridge_ten_usdc Script.env (Script.store initialState Script.happyWorld)) as H.
  cbv zeta in H. fold run in H.
  assert (Hf : route_fetches_of (events_of run)
               = [(bridge_request Script.wallet 10000000,
                   Script.okResponse {| body_route := Some Script.sampleRoute;
                                        body_error := None |})])
    by (vm_compute; reflexivity).
  assert (Ha : flat_map (fun e => match e with
                                  | EvAllowance _ _ _ (Resolved a) => [a]
                                  | _ => []
                                  end) (events_of run) = [0%Z])
    by (vm_compute; reflexivity).
  assert (Hv : exists v, outcome_of run = Resolved v)
    by (eexists; vm_compute; reflexivity).
  clearbody run.
  apply H; [reflexivity | reflexivity | | | exact Hv].
  - rewrite Hf. intros p res body rt [Heq|[]] Hj Hb.
    injection Heq as <- <-. injection Hj as <-. injection Hb as <-. reflexivity.
  - intros token owner spender a Hin.
    assert (Hin' : In a (flat_map (fun e => match e with
                                            | EvAllowance _ _ _ (Resolved a) => [a]
                                            | _ => []
                                            end) (events_of run))).
    { apply in_flat_map. exists (EvAllowance token owner spender (Resolved a)).
      split; [exact Hin | left; reflexivity]. }
    rewrite Ha in Hin'. destruct Hin' as [<-|[]]. reflexivity.
Defined.

(** C2, counterexample -- a run with amount "10" and allowance 0 in which
    every step succeeds: the names of the statuses observed are
    idle, approving, bridging, monitoring, success, not
    quoting, approving, executing, monitoring, success. *)
Lemma bridge_never_quoting :
  let run := bridge Script.env "10" (Script.store initialState Script.happyWorld) in
  (exists v, outcome_of run = Resolved v)
  /\ Script.lookup (TOKENS_USDC_BASE, Script.wallet, Script.squidRouter)
                   (Script.ledger Script.happyWorld) = 0%Z
  /\ map status_name (observed_statuses (events_of run))
     = ["idle"; "approving"; "bridging"; "monitoring"; "success"]
  /\ map status_name (observed_statuses (events_of run))
     <> ["quoting"; "approving"; "executing"; "monitoring"; "success"].
Proof.
  cbv zeta. split; [eexists; vm_compute; reflexivity|].
  split; [reflexivity|].
  assert (H : map status_name
                (observed_statuses
                   (events_of (bridge Script.env "10"
                                      (Script.store initialState Script.happyWorld))))
              = ["idle"; "approving"; "bridging"; "monitoring"; "success"])
    by (vm_compute; reflexivity).
  split; [exact H|]. rewrite H. discriminate.
Qed.

(* ========================================================================= *)
(** * More of the code *)

(** ** retryWithBackoff with any number of attempts and any delay *)

Lemma total_backoff (d : Z) (n : nat) :
  forall attempt,
    fold_right Z.add 0%Z (backoff_delays d attempt n)
    = (d * 2 ^ Z.of_nat attempt * (2 ^ Z.of_nat n - 1))%Z.
Proof.
  induction n as [|n IH]; intros attempt.
  - cbn [backoff_delays fold_right]. change (Z.of_nat 0) with 0%Z. lia.
  - cbn [backoff_delays fold_right]. rewrite IH.
    rewrite !Nat2Z.inj_succ, !Z.pow_succ_r by lia. ring.
Qed.

(** The waits of a run that made [n] calls out of at most [m], by a
    function that waits [d * 2^i] after its failure number [i]. *)
Lemma total_backoff_le (d : Z) (n m : nat) :
  (0 <= d)%Z -> n <= m ->
  (fold_right Z.add 0 (backoff_delays d 0 (n - 1))
   <= d * (2 ^ Z.of_nat (m - 1) - 1))%Z.
Proof.
  intros Hd Hn. rewrite total_backoff. change (Z.of_nat 0) with 0%Z.
  rewrite Z.pow_0_r, Z.mul_1_r.
  assert (H : (2 ^ Z.of_nat (n - 1) <= 2 ^ Z.of_nat (m - 1))%Z)
    by (apply Z.pow_le_mono_r; lia).
  nia.
Qed.

Section RetryShape.

Variables (W T X : Type) (proj : list Event -> list X).
Hypothesis proj_app : forall a b, proj (a ++ b) = proj a ++ proj b.
Hypothesis proj_sleep : forall ms, proj [EvSleep ms] = [].
Variable fn : M W T.
Hypothesis fn_once : forall s, length (proj (events_of (fn s))) = 1.
Hypothesis fn_no_wait : forall s, waits_of (events_of (fn s)) = [].
Variables (maxRetries : nat) (initialDelay : Z).

(** When each call of [fn] leaves one mark and does not wait itself, the
    loop leaves between one and [remaining] marks, and its waits are the
    delays between successive calls: one wait less than calls. *)
Lemma retry_loop_shape (remaining : nat) :
  forall attempt lastError (s : Store W),
    attempt + remaining = maxRetries -> 0 < remaining ->
    let evs := events_of (retry_loop fn maxRetries initialDelay remaining attempt
                                     lastError s) in
    1 <= length (proj evs) <= remaining
    /\ waits_of evs = backoff_delays initialDelay attempt (length (proj evs) - 1).
Proof.
  induction remaining as [|remaining IH]; intros attempt lastError s Hsum Hpos; [lia|].
  cbn [retry_loop]. unfold try_catch.
  pose proof (fn_once s) as H1. pose proof (fn_no_wait s) as H0. revert H1 H0.
  destruct (fn s) as [[[a|e] s1] ev1]; cbn [events_of snd]; intros H1 H0.
  - rewrite H1, H0. cbn. split; [lia | reflexivity].
  - destruct (negb (isRetryable e) || Nat.eqb attempt (maxRetries - 1)) eqn:Hc.
    + unfold throw. cbn [events_of snd]. rewrite app_nil_r, H1, H0. cbn.
      split; [lia | reflexivity].
    + apply orb_false_iff in Hc. destruct Hc as [_ Hc]. apply Nat.eqb_neq in Hc.
      unfold bind, sleep.
      specialize (IH (S attempt) e s1 ltac:(lia) ltac:(lia)). cbv zeta in IH. revert IH.
      destruct (retry_loop fn maxRetries initialDelay remaining (S attempt) e s1)
        as [[r2 s2] ev2]; cbn [events_of snd]; intros [IHn IHw].
      rewrite !proj_app, !waits_of_app, !length_app, proj_sleep, H1, H0, IHw.
      cbn [List.length app waits_of flat_map Nat.add].
      split; [lia|].
      replace (S (length (proj ev2)) - 1) with (S (length (proj ev2) - 1)) by lia.
      reflexivity.
Qed.

End RetryShape.

Section RetryLast.

Variables (W T : Type) (f : W -> Outcome T * W).
Variables (maxRetries : nat) (initialDelay : Z).

(** The loop settles to what the last call it made settled to. *)
Lemma retry_loop_last (remaining : nat) :
  forall attempt lastError (s : Store W),
    attempt + remaining = maxRetries -> 0 < remaining ->
    let run := retry_loop (call_fn f) maxRetries initialDelay remaining attempt
                          lastError s in
    last (calls_of (events_of run)) (Resolved tt) = settled_unit (outcome_of run)
    /\ calls_of (events_of run) <> [].
Proof.
  induction remaining as [|remaining IH]; intros attempt lastError s Hsum Hpos; [lia|].
  cbn [retry_loop]. unfold try_catch. rewrite call_fn_run.
  destruct (f (world s)) as [[v|e] w]; cbn [fst snd outcome_of events_of].
  - cbn. split; [reflexivity | discriminate].
  - destruct (negb (isRetryable e) || Nat.eqb attempt (maxRetries - 1)) eqn:Hc.
    + cbn. split; [reflexivity | discriminate].
    + apply orb_false_iff in Hc. destruct Hc as [_ Hc]. apply Nat.eqb_neq in Hc.
      unfold bind, sleep.
      specialize (IH (S attempt) e {| world := w; hook := hook s |}
                     ltac:(lia) ltac:(lia)).
      cbv zeta in IH. revert IH.
      destruct (retry_loop (call_fn f) maxRetries initialDelay remaining (S attempt) e
                           {| world := w; hook := hook s |})
        as [[r2 s2] ev2]; cbn [events_of outcome_of fst snd]; intros [IHl IHn].
      autorewrite with events. cbn [calls_of flat_map app settled_unit].
      split; [|discriminate].
      destruct (calls_of ev2) as [|c cs]; [now elim IHn|]. exact IHl.
Qed.

End RetryLast.

(** Delays that are whole numbers of milliseconds within the range of
    [setTimeout], [0 .. 2^31 - 1]: there the product
    [initialDelay * Math.pow(2, attempt)] is exact. *)
Lemma backoff_delays_range (d B : Z) (N n : nat) :
  (0 <= d)%Z -> (d * 2 ^ Z.of_nat N <= B)%Z ->
  forall attempt,
    attempt + n <= S N ->
    Forall (fun ms => (0 <= ms <= B)%Z) (backoff_delays d attempt n).
Proof.
  intros Hd HB. induction n as [|n IH]; intros attempt Hle; [constructor|].
  cbn [backoff_delays]. constructor; [|apply IH; lia].
  assert (H : (0 < 2 ^ Z.of_nat attempt <= 2 ^ Z.of_nat N)%Z).
  { split; [apply Z.pow_pos_nonneg; lia | apply Z.pow_le_mono_r; lia]. }
  nia.
Qed.

(** X1 -- [retryWithBackoff(fn, maxRetries, initialDelay)] for every
    function, every whole number of attempts [maxRetries] up to 1024 and
    every delay that is a whole number of milliseconds with
    [0 <= initialDelay] and [initialDelay * 2^(maxRetries-1) <= 2^31 - 1]
    (so that every delay is computed exactly and is in the range of
    [setTimeout]): [fn] is called at most [maxRetries] times; the waits are
    [initialDelay * 2^i] for [i = 0, 1, ...], one between two successive
    calls and none after the last, each between 0 and [2^31 - 1]; with
    [maxRetries = 0] nothing is called and [undefined] is thrown; with
    [maxRetries > 0] there is at least one call and the run settles to what
    its last call settled to; the waits add up to at most
    [initialDelay * (2^(maxRetries-1) - 1)]. *)
Theorem retryWithBackoff_bounds (W T : Type) (f : W -> Outcome T * W)
        (maxRetries : nat) (initialDelay : Z) (s : Store W) :
  maxRetries <= 1024 ->
  (0 <= initialDelay)%Z ->
  (initialDelay * 2 ^ Z.of_nat (maxRetries - 1) <= 2147483647)%Z ->
  let run := retryWithBackoff (call_fn f) maxRetries initialDelay s in
  let n := length (calls_of (events_of run)) in
  n <= maxRetries
  /\ waits_of (events_of run) = backoff_delays initialDelay 0 (n - 1)
  /\ Forall (fun ms => (0 <= ms <= 2147483647)%Z) (waits_of (events_of run))
  /\ (maxRetries = 0 -> run = (Rejected ThrownUndefined, s, []))
  /\ (0 < maxRetries ->
      1 <= n
      /\ last (calls_of (events_of run)) (Resolved tt) = settled_unit (outcome_of run))
  /\ (total_wait (events_of run)
      <= initialDelay * (2 ^ Z.of_nat (maxRetries - 1) - 1))%Z.
Proof.
  intros Hmax Hd Hrange. cbv zeta. unfold retryWithBackoff.
  assert (Hshape : length (calls_of (events_of
                     (retry_loop (call_fn f) maxRetries initialDelay maxRetries 0
                                 ThrownUndefined s))) <= maxRetries
                   /\ (0 < maxRetries ->
                       1 <= length (calls_of (events_of
                              (retry_loop (call_fn f) maxRetries initialDelay maxRetries 0
                                          ThrownUndefined s))))
                   /\ waits_of (events_of
                        (retry_loop (call_fn f) maxRetries initialDelay maxRetries 0
                                    ThrownUndefined s))
                      = backoff_delays initialDelay 0
                          (length (calls_of (events_of
                             (retry_loop (call_fn f) maxRetries initialDelay maxRetries 0
                                         ThrownUndefined s))) - 1)).
  { destruct maxRetries as [|m]; [cbn; repeat split; lia|].
    destruct (@retry_loop_shape W T _ calls_of calls_of_app (fun _ => eq_refl)
                (call_fn f)
                (fun s0 => ltac:(rewrite call_fn_run; reflexivity))
                (fun s0 => ltac:(rewrite call_fn_run; reflexivity))
                (S m) initialDelay (S m) 0 ThrownUndefined s eq_refl ltac:(lia))
      as [[Hlo Hhi] Hw].
    repeat split; [exact Hhi | intros _; exact Hlo | exact Hw]. }
  destruct Hshape as (Hle & Hge & Hw).
  split; [exact Hle|]. split; [exact Hw|]. split; [|split; [|split]].
  - rewrite Hw.
    apply backoff_delays_range with (N := maxRetries - 1); [exact Hd | exact Hrange | lia].
  - intros ->. reflexivity.
  - intros Hpos. split; [now apply Hge|].
    now apply (retry_loop_last f initialDelay (remaining := maxRetries)).
  - unfold total_wait. rewrite Hw. now apply total_backoff_le.
Qed.

Lemma retryWithBackoff_bounds_witness :
  let run := retryWithBackoff (call_fn Script.pop) 3 500
               (Script.answers [Rejected Script.rateLimited; Rejected Script.timedOut;
                                Rejected Script.rateLimited; Resolved 42%Z]) in
  length (calls_of (events_of run)) <= 3
  /\ last (calls_of (events_of run)) (Resolved tt) = settled_unit (outcome_of run)
  /\ (total_wait (events_of run) <= 1500)%Z.
Proof.
  intros run.
  destruct (retryWithBackoff_bounds (@Script.pop Z) (maxRetries := 3)
              (initialDelay := 500)
              (Script.answers [Rejected Script.rateLimited; Rejected Script.timedOut;
                               Rejected Script.rateLimited; Resolved 42%Z])
              ltac:(lia) ltac:(lia) ltac:(vm_compute; discriminate))
    as (H1 & _ & _ & _ & H4 & H5).
  split; [exact H1|]. split; [exact (proj2 (H4 ltac:(lia))) | exact H5].
Defined.

(** X2 -- [retryWithBackoff(fn, maxRetries, initialDelay)], for a whole
    number of attempts up to 1024 and a delay that is a whole number of
    milliseconds with [0 <= initialDelay] and
    [initialDelay * 2^(maxRetries-1) <= 2^31 - 1], when the first
    [k < maxRetries] calls of [fn] fail with retryable errors and the next
    call settles to [r], which ends the loop -- a value, an error that is not
    retryable, or the error of call number [maxRetries]: the run settles to
    [r] after exactly [k + 1] calls, each failure followed by its wait
    [initialDelay * 2^i], which is between 0 and [2^31 - 1], the waits
    adding up to [initialDelay * (2^k - 1)]. *)
Theorem retryWithBackoff_settles (W T : Type) (f : W -> Outcome T * W)
        (maxRetries : nat) (initialDelay : Z) (s : Store W)
        (es : list Thrown) (r : Outcome T) :
  maxRetries <= 1024 ->
  (0 <= initialDelay)%Z ->
  (initialDelay * 2 ^ Z.of_nat (maxRetries - 1) <= 2147483647)%Z ->
  fn_outcomes f (S (length es)) (world s) = map Rejected es ++ [r] ->
  Forall (fun e => isRetryable e = true) es ->
  length es < maxRetries ->
  match r with
  | Resolved _ => True
  | Rejected e => isRetryable e = false \/ S (length es) = maxRetries
  end ->
  let run := retryWithBackoff (call_fn f) maxRetries initialDelay s in
  outcome_of run = r
  /\ events_of run = retry_events initialDelay 0 es (settled_unit r)
  /\ length (calls_of (events_of run)) = S (length es)
  /\ waits_of (events_of run) = backoff_delays initialDelay 0 (length es)
  /\ Forall (fun ms => (0 <= ms <= 2147483647)%Z) (waits_of (events_of run))
  /\ total_wait (events_of run) = (initialDelay * (2 ^ Z.of_nat (length es) - 1))%Z.
Proof.
  intros Hmax Hd Hrange Hout Hes Hlen Hend run.
  destruct (@retry_loop_run W T f maxRetries initialDelay es r maxRetries 0
              ThrownUndefined s Hout Hes Hlen eq_refl Hend) as [Ho Hev].
  fold (retryWithBackoff (call_fn f) maxRetries initialDelay) in Ho, Hev.
  fold run in Ho, Hev.
  split; [exact Ho|]. split; [exact Hev|]. unfold total_wait. rewrite Hev.
  rewrite calls_of_retry_events, waits_of_retry_events, total_backoff.
  rewrite length_app, length_map. change (Z.of_nat 0) with 0%Z.
  rewrite Z.pow_0_r, Z.mul_1_r. cbn [List.length].
  split; [lia|]. split; [reflexivity|]. split; [|reflexivity].
  apply backoff_delays_range with (N := maxRetries - 1); [exact Hd | exact Hrange | lia].
Qed.

Lemma retryWithBackoff_settles_witness :
  let run := retryWithBackoff (call_fn Script.pop) 3 250
               (Script.answers [Rejected Script.connectionReset;
                                Rejected Script.timedOut; Rejected Script.rateLimited;
                                Resolved 42%Z]) in
  outcome_of run = Rejected Script.rateLimited
  /\ waits_of (events_of run) = [250; 500]%Z
  /\ total_wait (events_of run) = 750%Z.
Proof.
  intros run.
  destruct (@retryWithBackoff_settles _ _ (@Script.pop Z) 3 250
              (Script.answers [Rejected Script.connectionReset;
                               Rejected Script.timedOut; Rejected Script.rateLimited;
                               Resolved 42%Z])
              [Script.connectionReset; Script.timedOut] (Rejected Script.rateLimited)
              ltac:(lia) ltac:(lia) ltac:(vm_compute; discriminate)
              eq_refl ltac:(repeat constructor) ltac:(simpl; lia)
              (or_intror eq_refl))
    as (H1 & _ & _ & H4 & _ & H5).
  split; [exact H1|]. split; [exact H4 | exact H5].
Defined.

(** ** The retries of getRoute and getTransactionStatus *)

Section RetryAwait.

Variables (W A T : Type) (ev : Outcome A -> Event) (f : W -> Outcome A * W).
Variable post : A -> Outcome T.
Variable fn : M W T.
Hypothesis fn_run :
  forall s,
    fn s = (match fst (f (world s)) with
            | Resolved a => post a
            | Rejected e => Rejected e
            end,
            {| world := snd (f (world s)); hook := hook s |},
            [ev (fst (f (world s)))]).
Variables (maxRetries : nat) (initialDelay : Z).

(** A run of the loop on a function that makes one awaited call and then
    computes: the call fails retryably with [es] and then settles to [r],
    and what the function makes of [r] ends the loop. *)
Lemma retry_await_run :
  forall es r remaining attempt lastError (s : Store W),
    fn_outcomes f (S (length es)) (world s) = map Rejected es ++ [r] ->
    Forall (fun e => isRetryable e = true) es ->
    length es < remaining ->
    attempt + remaining = maxRetries ->
    match (match r with Resolved a => post a | Rejected e => Rejected e end) with
    | Resolved _ => True
    | Rejected e => isRetryable e = false \/ S (length es) = remaining
    end ->
    let run := retry_loop fn maxRetries initialDelay remaining attempt lastError s in
    outcome_of run = match r with Resolved a => post a | Rejected e => Rejected e end
    /\ events_of run = retried_events ev initialDelay attempt es r
    /\ hook (store_of run) = hook s.
Proof.
  induction es as [|e es IH]; intros r remaining attempt lastError s Hout Hes Hlen Hsum Hend.
  - destruct remaining as [|remaining]; [simpl in Hlen; lia|].
    cbn [retry_loop]. unfold try_catch. rewrite fn_run.
    simpl in Hout. destruct (f (world s)) as [r0 w]. injection Hout as ->.
    cbn [fst snd].
    destruct (match r with Resolved a => post a | Rejected e => Rejected e end)
      as [v|e]; cbn.
    + repeat split.
    + assert (Hc : negb (isRetryable e) || Nat.eqb attempt (maxRetries - 1) = true).
      { destruct Hend as [Hn|Hl].
        - now rewrite Hn.
        - apply orb_true_iff. right. apply Nat.eqb_eq. simpl in Hl. lia. }
      rewrite Hc. cbn. repeat split.
  - destruct remaining as [|remaining]; [simpl in Hlen; lia|].
    cbn [retry_loop]. unfold try_catch. rewrite fn_run.
    cbn [fn_outcomes List.length map app] in Hout.
    destruct (f (world s)) as [r0 w] eqn:Hf.
    injection Hout as -> Hout. cbn [fst snd].
    apply Forall_cons_iff in Hes. destruct Hes as [He Hes'].
    assert (Hc : negb (isRetryable e) || Nat.eqb attempt (maxRetries - 1) = false).
    { rewrite He. simpl. apply Nat.eqb_neq. simpl in Hlen. lia. }
    rewrite Hc. unfold bind, sleep.
    specialize (IH r remaining (S attempt) e {| world := w; hook := hook s |}).
    cbn [world] in IH.
    specialize (IH Hout Hes' ltac:(simpl in Hlen; lia) ltac:(lia)).
    assert (Hend' : match (match r with Resolved a => post a | Rejected e0 => Rejected e0 end) with
                    | Resolved _ => True
                    | Rejected e0 => isRetryable e0 = false \/ S (length es) = remaining
                    end).
    { destruct (match r with Resolved a => post a | Rejected e0 => Rejected e0 end);
        [exact I|]. destruct Hend as [Hn|Hl]; [now left|right].
      simpl in Hl. lia. }
    specialize (IH Hend'). cbv zeta in IH.
    destruct (retry_loop fn maxRetries initialDelay remaining (S attempt) e
                {| world := w; hook := hook s |}) as [[r1 s1] ev1].
    cbn [outcome_of events_of store_of fst snd hook] in *.
    destruct IH as (-> & -> & ->). repeat split.
Qed.

End RetryAwait.

Lemma waits_of_retried_events (A : Type) (ev : Outcome A -> Event) (d : Z)
      (es : list Thrown) (r : Outcome A) :
  (forall o, waits_of [ev o] = []) ->
  forall attempt,
    waits_of (retried_events ev d attempt es r) = backoff_delays d attempt (length es).
Proof.
  intros Hev. induction es as [|e es IH]; intros attempt.
  - apply Hev.
  - cbn [retried_events List.length backoff_delays].
    change (ev (Rejected e) :: EvSleep (d * 2 ^ Z.of_nat attempt)
              :: retried_events ev d (S attempt) es r)
      with ([ev (Rejected e)] ++ [EvSleep (d * 2 ^ Z.of_nat attempt)]
              ++ retried_events ev d (S attempt) es r).
    rewrite !waits_of_app, Hev, IH. reflexivity.
Qed.

Lemma getRoute_fn_equation (W : Type) (env : Env W) (p : RouteParams) (s : Store W) :
  getRoute_fn env p s
  = (match fst (env_fetchRoute env p (world s)) with
     | Resolved res =>
         if negb (res_ok res)
         then Rejected (Error (or_else (errorData_error body_error res)
                                       (String.append "API Error: "
                                                      (decimal (res_status res)))))
         else res_json res
     | Rejected e => Rejected e
     end,
     {| world := snd (env_fetchRoute env p (world s)); hook := hook s |},
     [EvFetchRoute p (fst (env_fetchRoute env p (world s)))]).
Proof.
  unfold getRoute_fn, bind. rewrite await_run.
  destruct (env_fetchRoute env p (world s)) as [[res|e] w]; cbn [fst snd]; [|reflexivity].
  destruct (negb (res_ok res)); reflexivity.
Qed.

Lemma getTransactionStatus_fn_equation (W : Type) (env : Env W) (txHash : string)
      (q : StatusQuery) (s : Store W) :
  getTransactionStatus_fn env txHash q s
  = (match fst (env_fetchStatus env q (world s)) with
     | Resolved res =>
         if (res_status res =? 404)%Z
         then Resolved {| squidTransactionStatus := "ongoing";
                          ts_id := txHash;
                          ts_status := "pending";
                          ts_error := None |}
         else if negb (res_ok res)
         then Rejected (Error (or_else (errorData_error ts_error res)
                                       (String.append "Status API Error: "
                                                      (decimal (res_status res)))))
         else res_json res
     | Rejected e => Rejected e
     end,
     {| world := snd (env_fetchStatus env q (world s)); hook := hook s |},
     [EvFetchStatus q (fst (env_fetchStatus env q (world s)))]).
Proof.
  unfold getTransactionStatus_fn, bind. rewrite await_run.
  destruct (env_fetchStatus env q (world s)) as [[res|e] w]; cbn [fst snd]; [|reflexivity].
  destruct (res_status res =? 404)%Z; [reflexivity|].
  destruct (negb (res_ok res)); reflexivity.
Qed.

(** The events of [getRoute] are those of its retry loop. *)
Lemma getRoute_events (W : Type) (env : Env W) (params : RouteParams) (s : Store W) :
  events_of (getRoute env params s)
  = events_of (retryWithBackoff (getRoute_fn env params) 5 1000 s)
  /\ store_of (getRoute env params s)
     = store_of (retryWithBackoff (getRoute_fn env params) 5 1000 s).
Proof.
  unfold getRoute, retryWithBackoff_default, bind.
  change (requestParams_of params) with params.
  destruct (retryWithBackoff (getRoute_fn env params) 5 1000 s) as [[[body|e] s1] ev1];
    cbn [events_of store_of fst snd]; [|split; reflexivity].
  destruct (body_route body); cbn; rewrite app_nil_r; split; reflexivity.
Qed.

Lemma route_event_projections (p : RouteParams) (evs : list Event) :
  Forall (route_event p) evs ->
  Forall is_http evs
  /\ Forall (fun x => fst x = p) (route_fetches_of evs)
  /\ status_fetches_of evs = [].
Proof.
  induction 1 as [|e evs He _ (IH1 & IH2 & IH3)]; [repeat split; constructor|].
  destruct e; try contradiction He; cbn in He |- *.
  - repeat split; [constructor; [reflexivity|] | |]; assumption.
  - repeat split; [constructor; [reflexivity|] | constructor |]; assumption.
Qed.

(** [getRoute] only waits and sends its request. *)
Lemma getRoute_route_quiet (W : Type) (env : Env W) (params : RouteParams) :
  quiet (route_event params) (getRoute env params).
Proof.
  unfold getRoute, retryWithBackoff_default, retryWithBackoff.
  change (requestParams_of params) with params.
  apply quiet_bind.
  - apply quiet_retry_loop; [|intros; exact I].
    unfold getRoute_fn. apply quiet_bind.
    + apply quiet_await. intros r. reflexivity.
    + intros res. destruct (negb (res_ok res)); [apply quiet_throw | apply quiet_settle].
  - intros response. destruct (body_route response); [apply quiet_ret | apply quiet_throw].
Qed.


Lemma total_backoff_range (n : nat) :
  1 <= n <= 5 ->
  (0 <= fold_right Z.add 0 (backoff_delays 1000 0 (n - 1)) <= 15000)%Z.
Proof.
  intros Hn. rewrite total_backoff. change (Z.of_nat 0) with 0%Z.
  rewrite Z.pow_0_r, Z.mul_1_r.
  assert (H : (2 ^ Z.of_nat 0 <= 2 ^ Z.of_nat (n - 1) <= 2 ^ Z.of_nat 4)%Z)
    by (split; apply Z.pow_le_mono_r; lia).
  change (2 ^ Z.of_nat 0)%Z with 1%Z in H. change (2 ^ Z.of_nat 4)%Z with 16%Z in H.
  lia.
Qed.

(** The requests and waits of [getRoute]. *)
Lemma getRoute_shape (W : Type) (env : Env W) (params : RouteParams) (s : Store W) :
  let evs := events_of (getRoute env params s) in
  1 <= length (route_fetches_of evs) <= 5
  /\ waits_of evs = backoff_delays 1000 0 (length (route_fetches_of evs) - 1).
Proof.
  cbv zeta. destruct (getRoute_events env params s) as [-> _].
  unfold retryWithBackoff.
  apply (@retry_loop_shape W RouteBody _ route_fetches_of route_fetches_of_app
           (fun _ => eq_refl) (getRoute_fn env params)
           (fun s0 => ltac:(rewrite getRoute_fn_equation; reflexivity))
           (fun s0 => ltac:(rewrite getRoute_fn_equation; reflexivity))
           5 1000%Z 5 0 ThrownUndefined s eq_refl ltac:(lia)).
Qed.

(** X3 -- Every run of [getRoute]: it makes between one and five requests
    to the route endpoint and does nothing else but wait between them; every
    request carries the caller's [params] as they are, with no [collectFees]
    added ([FEE_BASIS_POINTS] is 0); the waits are 1000, 2000, 4000, 8000 ms
    in this order, one between two successive requests, at most 15000 ms in
    all; the hook's state is left as it was. *)
Theorem getRoute_footprint (W : Type) (env : Env W) (params : RouteParams) (s : Store W) :
  let run := getRoute env params s in
  let n := length (route_fetches_of (events_of run)) in
  1 <= n <= 5
  /\ Forall (route_event params) (events_of run)
  /\ Forall (fun x => fst x = params) (route_fetches_of (events_of run))
  /\ waits_of (events_of run) = backoff_delays 1000 0 (n - 1)
  /\ (0 <= total_wait (events_of run) <= 15000)%Z
  /\ hook (store_of run) = hook s.
Proof.
  cbv zeta. destruct (getRoute_route_quiet env params s) as [Hall Hhook].
  destruct (getRoute_shape env params s) as [Hn Hw].
  split; [exact Hn|]. split; [exact Hall|].
  split; [apply (route_event_projections Hall)|].
  split; [exact Hw|]. split; [|exact Hhook].
  unfold total_wait. rewrite Hw. now apply total_backoff_range.
Qed.

(** X4 -- [getRoute] when the request fails [k <= 4] times with retryable
    network errors and is then answered or fails for good: the requests and
    waits are the [k] failures, each followed by its wait of
    [1000 * 2^i] ms, and the last request.  If that one is answered with a
    success whose body has a route, the route is returned with its
    [quoteId] as [requestId]; if it fails with an error that is not
    retryable, or is the fifth request, its error is thrown as it is. *)
Theorem getRoute_retries (W : Type) (env : Env W) (params : RouteParams) (s : Store W)
        (es : list Thrown) (r : Outcome (Response RouteBody)) :
  fn_outcomes (env_fetchRoute env params) (S (length es)) (world s)
  = map Rejected es ++ [r] ->
  Forall (fun e => isRetryable e = true) es ->
  length es < 5 ->
  match r with
  | Resolved res => res_ok res = true
                    /\ exists body rt, res_json res = Resolved body
                                       /\ body_route body = Some rt
  | Rejected e => isRetryable e = false \/ length es = 4
  end ->
  let run := getRoute env params s in
  events_of run = retried_events (EvFetchRoute params) 1000 0 es r
  /\ total_wait (events_of run) = (1000 * (2 ^ Z.of_nat (length es) - 1))%Z
  /\ match r with
     | Resolved res =>
         forall body rt,
           res_json res = Resolved body -> body_route body = Some rt ->
           outcome_of run = Resolved {| route := rt; requestId := or_else (quoteId rt) "" |}
     | Rejected e => outcome_of run = Rejected e
     end.
Proof.
  intros Hout Hes Hlen Hend run.
  destruct (@retry_await_run W _ RouteBody (EvFetchRoute params)
              (env_fetchRoute env params)
              (fun res => if negb (res_ok res)
                          then Rejected (Error (or_else (errorData_error body_error res)
                                                        (String.append "API Error: "
                                                           (decimal (res_status res)))))
                          else res_json res)
              (getRoute_fn env params) (getRoute_fn_equation env params)
              5 1000%Z es r 5 0 ThrownUndefined s Hout Hes Hlen eq_refl)
    as (Ho & Hev & _).
  { destruct r as [res|e].
    - destruct Hend as (-> & body & rt & -> & _). exact I.
    - destruct Hend as [Hn|Hl]; [now left | right; lia]. }
  destruct (getRoute_events env params s) as [He _]. fold run in He.
  unfold retryWithBackoff in He. rewrite Hev in He.
  split; [exact He|]. split.
  - unfold total_wait. rewrite He, waits_of_retried_events by reflexivity.
    rewrite total_backoff. change (Z.of_nat 0) with 0%Z.
    now rewrite Z.pow_0_r, Z.mul_1_r.
  - subst run. unfold getRoute, retryWithBackoff_default, retryWithBackoff, bind.
    change (requestParams_of params) with params.
    revert Ho.
    destruct (retry_loop (getRoute_fn env params) 5 1000 5 0 ThrownUndefined s)
      as [[r1 s1] ev1]; cbn [outcome_of fst]; intros ->.
    destruct r as [res|e]; [|reflexivity].
    destruct Hend as (-> & _). intros body rt -> Hrt. cbn. rewrite Hrt. reflexivity.
Qed.

Lemma getRoute_retries_witness :
  let run := getRoute Script.env (bridge_request Script.wallet 10000000)
                      (Script.store initialState Scenario.flakyWorld) in
  outcome_of run = Resolved {| route := Script.sampleRoute; requestId := "q-7f3a" |}
  /\ total_wait (events_of run) = 3000%Z.
Proof.
  intros run.
  destruct (@getRoute_retries _ Script.env (bridge_request Script.wallet 10000000)
              (Script.store initialState Scenario.flakyWorld)
              [Script.connectionReset; Script.timedOut]
              (Script.okResponse {| body_route := Some Script.sampleRoute;
                                    body_error := None |})
              eq_refl ltac:(repeat constructor) ltac:(simpl; lia)
              (conj eq_refl (ex_intro _ _ (ex_intro _ _ (conj eq_refl eq_refl)))))
    as (_ & H2 & H3).
  split; [exact (H3 _ _ eq_refl eq_refl) | exact H2].
Defined.

(** ** getTransactionStatus *)

Lemma getTransactionStatus_run (W : Type) (env : Env W)
      (txHash requestId fromChainId toChainId : string) (s : Store W) :
  let q := {| q_transactionId := txHash; q_requestId := requestId;
              q_fromChainId := fromChainId; q_toChainId := toChainId |} in
  let loop := retryWithBackoff (getTransactionStatus_fn env txHash q) 5 1000 s in
  getTransactionStatus env txHash requestId fromChainId toChainId s
  = (outcome_of loop, store_of loop, events_of loop ++ [EvPoll (outcome_of loop)]).
Proof.
  cbv zeta. unfold getTransactionStatus, recorded, retryWithBackoff_default.
  now destruct (retryWithBackoff _ 5 1000 s) as [[r1 s1] ev1].
Qed.

Lemma status_event_projections (q : StatusQuery) (evs : list Event) :
  Forall (status_event q) evs ->
  Forall is_monitor evs
  /\ Forall (eq q) (status_fetches_of evs)
  /\ route_fetches_of evs = [].
Proof.
  induction 1 as [|e evs He _ (IH1 & IH2 & IH3)]; [repeat split; constructor|].
  destruct e; try contradiction He; cbn in He |- *.
  - repeat split; [constructor; [reflexivity|] | |]; assumption.
  - repeat split; [constructor; [reflexivity|] | constructor; [now symmetry|] |];
      assumption.
  - repeat split; [constructor; [reflexivity|] | |]; assumption.
Qed.

Section StatusShape.

Variable W : Type.
Variable env : Env W.
Variables txHash requestId fromChainId toChainId : string.

Let q := {| q_transactionId := txHash; q_requestId := requestId;
            q_fromChainId := fromChainId; q_toChainId := toChainId |}.

(** The requests and waits of one call of [getTransactionStatus]. *)
Lemma getTransactionStatus_shape (s : Store W) :
  let run := getTransactionStatus env txHash requestId fromChainId toChainId s in
  let n := length (status_fetches_of (events_of run)) in
  1 <= n <= 5
  /\ Forall (status_event q) (events_of run)
  /\ waits_of (events_of run) = backoff_delays 1000 0 (n - 1)
  /\ hook (store_of run) = hook s.
Proof.
  cbv zeta. rewrite getTransactionStatus_run. cbv zeta. fold q.
  unfold retryWithBackoff. cbn [events_of store_of fst snd].
  assert (Hq : quiet (status_event q)
                     (retry_loop (getTransactionStatus_fn env txHash q) 5 1000 5 0
                                 ThrownUndefined)).
  { apply quiet_retry_loop; [|intros; exact I].
    unfold getTransactionStatus_fn. apply quiet_bind.
    - apply quiet_await. intros r. reflexivity.
    - intros res. destruct (res_status res =? 404)%Z; [apply quiet_ret|].
      destruct (negb (res_ok res)); [apply quiet_throw | apply quiet_settle]. }
  destruct (Hq s) as [Hall Hhook].
  destruct (@retry_loop_shape W TransactionStatus _ status_fetches_of
              status_fetches_of_app (fun _ => eq_refl)
              (getTransactionStatus_fn env txHash q)
              (fun s0 => ltac:(rewrite getTransactionStatus_fn_equation; reflexivity))
              (fun s0 => ltac:(rewrite getTransactionStatus_fn_equation; reflexivity))
              5 1000%Z 5 0 ThrownUndefined s eq_refl ltac:(lia))
    as [Hn Hw].
  revert Hall Hhook Hn Hw.
  destruct (retry_loop (getTransactionStatus_fn env txHash q) 5 1000 5 0
                       ThrownUndefined s) as [[r1 s1] ev1].
  cbn [events_of store_of outcome_of fst snd]. intros Hall Hhook Hn Hw.
  autorewrite with events. cbn [status_fetches_of waits_of flat_map].
  rewrite !app_nil_r.
  split; [exact Hn|]. split; [|split; [exact Hw | exact Hhook]].
  apply Forall_app. split; [exact Hall | repeat constructor].
Qed.

Lemma getTransactionStatus_total_wait (s : Store W) :
  (0 <= total_wait (events_of
          (getTransactionStatus env txHash requestId fromChainId toChainId s))
   <= 15000)%Z.
Proof.
  destruct (getTransactionStatus_shape s) as (Hn & _ & Hw & _).
  unfold total_wait. rewrite Hw. now apply total_backoff_range.
Qed.

(** What a call settles to when the request fails retryably with [es] and
    is then answered with [res]. *)
Lemma getTransactionStatus_answered (s : Store W) (es : list Thrown)
      (res : Response TransactionStatus) :
  let run := getTransactionStatus env txHash requestId fromChainId toChainId s in
  fn_outcomes (env_fetchStatus env q) (S (length es)) (world s)
  = map Rejected es ++ [Resolved res] ->
  Forall (fun e => isRetryable e = true) es ->
  length es < 5 ->
  (res_status res <> 404%Z -> res_ok res = true -> exists st, res_json res = Resolved st) ->
  events_of run
  = retried_events (EvFetchStatus q) 1000 0 es (Resolved res) ++ [EvPoll (outcome_of run)]
  /\ outcome_of run
     = (if (res_status res =? 404)%Z
        then Resolved {| squidTransactionStatus := "ongoing";
                         ts_id := txHash;
                         ts_status := "pending";
                         ts_error := None |}
        else if negb (res_ok res)
        then Rejected (Error (or_else (errorData_error ts_error res)
                                      (String.append "Status API Error: "
                                                     (decimal (res_status res)))))
        else res_json res).
Proof.
  intros run Hout Hes Hlen Hbody. subst run.
  rewrite getTransactionStatus_run. fold q. cbv zeta.
  destruct (@retry_await_run W _ TransactionStatus (EvFetchStatus q)
              (env_fetchStatus env q)
              (fun res =>
                 if (res_status res =? 404)%Z
                 then Resolved {| squidTransactionStatus := "ongoing";
                                  ts_id := txHash;
                                  ts_status := "pending";
                                  ts_error := None |}
                 else if negb (res_ok res)
                 then Rejected (Error (or_else (errorData_error ts_error res)
                                               (String.append "Status API Error: "
                                                  (decimal (res_status res)))))
                 else res_json res)
              (getTransactionStatus_fn env txHash q)
              (getTransactionStatus_fn_equation env txHash q)
              5 1000%Z es (Resolved res) 5 0 ThrownUndefined s Hout Hes Hlen eq_refl)
    as (Ho & Hev & _).
  { destruct (res_status res =? 404)%Z eqn:H404; [exact I|].
    apply Z.eqb_neq in H404.
    destruct (res_ok res) eqn:Hok; cbn [negb].
    - destruct (Hbody H404 eq_refl) as [st ->]. exact I.
    - left. apply isRetryable_Error. }
  unfold retryWithBackoff. cbn [events_of outcome_of fst snd].
  fold (outcome_of (retry_loop (getTransactionStatus_fn env txHash q) 5 1000 5 0
                               ThrownUndefined s)).
  fold (events_of (retry_loop (getTransactionStatus_fn env txHash q) 5 1000 5 0
                              ThrownUndefined s)).
  rewrite Ho, Hev. split; reflexivity.
Qed.

End StatusShape.

(** X5 -- Every call of [getTransactionStatus]: it makes between one and
    five requests to the status endpoint, each with the query made of its
    four arguments, and does nothing else but wait between them, 1000, 2000,
    4000, 8000 ms in this order and at most 15000 ms in all; the hook's state
    is left as it was. *)
Theorem getTransactionStatus_footprint (W : Type) (env : Env W)
        (txHash requestId fromChainId toChainId : string) (s : Store W) :
  let q := {| q_transactionId := txHash; q_requestId := requestId;
              q_fromChainId := fromChainId; q_toChainId := toChainId |} in
  let run := getTransactionStatus env txHash requestId fromChainId toChainId s in
  let n := length (status_fetches_of (events_of run)) in
  1 <= n <= 5
  /\ Forall (status_event q) (events_of run)
  /\ Forall (eq q) (status_fetches_of (events_of run))
  /\ waits_of (events_of run) = backoff_delays 1000 0 (n - 1)
  /\ (0 <= total_wait (events_of run) <= 15000)%Z
  /\ hook (store_of run) = hook s.
Proof.
  cbv zeta.
  destruct (getTransactionStatus_shape env txHash requestId fromChainId toChainId s)
    as (Hn & Hall & Hw & Hh).
  split; [exact Hn|]. split; [exact Hall|].
  split; [apply (status_event_projections Hall)|].
  split; [exact Hw|]. split; [|exact Hh].
  apply getTransactionStatus_total_wait.
Qed.

(** X6 -- [getTransactionStatus] when the request fails [k <= 4] times with
    retryable network errors and is then answered: no further request is
    made, whatever the answer.  A response with status 404 gives the status
    [ongoing] / [pending] with the transaction hash as [id]; any other
    response that is not a success -- also one with status 429 -- throws an
    error with the body's [error] or 'Status API Error: <status>'; a success
    gives the body. *)
Theorem getTransactionStatus_response (W : Type) (env : Env W)
        (txHash requestId fromChainId toChainId : string) (s : Store W)
        (es : list Thrown) (res : Response TransactionStatus) :
  let q := {| q_transactionId := txHash; q_requestId := requestId;
              q_fromChainId := fromChainId; q_toChainId := toChainId |} in
  let run := getTransactionStatus env txHash requestId fromChainId toChainId s in
  fn_outcomes (env_fetchStatus env q) (S (length es)) (world s)
  = map Rejected es ++ [Resolved res] ->
  Forall (fun e => isRetryable e = true) es ->
  length es < 5 ->
  (res_status res <> 404%Z -> res_ok res = true -> exists st, res_json res = Resolved st) ->
  events_of run
  = retried_events (EvFetchStatus q) 1000 0 es (Resolved res) ++ [EvPoll (outcome_of run)]
  /\ (res_status res = 404%Z ->
      outcome_of run = Resolved {| squidTransactionStatus := "ongoing";
                                   ts_id := txHash;
                                   ts_status := "pending";
                                   ts_error := None |})
  /\ (res_status res <> 404%Z -> res_ok res = false ->
      outcome_of run
      = Rejected (Error (or_else (errorData_error ts_error res)
                                 (String.append "Status API Error: "
                                                (decimal (res_status res))))))
  /\ (forall st, res_status res <> 404%Z -> res_ok res = true ->
                 res_json res = Resolved st -> outcome_of run = Resolved st).
Proof.
  intros q run Hout Hes Hlen Hbody.
  destruct (@getTransactionStatus_answered W env txHash requestId fromChainId toChainId
              s es res Hout Hes Hlen Hbody) as [Hev Ho].
  fold run in Hev, Ho. rewrite Ho. rewrite Ho in Hev.
  split; [exact Hev|]. split; [|split].
  - intros ->. reflexivity.
  - intros H404 ->. apply Z.eqb_neq in H404. now rewrite H404.
  - intros st H404 -> ->. apply Z.eqb_neq in H404. now rewrite H404.
Qed.

Lemma getTransactionStatus_response_witness :
  (let run := getTransactionStatus Script.env "0xb22" "q-7f3a" CHAIN_IDS_BASE
                CHAIN_IDS_POLYGON (Script.store initialState Script.happyWorld) in
   outcome_of run = Resolved Script.pending)
  /\ (let run := getTransactionStatus Script.env "0xb22" "q-7f3a" CHAIN_IDS_BASE
                   CHAIN_IDS_POLYGON
                   (Script.store initialState
                      (Script.with_statusResponses Script.happyWorld
                         [Rejected Script.timedOut;
                          Resolved Scenario.tooManyRequests;
                          Script.okResponse (Script.statusBody "success")])) in
      outcome_of run = Rejected (Error "Too Many Requests")
      /\ length (status_fetches_of (events_of run)) = 2).
Proof.
  split; intros run.
  - destruct (@getTransactionStatus_response _ Script.env "0xb22" "q-7f3a"
                CHAIN_IDS_BASE CHAIN_IDS_POLYGON
                (Script.store initialState Script.happyWorld) []
                {| res_ok := false; res_status := 404;
                   res_json := Rejected (Error "Unexpected token") |}
                eq_refl ltac:(constructor) ltac:(simpl; lia)
                (fun H _ => False_ind _ (H eq_refl)))
      as (_ & H & _).
    exact (H eq_refl).
  - destruct (@getTransactionStatus_response _ Script.env "0xb22" "q-7f3a"
                CHAIN_IDS_BASE CHAIN_IDS_POLYGON
                (Script.store initialState
                   (Script.with_statusResponses Script.happyWorld
                      [Rejected Script.timedOut;
                       Resolved Scenario.tooManyRequests;
                       Script.okResponse (Script.statusBody "success")]))
                [Script.timedOut] Scenario.tooManyRequests
                eq_refl ltac:(repeat constructor) ltac:(simpl; lia)
                (fun _ H => False_ind _ (Bool.diff_false_true H)))
      as (Hev & _ & H & _).
    fold run in Hev, H. split.
    + exact (H ltac:(discriminate) eq_refl).
    + rewrite Hev. reflexivity.
Defined.

(** ** More on monitorTransaction *)


Section MonitorMore.

Variable W : Type.
Variable env : Env W.
Variables txHash requestId fromChainId toChainId : string.
Variable pollInterval : Z.

Let q := {| q_transactionId := txHash; q_requestId := requestId;
            q_fromChainId := fromChainId; q_toChainId := toChainId |}.

(** With a callback that throws, no iteration returns a status. *)
Lemma monitor_iteration_thrower (k0 : TransactionStatus -> W -> Outcome unit * W)
      (s : Store W) :
  (forall st w, exists e w', k0 st w = (Rejected e, w')) ->
  outcome_of (monitor_iteration env txHash requestId fromChainId toChainId
                                (Some (observer k0)) pollInterval s)
  = Resolved None.
Proof.
  intros Hk. unfold monitor_iteration, try_catch, bind.
  destruct (getTransactionStatus env txHash requestId fromChainId toChainId s)
    as [[[st|e] s1] ev1]; [|reflexivity].
  unfold observer. rewrite await_run.
  destruct (Hk st (world s1)) as (e & w' & ->). reflexivity.
Qed.

Lemma monitor_loop_thrower (k0 : TransactionStatus -> W -> Outcome unit * W)
      (remaining : nat) :
  (forall st w, exists e w', k0 st w = (Rejected e, w')) ->
  forall s : Store W,
    outcome_of (monitor_loop env txHash requestId fromChainId toChainId
                             (Some (observer k0)) pollInterval remaining s)
    = Rejected MonitorTimeoutError.
Proof.
  intros Hk. induction remaining as [|remaining IH]; intros s; [reflexivity|].
  cbn [monitor_loop]. unfold bind at 1.
  pose proof (monitor_iteration_thrower k0 s Hk) as Hit. revert Hit.
  destruct (monitor_iteration env txHash requestId fromChainId toChainId
                              (Some (observer k0)) pollInterval s) as [[r s1] ev1].
  cbn [outcome_of fst]. intros ->. specialize (IH s1). revert IH.
  destruct (monitor_loop env txHash requestId fromChainId toChainId
                         (Some (observer k0)) pollInterval remaining s1)
    as [[r2 s2] ev2].
  cbn [outcome_of fst]. exact (fun H => H).
Qed.

Variable k : option (TransactionStatus -> W -> Outcome unit * W).



(** An iteration whose request is answered with a success whose body is a
    terminal status returns it. *)
Lemma monitor_iteration_answered (s : Store W) (res : Response TransactionStatus)
      (w1 : W) (st : TransactionStatus) :
  env_fetchStatus env q (world s) = (Resolved res, w1) ->
  res_status res <> 404%Z ->
  res_ok res = true ->
  res_json res = Resolved st ->
  isTerminal (squidTransactionStatus st) = true ->
  (forall k0, k = Some k0 -> fst (k0 st w1) = Resolved tt) ->
  let run := monitor_iteration env txHash requestId fromChainId toChainId
                               (option_map (@observer W) k) pollInterval s in
  outcome_of run = Resolved (Some st)
  /\ events_of run
     = [EvFetchStatus q (Resolved res); EvPoll (Resolved st)]
       ++ match k with
          | Some _ => [EvOnStatusUpdate st (Resolved tt)]
          | None => []
          end.
Proof.
  intros Hf H404 Hok Hjson Hterm Hk. cbv zeta.
  destruct (@getTransactionStatus_answered W env txHash requestId fromChainId toChainId
              s [] res) as [Hev Ho].
  { cbn. fold q. now rewrite Hf. }
  { constructor. }
  { simpl. lia. }
  { intros _ _. now exists st. }
  apply Z.eqb_neq in H404. rewrite H404, Hok, Hjson in Ho. cbn [negb] in Ho.
  rewrite Ho in Hev. cbn [retried_events app] in Hev. fold q in Hev.
  assert (Hs : world (store_of (getTransactionStatus env txHash requestId fromChainId
                                                     toChainId s)) = w1).
  { rewrite getTransactionStatus_run. cbv zeta. cbn [store_of fst snd].
    unfold retryWithBackoff. cbn [retry_loop]. unfold try_catch.
    rewrite getTransactionStatus_fn_equation. fold q. rewrite Hf. cbn [fst snd].
    rewrite H404, Hok, Hjson. reflexivity. }
  unfold monitor_iteration, try_catch, bind.
  revert Hev Ho Hs.
  destruct (getTransactionStatus env txHash requestId fromChainId toChainId s)
    as [[r1 s1] ev1]; cbn [events_of outcome_of store_of fst snd].
  intros -> -> Hs.
  destruct k as [k0|]; cbn [option_map].
  - unfold observer. rewrite await_run. rewrite Hs.
    rewrite (Hk k0 eq_refl). rewrite Hterm. cbn. split; reflexivity.
  - rewrite Hterm. cbn. split; reflexivity.
Qed.

(** So does the run, after its first wait. *)
Lemma monitorTransaction_answered (s : Store W) (res : Response TransactionStatus)
      (w1 : W) (st : TransactionStatus) :
  env_fetchStatus env q (world s) = (Resolved res, w1) ->
  res_status res <> 404%Z ->
  res_ok res = true ->
  res_json res = Resolved st ->
  isTerminal (squidTransactionStatus st) = true ->
  (forall k0, k = Some k0 -> fst (k0 st w1) = Resolved tt) ->
  let run := monitorTransaction env txHash requestId fromChainId toChainId
                                (option_map (@observer W) k) pollInterval s in
  outcome_of run = Resolved st
  /\ events_of run
     = [EvSleep 3000; EvFetchStatus q (Resolved res); EvPoll (Resolved st)]
       ++ match k with
          | Some _ => [EvOnStatusUpdate st (Resolved tt)]
          | None => []
          end.
Proof.
  intros Hf H404 Hok Hjson Hterm Hk. cbv zeta.
  destruct (monitor_iteration_answered s Hf H404 Hok Hjson Hterm Hk) as [Ho Hev].
  unfold monitorTransaction, maxAttempts. cbn [monitor_loop].
  unfold bind, sleep. revert Ho Hev.
  destruct (monitor_iteration env txHash requestId fromChainId toChainId
                              (option_map (@observer W) k) pollInterval s)
    as [[r1 s1] ev1]; cbn [events_of outcome_of fst snd].
  intros -> ->. cbn. rewrite app_nil_r. split; reflexivity.
Qed.

End MonitorMore.

(** X7 -- [monitorTransaction] with a callback that throws on every call:
    the exception is swallowed with the poll, so no status is ever returned
    -- not even a terminal one.  The run polls 60 times and throws the
    timeout error. *)
Theorem monitorTransaction_throwing_callback (W : Type) (env : Env W)
        (txHash requestId fromChainId toChainId : string)
        (k0 : TransactionStatus -> W -> Outcome unit * W)
        (pollInterval : Z) (s : Store W) :
  (forall st w, exists e w', k0 st w = (Rejected e, w')) ->
  let run := monitorTransaction env txHash requestId fromChainId toChainId
                                (Some (observer k0)) pollInterval s in
  outcome_of run = Rejected MonitorTimeoutError
  /\ length (polls_of (events_of run)) = 60
  /\ updates_of (events_of run) = resolved_of (polls_of (events_of run)).
Proof.
  intros Hk run.
  assert (Ho : outcome_of run = Rejected MonitorTimeoutError).
  { subst run. unfold monitorTransaction, bind, sleep.
    pose proof (monitor_loop_thrower env txHash requestId fromChainId toChainId
                  pollInterval k0 maxAttempts Hk s) as H. revert H.
    destruct (monitor_loop env txHash requestId fromChainId toChainId
                           (Some (observer k0)) pollInterval maxAttempts s)
      as [[r1 s1] ev1]. exact (fun H => H). }
  destruct (monitorTransaction_spec env txHash requestId fromChainId toChainId
                                    (Some k0) pollInterval s) as [Hobs Hr].
  cbn [option_map] in Hobs, Hr. fold run in Hobs, Hr.
  split; [exact Ho|]. split.
  - destruct Hr as [(st & pre & H1 & _)|[_ H2]]; [congruence | exact H2].
  - rewrite updates_of_obs, Hobs.
    apply (updates_of_expected true).
Qed.

Lemma monitorTransaction_throwing_callback_witness :
  let run := monitorTransaction Script.env "0xb22" "q-7f3a" CHAIN_IDS_BASE CHAIN_IDS_POLYGON
               (Some (observer Scenario.thrower)) 5000
               (Script.store initialState Scenario.alwaysDoneWorld) in
  outcome_of run = Rejected MonitorTimeoutError
  /\ polls_of (events_of run) = repeat (Resolved (Script.statusBody "success")) 60.
Proof.
  intros run. split.
  - apply (@monitorTransaction_throwing_callback _ Script.env "0xb22" "q-7f3a"
             CHAIN_IDS_BASE CHAIN_IDS_POLYGON Scenario.thrower 5000
             (Script.store initialState Scenario.alwaysDoneWorld)).
    intros st w. exists (Error "listener failed"), w. reflexivity.
  - vm_compute. reflexivity.
Defined.



(** X9 -- [monitorTransaction] when the first request to the status
    endpoint is answered with a success whose body is a terminal status
    ([success], [partial_success], [needs_gas] or [failed]) and the
    callback, if there is one, returns: that status is returned -- also when
    it is [failed] -- after the initial wait of 3000 ms, one request, and one
    call of the callback; the poll interval is never waited. *)
Theorem monitorTransaction_first_terminal (W : Type) (env : Env W)
        (txHash requestId fromChainId toChainId : string)
        (k : option (TransactionStatus -> W -> Outcome unit * W))
        (pollInterval : Z) (s : Store W)
        (res : Response TransactionStatus) (w1 : W) (st : TransactionStatus) :
  let q := {| q_transactionId := txHash; q_requestId := requestId;
              q_fromChainId := fromChainId; q_toChainId := toChainId |} in
  let run := monitorTransaction env txHash requestId fromChainId toChainId
                                (option_map (@observer W) k) pollInterval s in
  env_fetchStatus env q (world s) = (Resolved res, w1) ->
  res_status res <> 404%Z ->
  res_ok res = true ->
  res_json res = Resolved st ->
  isTerminal (squidTransactionStatus st) = true ->
  (forall k0, k = Some k0 -> fst (k0 st w1) = Resolved tt) ->
  outcome_of run = Resolved st
  /\ waits_of (events_of run) = [3000%Z]
  /\ status_fetches_of (events_of run) = [q]
  /\ polls_of (events_of run) = [Resolved st]
  /\ updates_of (events_of run) = (if is_some k then [st] else []).
Proof.
  intros q run Hf H404 Hok Hjson Hterm Hk.
  destruct (@monitorTransaction_answered W env txHash requestId fromChainId toChainId
              pollInterval k s res w1 st Hf H404 Hok Hjson Hterm Hk) as [Ho Hev].
  fold q in Hev. fold run in Ho, Hev. rewrite Hev.
  split; [exact Ho|]. destruct k; repeat split.
Qed.

Lemma monitorTransaction_first_terminal_witness :
  let run := monitorTransaction Script.env "0xb22" "q-7f3a" CHAIN_IDS_BASE CHAIN_IDS_POLYGON
               (option_map (@observer Script.World) (Some Script.listener)) 5000
               (Script.store initialState
                  (Script.with_statusResponses Script.happyWorld
                     [Script.okResponse (Script.statusBody "failed")])) in
  outcome_of run = Resolved (Script.statusBody "failed")
  /\ waits_of (events_of run) = [3000%Z].
Proof.
  intros run.
  destruct (@monitorTransaction_first_terminal _ Script.env "0xb22" "q-7f3a"
              CHAIN_IDS_BASE CHAIN_IDS_POLYGON (Some Script.listener) 5000
              (Script.store initialState
                 (Script.with_statusResponses Script.happyWorld
                    [Script.okResponse (Script.statusBody "failed")]))
              {| res_ok := true; res_status := 200;
                 res_json := Resolved (Script.statusBody "failed") |}
              (Script.with_statusResponses Script.happyWorld [])
              (Script.statusBody "failed")
              eq_refl ltac:(discriminate) eq_refl eq_refl eq_refl
              ltac:(intros k0 [= <-]; reflexivity))
    as (H1 & H2 & _).
  split; [exact H1 | exact H2].
Defined.

(** ** Rules for the hook and for counts *)

Section Hoare.

Variable W : Type.

Lemma hoare_conseq (A : Type) (Pre Pre' : Hook -> Prop)
      (Post Post' : Outcome A -> Hook -> Prop) (c : M W A) :
  hoare Pre' c Post' ->
  (forall h, Pre h -> Pre' h) ->
  (forall r h, Post' r h -> Post r h) ->
  hoare Pre c Post.
Proof. intros Hc HPre HPost s HP. apply HPost, Hc, HPre, HP. Qed.

Lemma hoare_ret (A : Type) (a : A) (Pre : Hook -> Prop) (Post : Outcome A -> Hook -> Prop) :
  (forall h, Pre h -> Post (Resolved a) h) -> hoare Pre (ret (W:=W) a) Post.
Proof. intros H s HP. now apply H. Qed.

Lemma hoare_throw (A : Type) (e : Thrown) (Pre : Hook -> Prop)
      (Post : Outcome A -> Hook -> Prop) :
  (forall h, Pre h -> Post (Rejected e) h) -> hoare Pre (throw (W:=W) e) Post.
Proof. intros H s HP. now apply H. Qed.

Lemma hoare_settle (A : Type) (r : Outcome A) (Pre : Hook -> Prop)
      (Post : Outcome A -> Hook -> Prop) :
  (forall h, Pre h -> Post r h) -> hoare Pre (settle (W:=W) r) Post.
Proof. intros H s HP. now apply H. Qed.

Lemma hoare_bind (A B : Type) (c : M W A) (k : A -> M W B) (Pre : Hook -> Prop)
      (Mid : Outcome A -> Hook -> Prop) (Post : Outcome B -> Hook -> Prop) :
  hoare Pre c Mid ->
  (forall a, hoare (Mid (Resolved a)) (k a) Post) ->
  (forall e h, Mid (Rejected e) h -> Post (Rejected e) h) ->
  hoare Pre (bind c k) Post.
Proof.
  intros Hc Hk Hrej s HP. unfold bind. specialize (Hc s HP). revert Hc.
  destruct (c s) as [[[a|e] s1] ev1]; cbn [outcome_of store_of fst snd]; intros Hm.
  - specialize (Hk a s1 Hm). revert Hk.
    destruct (k a s1) as [[r s2] ev2]; cbn [outcome_of store_of fst snd].
    exact (fun H => H).
  - now apply Hrej.
Qed.

Lemma hoare_try_catch (A : Type) (c : M W A) (h : Thrown -> M W A) (Pre : Hook -> Prop)
      (Mid Post : Outcome A -> Hook -> Prop) :
  hoare Pre c Mid ->
  (forall e, hoare (Mid (Rejected e)) (h e) Post) ->
  (forall a k, Mid (Resolved a) k -> Post (Resolved a) k) ->
  hoare Pre (try_catch c h) Post.
Proof.
  intros Hc Hh Hres s HP. unfold try_catch. specialize (Hc s HP). revert Hc.
  destruct (c s) as [[[a|e] s1] ev1]; cbn [outcome_of store_of fst snd]; intros Hm.
  - now apply Hres.
  - specialize (Hh e s1 Hm). revert Hh.
    destruct (h e s1) as [[r s2] ev2]; cbn [outcome_of store_of fst snd].
    exact (fun H => H).
Qed.

Lemma hoare_setState (f : BridgeState -> BridgeState) (Pre : Hook -> Prop)
      (Post : Outcome unit -> Hook -> Prop) :
  (forall h, Pre h ->
             Post (Resolved tt) {| state := f (state h);
                                   walletAddress := walletAddress h;
                                   balance := balance h |}) ->
  hoare Pre (setState (W:=W) f) Post.
Proof. intros H s HP. now apply H. Qed.

(** A computation that leaves the hook alone keeps what holds of it. *)
Lemma hoare_quiet (A : Type) (X : Event -> Prop) (c : M W A) (Pre : Hook -> Prop)
      (Post : Outcome A -> Hook -> Prop) :
  quiet X c ->
  (forall r h, Pre h -> Post r h) ->
  hoare Pre c Post.
Proof.
  intros Hq H s HP. destruct (Hq s) as [_ Hh]. rewrite Hh. now apply H.
Qed.

End Hoare.

Section AtMost.

Variables (W X : Type) (proj : list Event -> list X).
Hypothesis proj_app : forall a b, proj (a ++ b) = proj a ++ proj b.
Hypothesis proj_nil : proj [] = [].

Lemma at_most_le (A : Type) (n m : nat) (c : M W A) :
  at_most proj n c -> n <= m -> at_most proj m c.
Proof. intros H Hle s. specialize (H s). lia. Qed.

Lemma at_most_ret (A : Type) (a : A) : at_most proj 0 (ret (W:=W) a).
Proof. intros s. cbn. now rewrite proj_nil. Qed.

Lemma at_most_throw (A : Type) (e : Thrown) : at_most proj 0 (throw (W:=W) (A:=A) e).
Proof. intros s. cbn. now rewrite proj_nil. Qed.

Lemma at_most_settle (A : Type) (r : Outcome A) : at_most proj 0 (settle (W:=W) r).
Proof. intros s. cbn. now rewrite proj_nil. Qed.

Lemma at_most_bind (A B : Type) (n m : nat) (c : M W A) (k : A -> M W B) :
  at_most proj n c -> (forall a, at_most proj m (k a)) -> at_most proj (n + m) (bind c k).
Proof.
  intros Hc Hk s. unfold bind. specialize (Hc s). revert Hc.
  destruct (c s) as [[[a|e] s1] ev1]; cbn [events_of snd]; intros Hc; [|lia].
  specialize (Hk a s1). revert Hk.
  destruct (k a s1) as [[r s2] ev2]; cbn [events_of snd]; intros Hk.
  rewrite proj_app, length_app. lia.
Qed.

Lemma at_most_try_catch (A : Type) (n m : nat) (c : M W A) (h : Thrown -> M W A) :
  at_most proj n c -> (forall e, at_most proj m (h e)) ->
  at_most proj (n + m) (try_catch c h).
Proof.
  intros Hc Hh s. unfold try_catch. specialize (Hc s). revert Hc.
  destruct (c s) as [[[a|e] s1] ev1]; cbn [events_of snd]; intros Hc; [lia|].
  specialize (Hh e s1). revert Hh.
  destruct (h e s1) as [[r s2] ev2]; cbn [events_of snd]; intros Hh.
  rewrite proj_app, length_app. lia.
Qed.

Lemma at_most_await (A : Type) (n : nat) (ev : Outcome A -> Event)
      (oracle : W -> Outcome A * W) :
  (forall r, length (proj [ev r]) <= n) -> at_most proj n (await ev oracle).
Proof. intros H s. rewrite await_run. apply H. Qed.

Lemma at_most_setState (n : nat) (f : BridgeState -> BridgeState) :
  (forall st, length (proj [EvSetState st]) <= n) -> at_most proj n (setState (W:=W) f).
Proof. intros H s. apply H. Qed.

Lemma proj_none (P : Event -> Prop) (evs : list Event) :
  (forall e, P e -> proj [e] = []) -> Forall P evs -> proj evs = [].
Proof.
  intros HP. induction 1 as [|e evs He _ IH]; [exact proj_nil|].
  change (e :: evs) with ([e] ++ evs). now rewrite proj_app, (HP e He), IH.
Qed.

Lemma at_most_quiet (A : Type) (P : Event -> Prop) (c : M W A) :
  quiet P c -> (forall e, P e -> proj [e] = []) -> at_most proj 0 c.
Proof.
  intros Hq HP s. destruct (Hq s) as [Hall _]. now rewrite (proj_none HP Hall).
Qed.

End AtMost.

(** ** The state that bridge leaves *)

Section BridgeState.

Variable W : Type.
Variable env : Env W.
Variables wallet amount : string.

Let any : Event -> Prop := fun _ => True.

Lemma bridge_ensureAllowance_quiet (r : Route) (signer : Signer) :
  quiet any (bridge_ensureAllowance env wallet r signer).
Proof.
  unfold bridge_ensureAllowance, checkAllowance.
  apply quiet_bind; [apply quiet_await; intros; exact I|]. intros a.
  apply quiet_bind; [apply quiet_settle|]. intros required.
  destruct (a <? required)%Z; [|apply quiet_ret].
  unfold approveToken.
  apply quiet_bind; [apply quiet_await; intros; exact I|]. intros tx.
  apply quiet_bind; [apply quiet_await; intros; exact I|]. intros u. apply quiet_ret.
Qed.

Lemma executeBridge_quiet (r : Route) (signer : Signer) :
  quiet any (executeBridge env r signer).
Proof.
  unfold executeBridge.
  apply quiet_bind; [apply quiet_await; intros; exact I|]. intros tx. apply quiet_ret.
Qed.

Lemma monitorTransaction_default_quiet (txHash requestId : string) :
  quiet any (monitorTransaction_default env txHash requestId CHAIN_IDS_BASE
               CHAIN_IDS_POLYGON (Some (fun _ => ret tt))).
Proof.
  unfold monitorTransaction_default.
  apply monitorTransaction_quiet; try (intros; exact I).
  intros f [= <-] st. apply quiet_ret.
Qed.

Lemma bridge_execute_state (r : Route) (requestId : string) (signer : Signer)
      (rt : option Route) :
  hoare (fun h => loading (state h) /\ route_ (state h) = rt)
        (bridge_execute env r requestId signer)
        (fun o h =>
           match o with
           | Resolved (tx, fin) =>
               squidTransactionStatus fin = "success"
               /\ state h = {| isLoading := false; error := None;
                               status := status_success;
                               txHash := Some (hash tx); route_ := rt |}
           | Rejected _ => loading (state h)
           end).
Proof.
  unfold bridge_execute.
  apply hoare_bind with (Mid := fun _ h => loading (state h) /\ route_ (state h) = rt);
    [|intros _|intros e h [H _]; exact H].
  { apply hoare_setState. intros h H. exact H. }
  apply hoare_bind with (Mid := fun _ h => loading (state h) /\ route_ (state h) = rt);
    [|intros tx|intros e h [H _]; exact H].
  { apply hoare_quiet with (X := any); [apply executeBridge_quiet | trivial]. }
  apply hoare_bind with (Mid := fun _ h => loading (state h) /\ route_ (state h) = rt
                                           /\ txHash (state h) = Some (hash tx));
    [|intros _|intros e h [H _]; exact H].
  { apply hoare_setState. intros h [H1 H2]. repeat split; try assumption; apply H1. }
  apply hoare_bind with (Mid := fun _ h => loading (state h) /\ route_ (state h) = rt
                                           /\ txHash (state h) = Some (hash tx));
    [|intros _|intros e h [H _]; exact H].
  { apply hoare_quiet with (X := any); [apply quiet_await; intros; exact I | trivial]. }
  apply hoare_bind with (Mid := fun _ h => loading (state h) /\ route_ (state h) = rt
                                           /\ txHash (state h) = Some (hash tx));
    [|intros _|intros e h [H _]; exact H].
  { apply hoare_setState. intros h H. exact H. }
  apply hoare_bind with (Mid := fun _ h => loading (state h) /\ route_ (state h) = rt
                                           /\ txHash (state h) = Some (hash tx));
    [|intros fin|intros e h [H _]; exact H].
  { apply hoare_quiet with (X := any); [apply monitorTransaction_default_quiet | trivial]. }
  destruct (String.eqb (squidTransactionStatus fin) "success") eqn:Hs.
  - apply String.eqb_eq in Hs.
    apply hoare_bind with (Mid := fun o h =>
             match o with
             | Resolved _ =>
                 state h = {| isLoading := false; error := None; status := status_success;
                              txHash := Some (hash tx); route_ := rt |}
             | Rejected _ => False
             end);
      [|intros _|intros e h []].
    + apply hoare_setState. intros h ([_ H1] & H2 & H3). cbn [state].
      unfold set_success. now rewrite H1, H2, H3.
    + apply hoare_ret. intros h H. split; assumption.
  - apply hoare_throw. intros h [H _]. exact H.
Qed.

Lemma bridge_try_state :
  hoare (fun h => loading (state h))
        (bridge_try env wallet amount)
        (fun o h =>
           match o with
           | Resolved (tx, fin) =>
               squidTransactionStatus fin = "success"
               /\ exists r, state h = {| isLoading := false; error := None;
                                         status := status_success;
                                         txHash := Some (hash tx); route_ := Some r |}
           | Rejected _ => loading (state h)
           end).
Proof.
  unfold bridge_try.
  apply hoare_bind with (Mid := fun _ h => loading (state h)); [|intros signer|trivial].
  { apply hoare_quiet with (X := any); [apply quiet_await; intros; exact I | trivial]. }
  apply hoare_bind with (Mid := fun _ h => loading (state h)); [|intros _|trivial].
  { apply hoare_setState. intros h H. exact H. }
  apply hoare_bind with (Mid := fun _ h => loading (state h)); [|intros amountInWei|trivial].
  { apply hoare_settle. trivial. }
  apply hoare_bind with (Mid := fun _ h => loading (state h)); [|intros rr|trivial].
  { apply hoare_quiet with (X := any); [|trivial].
    apply getRoute_quiet; intros; exact I. }
  apply hoare_bind with (Mid := fun _ h => loading (state h)
                                           /\ route_ (state h) = Some (route rr));
    [|intros _|intros e h [H _]; exact H].
  { apply hoare_setState. intros h H. split; [exact H | reflexivity]. }
  apply hoare_bind with (Mid := fun _ h => loading (state h)
                                           /\ route_ (state h) = Some (route rr));
    [|intros _|intros e h [H _]; exact H].
  { apply hoare_setState. intros h H. exact H. }
  apply hoare_bind with (Mid := fun _ h => loading (state h)
                                           /\ route_ (state h) = Some (route rr));
    [|intros _|intros e h [H _]; exact H].
  { apply hoare_quiet with (X := any); [apply bridge_ensureAllowance_quiet | trivial]. }
  eapply hoare_conseq; [apply bridge_execute_state | intros h H; exact H |].
  intros [[tx fin]|e] h H; [|exact H].
  destruct H as [H1 H2]. split; [exact H1 | now exists (route rr)].
Qed.

(** The outcome and the state of a run with a wallet connected. *)
Lemma bridge_state (s : Store W) :
  truthy (walletAddress (hook s)) = Some wallet ->
  env_ethereum env (world s) = true ->
  let run := bridge env amount s in
  match outcome_of run with
  | Resolved (tx, fin) =>
      squidTransactionStatus fin = "success"
      /\ exists r, state (hook (store_of run))
                   = {| isLoading := false; error := None; status := status_success;
                        txHash := Some (hash tx); route_ := Some r |}
  | Rejected err =>
      (exists e, err = ThrownError e
                 /\ isLoading (state (hook (store_of run))) = false
                 /\ error (state (hook (store_of run))) = Some (bridge_errorMessage e)
                 /\ status (state (hook (store_of run))) = status_error)
      \/ (err = Error "Cannot read properties of undefined (reading 'code')"
          /\ loading (state (hook (store_of run))))
  end.
Proof.
  intros Hw He. cbv zeta. rewrite bridge_unfold, Hw, He.
  assert (H : hoare (fun _ => True)
                (bind (setState start_loading)
                      (fun _ => try_catch (bridge_try env wallet amount) (@bridge_catch W)))
                (fun o h =>
                   match o with
                   | Resolved (tx, fin) =>
                       squidTransactionStatus fin = "success"
                       /\ exists r, state h
                                    = {| isLoading := false; error := None;
                                         status := status_success;
                                         txHash := Some (hash tx); route_ := Some r |}
                   | Rejected err =>
                       (exists e, err = ThrownError e
                                  /\ isLoading (state h) = false
                                  /\ error (state h) = Some (bridge_errorMessage e)
                                  /\ status (state h) = status_error)
                       \/ (err = Error "Cannot read properties of undefined (reading 'code')"
                           /\ loading (state h))
                   end)).
  { apply hoare_bind with (Mid := fun o h =>
             match o with Resolved _ => loading (state h) | Rejected _ => False end);
      [|intros _|intros e h []].
    - apply hoare_setState. intros h _. split; reflexivity.
    - eapply hoare_try_catch; [apply bridge_try_state| |].
      + intros [|e]; cbn [bridge_catch].
        * apply hoare_throw. intros h Hl. right. split; [reflexivity | exact Hl].
        * apply hoare_bind with (Mid := fun o h =>
                   match o with
                   | Resolved _ => isLoading (state h) = false
                                   /\ error (state h) = Some (bridge_errorMessage e)
                                   /\ status (state h) = status_error
                   | Rejected _ => False
                   end); [|intros _|intros e0 h []].
          -- apply hoare_setState. intros h _. repeat split.
          -- apply hoare_throw. intros h Hs. left. now exists e.
      + intros [tx fin] h Hr. exact Hr. }
  exact (H s I).
Qed.

End BridgeState.

(** X10 -- A run of [bridge] that returns [{ tx, finalStatus }]: the final
    status is [success] -- a run whose monitoring ends with
    [partial_success], [needs_gas] or [failed] does not return -- and the
    state it leaves has [status] success, [isLoading] false, no [error], the
    hash of the returned transaction as [txHash] and a route. *)
Theorem bridge_success_state (W : Type) (env : Env W) (amount : string) (s : Store W)
        (tx : TransactionResponse) (fin : TransactionStatus) :
  let run := bridge env amount s in
  outcome_of run = Resolved (tx, fin) ->
  squidTransactionStatus fin = "success"
  /\ exists r, state (hook (store_of run))
               = {| isLoading := false; error := None; status := status_success;
                    txHash := Some (hash tx); route_ := Some r |}.
Proof.
  intros run Ho.
  destruct (truthy (walletAddress (hook s))) as [wallet|] eqn:Hw.
  2:{ subst run. rewrite bridge_unfold, Hw in Ho. discriminate Ho. }
  destruct (env_ethereum env (world s)) eqn:He.
  2:{ subst run. rewrite bridge_unfold, Hw, He in Ho. discriminate Ho. }
  pose proof (@bridge_state W env wallet amount s Hw He) as H. cbv zeta in H.
  fold run in H. rewrite Ho in H. exact H.
Qed.

Lemma bridge_success_state_witness :
  let run := bridge Script.env "10" (Script.store initialState Script.happyWorld) in
  exists r, state (hook (store_of run))
            = {| isLoading := false; error := None; status := status_success;
                 txHash := Some "0xb22"; route_ := Some r |}.
Proof.
  intros run.
  apply (@bridge_success_state _ Script.env "10"
           (Script.store initialState Script.happyWorld)
           {| hash := "0xb22" |} (Script.statusBody "success")).
  vm_compute. reflexivity.
Defined.

(** X11 -- A run of [bridge] with a wallet connected that throws.  Either
    the error thrown is the error object that a step failed with (or raised),
    and the state is left with [status] error, [isLoading] false and that
    error's message as [error]: 'Transaction rejected by user' for code 4001,
    'Insufficient funds for transaction' for code INSUFFICIENT_FUNDS, else
    the error's own message, else 'Bridge transaction failed'.  Or a step
    failed with [undefined]: the handler itself throws a TypeError on reading
    [error.code], before it sets anything, and the session is left loading,
    with no error. *)
Theorem bridge_failure_state (W : Type) (env : Env W) (amount : string) (s : Store W)
        (wallet : string) (err : Thrown) :
  let run := bridge env amount s in
  truthy (walletAddress (hook s)) = Some wallet ->
  env_ethereum env (world s) = true ->
  outcome_of run = Rejected err ->
  (exists e, err = ThrownError e
             /\ isLoading (state (hook (store_of run))) = false
             /\ error (state (hook (store_of run))) = Some (bridge_errorMessage e)
             /\ status (state (hook (store_of run))) = status_error)
  \/ (err = Error "Cannot read properties of undefined (reading 'code')"
      /\ isLoading (state (hook (store_of run))) = true
      /\ error (state (hook (store_of run))) = None).
Proof.
  intros run Hw He Ho.
  pose proof (@bridge_state W env wallet amount s Hw He) as H. cbv zeta in H.
  fold run in H. rewrite Ho in H. exact H.
Qed.

Lemma bridge_failure_state_witness :
  (let run := bridge Script.env "10" (Script.store initialState Scenario.rejectingWorld) in
   error (state (hook (store_of run))) = Some "Transaction rejected by user"
   /\ status (state (hook (store_of run))) = status_error)
  /\ (let run := bridge Script.env "10" (Script.store initialState Scenario.silentWorld) in
      isLoading (state (hook (store_of run))) = true).
Proof.
  split; intros run.
  - destruct (@bridge_failure_state _ Script.env "10"
                (Script.store initialState Scenario.rejectingWorld) Script.wallet
                (ThrownError Scenario.userRejected) eq_refl eq_refl)
      as [(e & He & _ & H2 & H3)|[He _]].
    + vm_compute. reflexivity.
    + injection He as <-. split; [exact H2 | exact H3].
    + discriminate He.
  - destruct (@bridge_failure_state _ Script.env "10"
                (Script.store initialState Scenario.silentWorld) Script.wallet
                (Error "Cannot read properties of undefined (reading 'code')")
                eq_refl eq_refl)
      as [(e & He & H1 & _)|(_ & H1 & _)].
    + vm_compute. reflexivity.
    + vm_compute in H1. discriminate H1.
    + exact H1.
Defined.

(** ** What bridge asks the wallet to sign *)

Lemma is_http_unsigned (e : Event) : is_http e -> signature_event e = false.
Proof. destruct e; cbv; intros H; try discriminate H; reflexivity. Qed.

Lemma is_monitor_unsigned (e : Event) : is_monitor e -> signature_event e = false.
Proof. destruct e; cbv; intros H; try discriminate H; reflexivity. Qed.

Section BridgeCount.

Variables (W X : Type) (env : Env W) (proj : list Event -> list X) (a b : nat).
Hypothesis proj_app : forall x y, proj (x ++ y) = proj x ++ proj y.
Hypothesis proj_nil : proj [] = [].
Hypothesis proj_plain : forall e, signature_event e = false -> proj [e] = [].
Hypothesis proj_approve :
  forall sg t sp am r, length (proj [EvApprove sg t sp am r]) <= a.
Hypothesis proj_send :
  forall sg tx r, length (proj [EvSendTransaction sg tx r]) <= b.

Lemma count_await (A : Type) (ev : Outcome A -> Event) (oracle : W -> Outcome A * W) :
  (forall r, signature_event (ev r) = false) -> at_most proj 0 (await ev oracle).
Proof.
  intros H. apply at_most_await. intros r. rewrite proj_plain by apply H. cbn. lia.
Qed.

Lemma count_setState (f : BridgeState -> BridgeState) :
  at_most proj 0 (setState (W:=W) f).
Proof.
  apply at_most_setState. intros st. rewrite proj_plain by reflexivity. cbn. lia.
Qed.

Lemma count_bind (A B : Type) (n m : nat) (c : M W A) (k : A -> M W B) :
  at_most proj n c -> (forall x, at_most proj m (k x)) -> at_most proj (n + m) (bind c k).
Proof. now apply at_most_bind. Qed.

Lemma bridge_ensureAllowance_count (wallet : string) (r : Route) (signer : Signer) :
  at_most proj a (bridge_ensureAllowance env wallet r signer).
Proof.
  unfold bridge_ensureAllowance, checkAllowance.
  apply at_most_le with (n := 0 + (0 + a)); [|lia].
  apply count_bind; [apply count_await; reflexivity|]. intros al.
  apply count_bind; [now apply at_most_settle|]. intros required.
  destruct (al <? required)%Z;
    [|apply at_most_le with (n := 0); [now apply at_most_ret | lia]].
  unfold approveToken.
  apply at_most_le with (n := a + (0 + 0)); [|lia].
  apply count_bind; [apply at_most_await; apply proj_approve|]. intros tx.
  apply count_bind; [apply count_await; reflexivity|]. intros u.
  now apply at_most_ret.
Qed.

Lemma bridge_execute_count (r : Route) (requestId : string) (signer : Signer) :
  at_most proj b (bridge_execute env r requestId signer).
Proof.
  unfold bridge_execute.
  apply at_most_le with (n := 0 + ((b + 0) + (0 + (0 + (0 + (0 + (0 + 0))))))); [|lia].
  apply count_bind; [apply count_setState|]. intros _.
  apply count_bind.
  { unfold executeBridge.
    apply count_bind; [apply at_most_await; apply proj_send|]. intros tx.
    now apply at_most_ret. }
  intros tx.
  apply count_bind; [apply count_setState|]. intros _.
  apply count_bind; [apply count_await; reflexivity|]. intros _.
  apply count_bind; [apply count_setState|]. intros _.
  apply count_bind.
  { apply at_most_quiet with (P := is_monitor); try assumption.
    - unfold monitorTransaction_default. apply monitorTransaction_quiet;
        try (intros; reflexivity).
      intros f [= <-] st. apply quiet_ret.
    - intros e He. apply proj_plain, is_monitor_unsigned, He. }
  intros fin.
  destruct (String.eqb (squidTransactionStatus fin) "success").
  - apply count_bind; [apply count_setState|]. intros _. now apply at_most_ret.
  - apply at_most_le with (n := 0); [now apply at_most_throw | lia].
Qed.

Lemma bridge_try_count (wallet amount : string) :
  at_most proj (a + b) (bridge_try env wallet amount).
Proof.
  unfold bridge_try.
  apply at_most_le with (n := 0 + (0 + (0 + (0 + (0 + (0 + (a + b))))))); [|lia].
  apply count_bind; [apply count_await; reflexivity|]. intros signer.
  apply count_bind; [apply count_setState|]. intros _.
  apply count_bind; [now apply at_most_settle|]. intros amountInWei.
  apply count_bind.
  { apply at_most_quiet with (P := is_http); try assumption.
    - apply getRoute_quiet; intros; reflexivity.
    - intros e He. apply proj_plain, is_http_unsigned, He. }
  intros rr.
  apply count_bind; [apply count_setState|]. intros _.
  apply count_bind; [apply count_setState|]. intros _.
  apply count_bind; [apply bridge_ensureAllowance_count|]. intros _.
  apply bridge_execute_count.
Qed.

Lemma bridge_count (amount : string) (s : Store W) :
  length (proj (events_of (bridge env amount s))) <= a + b.
Proof.
  rewrite bridge_unfold.
  destruct (truthy (walletAddress (hook s))) as [wallet|];
    [|cbn; rewrite proj_nil; cbn; lia].
  destruct (env_ethereum env (world s)); [|cbn; rewrite proj_nil; cbn; lia].
  assert (H : at_most proj (0 + ((a + b) + 0))
                (bind (setState start_loading)
                      (fun _ => try_catch (bridge_try env wallet amount)
                                          (@bridge_catch W)))).
  { apply count_bind; [apply count_setState|]. intros _.
    apply at_most_try_catch; [assumption | apply bridge_try_count|].
    intros [|e]; cbn [bridge_catch]; [now apply at_most_throw|].
    apply at_most_le with (n := 0 + 0); [|lia].
    apply count_bind; [apply count_setState|]. intros _. now apply at_most_throw. }
  specialize (H s). lia.
Qed.

End BridgeCount.

(** X12 -- Every run of [bridge], however it ends: at most one approval and
    at most one bridge transaction are sent to the wallet for signature, and
    nothing else is. *)
Theorem bridge_signs_once (W : Type) (env : Env W) (amount : string) (s : Store W) :
  let run := bridge env amount s in
  length (approvals_of (events_of run)) <= 1
  /\ length (sends_of (events_of run)) <= 1
  /\ length (filter signature_event (events_of run)) <= 2.
Proof.
  cbv zeta. split; [|split].
  - apply (@bridge_count W _ env approvals_of 1 0 approvals_of_app eq_refl).
    + intros e He. destruct e; try discriminate He; reflexivity.
    + intros. cbn. lia.
    + intros. cbn. lia.
  - apply (@bridge_count W _ env sends_of 0 1 sends_of_app eq_refl).
    + intros e He. destruct e; try discriminate He; reflexivity.
    + intros. cbn. lia.
    + intros. cbn. lia.
  - apply (@bridge_count W _ env (filter signature_event) 1 1
             (filter_app signature_event) eq_refl).
    + intros e He. cbn. now rewrite He.
    + intros. cbn. lia.
    + intros. cbn. lia.
Qed.

(** ** Rules for the events of a computation *)

Section Only.

Variable W : Type.
Variable P : Event -> Prop.

Lemma only_ret (A : Type) (a : A) : only P (ret (W:=W) a).
Proof. intros s. constructor. Qed.

Lemma only_throw (A : Type) (e : Thrown) : only P (throw (W:=W) (A:=A) e).
Proof. intros s. constructor. Qed.

Lemma only_bind (A B : Type) (c : M W A) (k : A -> M W B) :
  only P c -> (forall a, only P (k a)) -> only P (bind c k).
Proof.
  intros Hc Hk s. unfold bind. specialize (Hc s). revert Hc.
  destruct (c s) as [[[a|e] s1] ev1]; cbn [events_of snd]; intros Hc; [|exact Hc].
  specialize (Hk a s1). revert Hk.
  destruct (k a s1) as [[r s2] ev2]; cbn [events_of snd]; intros Hk.
  apply Forall_app. split; assumption.
Qed.

(** After a synchronous call, what follows runs on the value it gave. *)
Lemma only_settle_bind (A B : Type) (r : Outcome A) (k : A -> M W B) :
  (forall a, r = Resolved a -> only P (k a)) -> only P (bind (settle r) k).
Proof.
  intros Hk s. unfold bind, settle. destruct r as [a|e]; [|constructor].
  specialize (Hk a eq_refl s). revert Hk.
  destruct (k a s) as [[r s2] ev2]; cbn [events_of snd app]. exact (fun H => H).
Qed.

Lemma only_try_catch (A : Type) (c : M W A) (h : Thrown -> M W A) :
  only P c -> (forall e, only P (h e)) -> only P (try_catch c h).
Proof.
  intros Hc Hh s. unfold try_catch. specialize (Hc s). revert Hc.
  destruct (c s) as [[[a|e] s1] ev1]; cbn [events_of snd]; intros Hc; [exact Hc|].
  specialize (Hh e s1). revert Hh.
  destruct (h e s1) as [[r s2] ev2]; cbn [events_of snd]; intros Hh.
  apply Forall_app. split; assumption.
Qed.

Lemma only_setState (f : BridgeState -> BridgeState) :
  (forall st, P (EvSetState st)) -> only P (setState (W:=W) f).
Proof. intros H s. repeat constructor. apply H. Qed.

Lemma only_quiet (A : Type) (Q : Event -> Prop) (c : M W A) :
  quiet Q c -> (forall e, Q e -> P e) -> only P c.
Proof.
  intros Hq HQ s. destruct (Hq s) as [Hall _].
  eapply Forall_impl; [exact HQ | exact Hall].
Qed.

End Only.

(** ** fetchRoute *)

Lemma fetchRoute_unfold (W : Type) (env : Env W) (amount : string) (s : Store W) :
  fetchRoute env amount s
  = match truthy (walletAddress (hook s)) with
    | Some wallet =>
        bind (setState set_loading)
             (fun _ => try_catch (fetchRoute_try env wallet amount)
                                 (@fetchRoute_catch W)) s
    | None => (Rejected (Error "Wallet not connected"), s, [])
    end.
Proof.
  unfold fetchRoute at 1. unfold bind at 1. cbn [getHook].
  destruct (truthy (walletAddress (hook s))) as [wallet|]; cbn [throw app]; [|reflexivity].
  now destruct (bind (setState set_loading)
                     (fun _ => try_catch (fetchRoute_try env wallet amount)
                                         (@fetchRoute_catch W)) s)
    as [[r s1] ev1].
Qed.

Section FetchRoute.

Variable W : Type.
Variable env : Env W.
Variables wallet amount : string.

Lemma fetchRoute_only :
  only (quote_event env wallet amount)
       (bind (setState set_loading)
             (fun _ => try_catch (fetchRoute_try env wallet amount)
                                 (@fetchRoute_catch W))).
Proof.
  apply only_bind; [apply only_setState; intros; exact I|]. intros _.
  apply only_try_catch.
  - unfold fetchRoute_try. apply only_settle_bind. intros a Ha.
    apply only_bind.
    + apply only_quiet with (Q := route_event (bridge_request wallet a));
        [apply getRoute_route_quiet|].
      intros e He. destruct e; try contradiction He; cbn in He |- *; [exact I|].
      exists a. split; [exact Ha | exact He].
    + intros rr. apply only_bind; [apply only_setState; intros; exact I|].
      intros _. apply only_ret.
  - intros [|e]; cbn [fetchRoute_catch]; [apply only_throw|].
    apply only_bind; [apply only_setState; intros; exact I|]. intros _.
    apply only_throw.
Qed.

Lemma fetchRoute_requests_le :
  at_most route_fetches_of 5
          (bind (setState set_loading)
                (fun _ => try_catch (fetchRoute_try env wallet amount)
                                    (@fetchRoute_catch W))).
Proof.
  apply at_most_le with (n := 0 + ((0 + (5 + (0 + 0))) + (0 + 0))); [|lia].
  apply at_most_bind; [apply route_fetches_of_app| |].
  { apply at_most_setState. intros. cbn. lia. }
  intros _. apply at_most_try_catch; [apply route_fetches_of_app| |].
  - unfold fetchRoute_try.
    apply at_most_bind; [apply route_fetches_of_app| |].
    { now apply at_most_settle. }
    intros a. apply at_most_bind; [apply route_fetches_of_app| |].
    { intros s. apply (getRoute_shape env (bridge_request wallet a) s). }
    intros rr. apply at_most_bind; [apply route_fetches_of_app| |].
    { apply at_most_setState. intros. cbn. lia. }
    intros _. now apply at_most_ret.
  - intros [|e]; cbn [fetchRoute_catch].
    + apply at_most_le with (n := 0); [now apply at_most_throw | lia].
    + apply at_most_bind; [apply route_fetches_of_app| |].
      { apply at_most_setState. intros. cbn. lia. }
      intros _. now apply at_most_throw.
Qed.

Lemma fetchRoute_hoare (st0 : BridgeState) :
  hoare (fun h => state h = st0)
        (bind (setState set_loading)
              (fun _ => try_catch (fetchRoute_try env wallet amount)
                                  (@fetchRoute_catch W)))
        (fun o h =>
           match o with
           | Resolved r =>
               state h = {| isLoading := false; error := None; status := status st0;
                            txHash := txHash st0; route_ := Some r |}
           | Rejected err =>
               (exists e, err = ThrownError e
                          /\ state h = {| isLoading := false;
                                          error := Some (message_or e "Failed to fetch route");
                                          status := status_error;
                                          txHash := txHash st0; route_ := route_ st0 |})
               \/ (err = Error "Cannot read properties of undefined (reading 'message')"
                   /\ state h = set_loading st0)
           end).
Proof.
  apply hoare_bind with (Mid := fun o h =>
           match o with Resolved _ => state h = set_loading st0 | Rejected _ => False end);
    [|intros _|intros e h []].
  { apply hoare_setState. intros h ->. reflexivity. }
  apply hoare_try_catch with (Mid := fun o h =>
           match o with
           | Resolved r =>
               state h = {| isLoading := false; error := None; status := status st0;
                            txHash := txHash st0; route_ := Some r |}
           | Rejected _ => state h = set_loading st0
           end).
  - unfold fetchRoute_try.
    apply hoare_bind with (Mid := fun _ h => state h = set_loading st0);
      [|intros a|trivial].
    { apply hoare_settle. trivial. }
    apply hoare_bind with (Mid := fun _ h => state h = set_loading st0);
      [|intros rr|trivial].
    { apply hoare_quiet with (X := route_event (bridge_request wallet a));
        [apply getRoute_route_quiet | trivial]. }
    apply hoare_bind with (Mid := fun o h =>
             match o with
             | Resolved _ =>
                 state h = {| isLoading := false; error := None; status := status st0;
                              txHash := txHash st0; route_ := Some (route rr) |}
             | Rejected _ => False
             end); [|intros _|intros e h []].
    + apply hoare_setState. intros h ->. reflexivity.
    + apply hoare_ret. trivial.
  - intros [|e]; cbn [fetchRoute_catch].
    + apply hoare_throw. intros h Hs. right. split; [reflexivity | exact Hs].
    + apply hoare_bind with (Mid := fun o h =>
               match o with
               | Resolved _ =>
                   state h = {| isLoading := false;
                                error := Some (message_or e "Failed to fetch route");
                                status := status_error;
                                txHash := txHash st0; route_ := route_ st0 |}
               | Rejected _ => False
               end); [|intros _|intros e0 h []].
      * apply hoare_setState. intros h ->. reflexivity.
      * apply hoare_throw. intros h Hs. left. now exists e.
  - trivial.
Qed.

End FetchRoute.

Lemma quote_event_no_wallet (W : Type) (env : Env W) (wallet amount : string)
      (evs : list Event) :
  Forall (quote_event env wallet amount) evs -> filter wallet_event evs = [].
Proof.
  induction 1 as [|e evs He _ IH]; [reflexivity|].
  destruct e; try contradiction He; cbn; exact IH.
Qed.

(** X13 -- Every call of [fetchRoute].  Without a connected wallet it
    throws 'Wallet not connected' and does nothing -- it does not need the
    wallet's provider, only the address.  With one, all it does is set the
    state, wait, and send at most five requests to the route endpoint, each
    with the body that [bridge] sends for this amount; it never asks the
    wallet for a signer, an allowance, an approval or a transaction. *)
Theorem fetchRoute_footprint (W : Type) (env : Env W) (amount : string) (s : Store W) :
  let run := fetchRoute env amount s in
  (truthy (walletAddress (hook s)) = None ->
   run = (Rejected (Error "Wallet not connected"), s, []))
  /\ Forall (quote_event env (or_else (walletAddress (hook s)) "") amount) (events_of run)
  /\ length (route_fetches_of (events_of run)) <= 5
  /\ filter wallet_event (events_of run) = [].
Proof.
  cbv zeta. rewrite fetchRoute_unfold. unfold or_else.
  destruct (truthy (walletAddress (hook s))) as [wallet|].
  - pose proof (fetchRoute_only env wallet amount s) as Hall.
    split; [discriminate|]. split; [exact Hall|].
    split; [apply fetchRoute_requests_le|].
    apply (quote_event_no_wallet Hall).
  - repeat split; [constructor | cbn; lia].
Qed.

Lemma fetchRoute_footprint_witness :
  fetchRoute Script.env "10" (Scenario.disconnected Script.happyWorld)
  = (Rejected (Error "Wallet not connected"), Scenario.disconnected Script.happyWorld, []).
Proof.
  apply (fetchRoute_footprint Script.env "10" (Scenario.disconnected Script.happyWorld)).
  reflexivity.
Defined.

(** X14 -- The state that [fetchRoute] leaves, with a wallet connected.
    When it returns a route: that route is stored, [isLoading] is false,
    [error] is cleared, and [status] and [txHash] are as they were -- a
    [status] of error or success from an earlier attempt stays.  When it
    throws an error object, the error is rethrown as it is and the state has
    [status] error, [isLoading] false and the error's message (or 'Failed to
    fetch route') as [error], the stored route being as it was.  When the
    failure is [undefined], the handler throws a TypeError on reading
    [error.message] and the session is left loading. *)
Theorem fetchRoute_state (W : Type) (env : Env W) (amount : string) (s : Store W)
        (wallet : string) :
  let run := fetchRoute env amount s in
  let st0 := state (hook s) in
  truthy (walletAddress (hook s)) = Some wallet ->
  match outcome_of run with
  | Resolved r =>
      state (hook (store_of run))
      = {| isLoading := false; error := None; status := status st0;
           txHash := txHash st0; route_ := Some r |}
  | Rejected err =>
      (exists e, err = ThrownError e
                 /\ state (hook (store_of run))
                    = {| isLoading := false;
                         error := Some (message_or e "Failed to fetch route");
                         status := status_error;
                         txHash := txHash st0; route_ := route_ st0 |})
      \/ (err = Error "Cannot read properties of undefined (reading 'message')"
          /\ state (hook (store_of run)) = set_loading st0)
  end.
Proof.
  intros run st0 Hw. subst run. rewrite fetchRoute_unfold, Hw.
  exact (@fetchRoute_hoare W env wallet amount st0 s eq_refl).
Qed.

Lemma fetchRoute_state_witness :
  (let run := fetchRoute Script.env "10" (Script.store Script.approvingState Script.happyWorld) in
   state (hook (store_of run))
   = {| isLoading := false; error := None; status := status_approving;
        txHash := None; route_ := Some Script.sampleRoute |})
  /\ (let run := fetchRoute Script.env "10"
                   (Script.store initialState Scenario.refusedWorld) in
      state (hook (store_of run))
      = {| isLoading := false; error := Some "amount too low"; status := status_error;
           txHash := None; route_ := None |}).
Proof.
  split; intros run.
  - pose proof (@fetchRoute_state _ Script.env "10"
                  (Script.store Script.approvingState Script.happyWorld)
                  Script.wallet eq_refl) as H.
    cbv zeta in H. fold run in H.
    assert (Ho : outcome_of run = Resolved Script.sampleRoute) by (vm_compute; reflexivity).
    rewrite Ho in H. exact H.
  - pose proof (@fetchRoute_state _ Script.env "10"
                  (Script.store initialState Scenario.refusedWorld)
                  Script.wallet eq_refl) as H.
    cbv zeta in H. fold run in H.
    assert (Ho : outcome_of run = Rejected (Error "amount too low"))
      by (vm_compute; reflexivity).
    rewrite Ho in H. destruct H as [(e & He & Hs)|[He _]].
    + injection He as <-. exact Hs.
    + discriminate He.
Defined.

(** ** connectWallet *)

Section ConnectWallet.

Variable W : Type.
Variable env : Env W.
Variable wenv : WalletEnv W.

Let any : Event -> Prop := fun _ => True.

Lemma quiet_ask (A : Type) (oracle : W -> Outcome A * W) : quiet any (ask oracle).
Proof.
  intros s. unfold ask. destruct (oracle (world s)) as [r w].
  split; [constructor | reflexivity].
Qed.

Lemma getTokenBalance_quiet (token : string) (address : option string) :
  quiet any (getTokenBalance wenv token address).
Proof.
  unfold getTokenBalance. apply quiet_bind; [apply quiet_ask|]. intros b. apply quiet_ret.
Qed.

Lemma hoare_setBalance (b : option string) (Pre : Hook -> Prop)
      (Post : Outcome unit -> Hook -> Prop) :
  (forall h, Pre h ->
             Post (Resolved tt) {| state := state h;
                                   walletAddress := walletAddress h;
                                   balance := b |}) ->
  hoare Pre (setBalance (W:=W) b) Post.
Proof. intros H s HP. now apply H. Qed.

Lemma hoare_setWalletAddress (a : option string) (Pre : Hook -> Prop)
      (Post : Outcome unit -> Hook -> Prop) :
  (forall h, Pre h ->
             Post (Resolved tt) {| state := state h;
                                   walletAddress := a;
                                   balance := balance h |}) ->
  hoare Pre (setWalletAddress (W:=W) a) Post.
Proof. intros H s HP. now apply H. Qed.

(** What [tokenContract.balanceOf(address)] returned for USDC on Base, in
    some state of the chain. *)
Let read (address : option string) (bal : Z) : Prop :=
  exists w w', wenv_balanceOf wenv TOKENS_USDC_BASE address w = (Resolved bal, w').

Lemma getTokenBalance_hoare (address : option string) (I : Hook -> Prop) :
  hoare I (getTokenBalance wenv TOKENS_USDC_BASE address)
        (fun o h =>
           I h /\ match o with
                  | Resolved bal => read address bal
                  | Rejected _ => True
                  end).
Proof.
  intros s Hs. unfold getTokenBalance, bind, ask.
  destruct (wenv_balanceOf wenv TOKENS_USDC_BASE address (world s)) as [[bal|e] w'] eqn:Hb;
    cbn; (split; [exact Hs|]); [|constructor].
  now exists (world s), w'.
Qed.

(** The balance read keeps the state and the address, and stores the
    formatted balance that was read when it succeeds. *)
Lemma connectWallet_balance_hoare (address : option string) (I : Hook -> Prop) :
  (forall h b, I h -> I {| state := state h; walletAddress := walletAddress h;
                           balance := b |}) ->
  hoare I (connectWallet_balance wenv address)
        (fun o h =>
           I h /\ match o with
                  | Resolved _ =>
                      exists bal,
                        read address bal
                        /\ balance h
                           = Some (wenv_formatUnits wenv bal TOKEN_DECIMALS_USDC)
                  | Rejected _ => True
                  end).
Proof.
  intros HI. unfold connectWallet_balance.
  eapply hoare_bind; [apply getTokenBalance_hoare|intros bal|intros e h [H _]; now split].
  apply hoare_setBalance. intros h [H Hr]. split; [now apply HI | now exists bal].
Qed.

Lemma connectWallet_network_hoare (address : option string) (I : Hook -> Prop) :
  (forall h b, I h -> I {| state := state h; walletAddress := walletAddress h;
                           balance := b |}) ->
  hoare I (connectWallet_network wenv address)
        (fun o h =>
           match o with
           | Resolved a =>
               a = address
               /\ (exists h0, I h0
                              /\ h = {| state := set_loaded (state h0);
                                        walletAddress := walletAddress h0;
                                        balance := balance h0 |}
                              /\ exists bal,
                                   read address bal
                                   /\ balance h0
                                      = Some (wenv_formatUnits wenv bal TOKEN_DECIMALS_USDC))
           | Rejected _ => I h
           end).
Proof.
  intros HI. unfold connectWallet_network.
  apply hoare_bind with (Mid := fun _ h => I h); [|intros chainId|trivial].
  { apply hoare_quiet with (X := any); [apply quiet_ask | trivial]. }
  apply hoare_bind with (Mid := fun o h =>
           I h /\ match o with
                  | Resolved _ =>
                      exists bal,
                        read address bal
                        /\ balance h
                           = Some (wenv_formatUnits wenv bal TOKEN_DECIMALS_USDC)
                  | Rejected _ => True
                  end); [|intros _|intros e h [H _]; exact H].
  { destruct (negb (String.eqb chainId CHAIN_IDS_BASE)).
    - eapply hoare_try_catch with (Mid := fun o h =>
             I h /\ match o with
                    | Resolved _ =>
                        exists bal,
                          read address bal
                          /\ balance h
                             = Some (wenv_formatUnits wenv bal TOKEN_DECIMALS_USDC)
                    | Rejected _ => True
                    end).
      + apply hoare_bind with (Mid := fun _ h => I h);
          [|intros _|intros e h H; now split].
        * apply hoare_quiet with (X := any); [apply quiet_ask | trivial].
        * now apply connectWallet_balance_hoare.
      + intros [|e]; cbn [connectWallet_switchCatch].
        * apply hoare_throw. intros h [H _]. now split.
        * destruct (JsVal_eqb (err_code e) (JsNum 4902));
            apply hoare_throw; intros h [H _]; now split.
      + trivial.
    - now apply connectWallet_balance_hoare. }
  apply hoare_bind with (Mid := fun o h =>
           match o with
           | Resolved _ =>
               exists h0, I h0
                          /\ h = {| state := set_loaded (state h0);
                                    walletAddress := walletAddress h0;
                                    balance := balance h0 |}
                          /\ exists bal,
                               read address bal
                               /\ balance h0
                                  = Some (wenv_formatUnits wenv bal TOKEN_DECIMALS_USDC)
           | Rejected _ => False
           end); [|intros _|intros e h []].
  - apply hoare_setState. intros h [H Hb]. exists h. repeat split; assumption.
  - apply hoare_ret. intros h H. split; [reflexivity | exact H].
Qed.

(** The [try] block of [connectWallet]. *)
Lemma connectWallet_try_hoare (st1 : BridgeState) :
  hoare (fun h => state h = st1)
        (connectWallet_try env wenv)
        (fun o h =>
           match o with
           | Resolved a =>
               walletAddress h = a
               /\ (exists bal w w',
                      wenv_balanceOf wenv TOKENS_USDC_BASE a w = (Resolved bal, w')
                      /\ balance h = Some (wenv_formatUnits wenv bal TOKEN_DECIMALS_USDC))
               /\ state h = set_loaded st1
           | Rejected _ => state h = st1
           end).
Proof.
  unfold connectWallet_try.
  apply hoare_bind with (Mid := fun _ h => state h = st1); [|intros w|trivial].
  { intros s Hs. exact Hs. }
  destruct (negb (env_ethereum env w)); [apply hoare_throw; trivial|].
  apply hoare_bind with (Mid := fun _ h => state h = st1); [|intros accounts|trivial].
  { apply hoare_quiet with (X := any); [apply quiet_ask | trivial]. }
  cbv zeta.
  apply hoare_bind with (Mid := fun _ h => state h = st1
                                           /\ walletAddress h = hd_error accounts);
    [|intros _|intros e h [H _]; exact H].
  { apply hoare_setWalletAddress. intros h Hs. split; [exact Hs | reflexivity]. }
  eapply hoare_conseq.
  - apply connectWallet_network_hoare
      with (I := fun h => state h = st1 /\ walletAddress h = hd_error accounts).
    intros h b H. exact H.
  - trivial.
  - intros [a|e] h H; [|apply H].
    destruct H as (-> & h0 & [Hs Hw] & -> & bal & (wa & wb & Hr) & Hb).
    cbn [state walletAddress balance].
    split; [exact Hw|]. split; [now exists bal, wa, wb|]. now rewrite Hs.
Qed.

(** The run in which every call of the wallet succeeds. *)
Lemma connectWallet_balance_run (address : option string) (s : Store W) (bal : Z)
      (w4 : W) :
  wenv_balanceOf wenv TOKENS_USDC_BASE address (world s) = (Resolved bal, w4) ->
  connectWallet_balance wenv address s
  = (Resolved tt,
     {| world := w4;
        hook := {| state := state (hook s);
                   walletAddress := walletAddress (hook s);
                   balance := Some (wenv_formatUnits wenv bal TOKEN_DECIMALS_USDC) |} |},
     []).
Proof.
  intros Hb. unfold connectWallet_balance, getTokenBalance, bind, ask.
  rewrite Hb. reflexivity.
Qed.

Lemma connectWallet_network_run (address : option string) (s : Store W)
      (chainId : string) (w2 w3 : W) (bal : Z) (w4 : W) :
  wenv_getNetwork wenv (world s) = (Resolved chainId, w2) ->
  (if String.eqb chainId CHAIN_IDS_BASE then w3 = w2
   else wenv_switchChain wenv BASE_CHAIN_HEX w2 = (Resolved tt, w3)) ->
  wenv_balanceOf wenv TOKENS_USDC_BASE address w3 = (Resolved bal, w4) ->
  connectWallet_network wenv address s
  = (Resolved address,
     {| world := w4;
        hook := {| state := set_loaded (state (hook s));
                   walletAddress := walletAddress (hook s);
                   balance := Some (wenv_formatUnits wenv bal TOKEN_DECIMALS_USDC) |} |},
     [EvSetState (set_loaded (state (hook s)))]).
Proof.
  intros Hn Hsw Hb. unfold connectWallet_network.
  unfold bind at 1, ask at 1. rewrite Hn.
  destruct (String.eqb chainId CHAIN_IDS_BASE); cbn [negb].
  - subst w3. unfold bind at 1. cbn [world hook].
    rewrite (@connectWallet_balance_run address {| world := w2; hook := hook s |} bal w4 Hb).
    reflexivity.
  - unfold bind at 1, try_catch, bind at 1, ask at 1. cbn [world]. rewrite Hsw.
    cbn [world hook].
    rewrite (@connectWallet_balance_run address {| world := w3; hook := hook s |} bal w4 Hb).
    reflexivity.
Qed.

Lemma connectWallet_run (s : Store W) (accounts : list string) (w1 : W)
      (chainId : string) (w2 w3 : W) (bal : Z) (w4 : W) :
  env_ethereum env (world s) = true ->
  wenv_requestAccounts wenv (world s) = (Resolved accounts, w1) ->
  wenv_getNetwork wenv w1 = (Resolved chainId, w2) ->
  (if String.eqb chainId CHAIN_IDS_BASE then w3 = w2
   else wenv_switchChain wenv BASE_CHAIN_HEX w2 = (Resolved tt, w3)) ->
  wenv_balanceOf wenv TOKENS_USDC_BASE (hd_error accounts) w3 = (Resolved bal, w4) ->
  connectWallet env wenv s
  = (Resolved (hd_error accounts),
     {| world := w4;
        hook := {| state := set_loaded (set_loading (state (hook s)));
                   walletAddress := hd_error accounts;
                   balance := Some (wenv_formatUnits wenv bal TOKEN_DECIMALS_USDC) |} |},
     [EvSetState (set_loading (state (hook s)));
      EvSetState (set_loaded (set_loading (state (hook s))))]).
Proof.
  intros He Hacc Hn Hsw Hb.
  unfold connectWallet, bind at 1. cbn [setState]. unfold try_catch.
  unfold connectWallet_try, bind at 1. cbn [getWorld world]. rewrite He. cbn [negb].
  unfold bind at 1, ask at 1. cbn [world]. rewrite Hacc.
  unfold bind at 1. cbn [setWalletAddress world hook state balance].
  match goal with
  | |- context [connectWallet_network wenv (hd_error accounts) ?s1] =>
      rewrite (@connectWallet_network_run (hd_error accounts) s1 chainId w2 w3 bal w4
                 Hn Hsw Hb)
  end.
  reflexivity.
Qed.

(** Nothing after the accounts changes the address. *)
Lemma connectWallet_network_keeps (address : option string) :
  hoare (fun h => walletAddress h = address)
        (connectWallet_network wenv address)
        (fun _ h => walletAddress h = address).
Proof.
  eapply hoare_conseq.
  - apply connectWallet_network_hoare with (I := fun h => walletAddress h = address).
    intros h b H. exact H.
  - trivial.
  - intros [a|e] h H; [|exact H]. destruct H as (_ & h0 & Hw & -> & _). exact Hw.
Qed.

Lemma connectWallet_catch_keeps (address : option string) (e : Thrown) :
  hoare (fun h => walletAddress h = address)
        (connectWallet_catch (W:=W) e)
        (fun _ h => walletAddress h = address).
Proof.
  destruct e as [|e]; cbn [connectWallet_catch]; [apply hoare_throw; trivial|].
  apply hoare_bind with (Mid := fun _ h => walletAddress h = address);
    [|intros _; apply hoare_throw; trivial|trivial].
  apply hoare_setState. trivial.
Qed.

End ConnectWallet.

(** X15 -- What [connectWallet] leaves.  When it returns an address: that
    address is the hook's [walletAddress]; the balance is
    [ethers.formatUnits], with the 6 decimals of USDC, of a value that
    [balanceOf] of the USDC contract on Base returned for that address;
    [isLoading] is false and [error] cleared; and [status], [txHash] and
    [route] are as they were.  When it throws an error object: the state has
    [status] error, [isLoading] false and as [error] 'Wallet connection
    rejected by user' for code 4001, else the error's message, else 'Failed
    to connect wallet'.  When the failure is [undefined], the handler throws
    a TypeError on reading [error.code] and the session is left loading.
    And when the provider is there, gives its accounts and its network, the
    switch to Base (asked for only on another network) succeeds and the
    balance is read: the first account is returned and the balance stored is
    the formatted value that this read returned. *)
Theorem connectWallet_state (W : Type) (env : Env W) (wenv : WalletEnv W) (s : Store W) :
  let run := connectWallet env wenv s in
  let st0 := state (hook s) in
  (match outcome_of run with
   | Resolved a =>
       walletAddress (hook (store_of run)) = a
       /\ (exists bal w w',
              wenv_balanceOf wenv TOKENS_USDC_BASE a w = (Resolved bal, w')
              /\ balance (hook (store_of run))
                 = Some (wenv_formatUnits wenv bal TOKEN_DECIMALS_USDC))
       /\ state (hook (store_of run))
          = {| isLoading := false; error := None; status := status st0;
               txHash := txHash st0; route_ := route_ st0 |}
   | Rejected err =>
       (exists e, err = ThrownError e
                  /\ state (hook (store_of run))
                     = {| isLoading := false;
                          error := Some (connectWallet_errorMessage e);
                          status := status_error;
                          txHash := txHash st0; route_ := route_ st0 |})
       \/ (err = Error "Cannot read properties of undefined (reading 'code')"
           /\ state (hook (store_of run)) = set_loading st0)
   end)
  /\ (forall accounts w1 chainId w2 w3 bal w4,
        env_ethereum env (world s) = true ->
        wenv_requestAccounts wenv (world s) = (Resolved accounts, w1) ->
        wenv_getNetwork wenv w1 = (Resolved chainId, w2) ->
        (if String.eqb chainId CHAIN_IDS_BASE then w3 = w2
         else wenv_switchChain wenv BASE_CHAIN_HEX w2 = (Resolved tt, w3)) ->
        wenv_balanceOf wenv TOKENS_USDC_BASE (hd_error accounts) w3 = (Resolved bal, w4) ->
        outcome_of run = Resolved (hd_error accounts)
        /\ world (store_of run) = w4
        /\ balance (hook (store_of run))
           = Some (wenv_formatUnits wenv bal TOKEN_DECIMALS_USDC)).
Proof.
  cbv zeta. set (st0 := state (hook s)). split.
  2:{ intros accounts w1 chainId w2 w3 bal w4 He Hacc Hn Hsw Hb.
      rewrite (@connectWallet_run W env wenv s accounts w1 chainId w2 w3 bal w4
                 He Hacc Hn Hsw Hb).
      repeat split. }
  assert (H : hoare (fun h => state h = st0)
                (connectWallet env wenv)
                (fun o h =>
                   match o with
                   | Resolved a =>
                       walletAddress h = a
                       /\ (exists bal w w',
                              wenv_balanceOf wenv TOKENS_USDC_BASE a w = (Resolved bal, w')
                              /\ balance h
                                 = Some (wenv_formatUnits wenv bal TOKEN_DECIMALS_USDC))
                       /\ state h = {| isLoading := false; error := None;
                                       status := status st0;
                                       txHash := txHash st0; route_ := route_ st0 |}
                   | Rejected err =>
                       (exists e, err = ThrownError e
                                  /\ state h
                                     = {| isLoading := false;
                                          error := Some (connectWallet_errorMessage e);
                                          status := status_error;
                                          txHash := txHash st0; route_ := route_ st0 |})
                       \/ (err = Error "Cannot read properties of undefined (reading 'code')"
                           /\ state h = set_loading st0)
                   end)).
  { unfold connectWallet.
    apply hoare_bind with (Mid := fun o h =>
             match o with
             | Resolved _ => state h = set_loading st0
             | Rejected _ => False
             end); [|intros _|intros e h []].
    { apply hoare_setState. intros h ->. reflexivity. }
    eapply hoare_try_catch; [apply connectWallet_try_hoare| |].
    - intros [|e]; cbn [connectWallet_catch].
      + apply hoare_throw. intros h Hs. right. split; [reflexivity | exact Hs].
      + apply hoare_bind with (Mid := fun o h =>
                 match o with
                 | Resolved _ =>
                     state h = {| isLoading := false;
                                  error := Some (connectWallet_errorMessage e);
                                  status := status_error;
                                  txHash := txHash st0; route_ := route_ st0 |}
                 | Rejected _ => False
                 end); [|intros _|intros e0 h []].
        * apply hoare_setState. intros h ->. reflexivity.
        * apply hoare_throw. intros h Hs. left. now exists e.
    - intros a h (H1 & H2 & H3). repeat split; assumption. }
  exact (H s eq_refl).
Qed.

Lemma connectWallet_state_witness :
  let run := connectWallet Script.env Scenario.walletOnBase
               (Scenario.disconnected Script.happyWorld) in
  outcome_of run = Resolved (Some Script.wallet)
  /\ balance (hook (store_of run)) = Some "25.0".
Proof.
  intros run.
  destruct (connectWallet_state Script.env Scenario.walletOnBase
              (Scenario.disconnected Script.happyWorld)) as [_ H].
  destruct (H [Script.wallet] Script.happyWorld "8453" Script.happyWorld
              Script.happyWorld 25000000%Z Script.happyWorld
              eq_refl eq_refl eq_refl eq_refl eq_refl) as (H1 & _ & H3).
  split; [exact H1 | exact H3].
Defined.

(** X16 -- [connectWallet] stores the address as soon as the wallet has
    given its accounts, before the network is checked: when the provider is
    there and the accounts are given, the hook's [walletAddress] is the first
    account however the call ends -- also when switching the network or
    reading the balance fails and the call throws, leaving [status] error.
    [bridge] and [fetchRoute], which only look at [walletAddress], then
    run. *)
Theorem connectWallet_keeps_address (W : Type) (env : Env W) (wenv : WalletEnv W)
        (s : Store W) (accounts : list string) (w1 : W) :
  env_ethereum env (world s) = true ->
  wenv_requestAccounts wenv (world s) = (Resolved accounts, w1) ->
  walletAddress (hook (store_of (connectWallet env wenv s))) = hd_error accounts.
Proof.
  intros He Hacc.
  unfold connectWallet, bind at 1. cbn [setState]. unfold try_catch.
  unfold connectWallet_try, bind at 1. cbn [getWorld world]. rewrite He. cbn [negb].
  unfold bind at 1, ask at 1. cbn [world]. rewrite Hacc.
  unfold bind at 1. cbn [setWalletAddress world hook state balance].
  match goal with
  | |- context [connectWallet_network wenv (hd_error accounts) ?s1] =>
      pose proof (@connectWallet_network_keeps W wenv (hd_error accounts) s1 eq_refl)
        as Hn;
      revert Hn;
      destruct (connectWallet_network wenv (hd_error accounts) s1) as [[[a|e] s2] ev2]
  end; cbn [outcome_of store_of fst snd app]; intros Hn; [exact Hn|].
  pose proof (@connectWallet_catch_keeps W (hd_error accounts) e s2 Hn) as Hc.
  revert Hc. destruct (connectWallet_catch (W:=W) e s2) as [[r3 s3] ev3].
  cbn [store_of fst snd]. exact (fun H => H).
Qed.

Lemma connectWallet_keeps_address_witness :
  let run := connectWallet Script.env Scenario.walletElsewhere
               (Scenario.disconnected Script.happyWorld) in
  outcome_of run = Rejected (Error "Please add Base network to your wallet")
  /\ status (state (hook (store_of run))) = status_error
  /\ walletAddress (hook (store_of run)) = Some Script.wallet.
Proof.
  intros run. split; [vm_compute; reflexivity|]. split; [vm_compute; reflexivity|].
  apply (@connectWallet_keeps_address _ Script.env Scenario.walletElsewhere
           (Scenario.disconnected Script.happyWorld) [Script.wallet] Script.happyWorld
           eq_refl eq_refl).
Defined.

(** ** The amount field *)

Lemma skip_digits_empty (s : string) :
  String.eqb (skip_digits s) "" = forallb is_digit (list_ascii_of_string s).
Proof.
  induction s as [|c s IH]; [reflexivity|].
  cbn [skip_digits list_ascii_of_string forallb].
  destruct (is_digit c); [exact IH | reflexivity].
Qed.

Lemma is_digit_not_dot (c : ascii) : is_digit c = true -> Ascii.eqb "." c = false.
Proof.
  intros Hd. destruct (Ascii.eqb "." c) eqn:He; [|reflexivity].
  apply Ascii.eqb_eq in He. subst c. discriminate Hd.
Qed.

Lemma digits_text (l : list ascii) :
  forallb is_digit l
  = forallb amount_char l && Nat.eqb (length (filter (Ascii.eqb ".") l)) 0.
Proof.
  induction l as [|c l IH]; [reflexivity|].
  cbn [forallb filter]. unfold amount_char at 1. rewrite IH.
  destruct (is_digit c) eqn:Hd.
  - rewrite (is_digit_not_dot c Hd). reflexivity.
  - cbn [orb andb]. rewrite (Ascii.eqb_sym c ".").
    destruct (Ascii.eqb "." c); [|reflexivity].
    cbn [List.length Nat.eqb]. now rewrite andb_false_r.
Qed.

Lemma amount_pattern_cons (c : ascii) (s : string) :
  amount_pattern (String c s)
  = if is_digit c then amount_pattern s
    else if Ascii.eqb "." c then String.eqb (skip_digits s) "" else false.
Proof.
  destruct c as [[] [] [] [] [] [] [] []]; reflexivity.
Qed.

(** X17 -- The amount field takes a new value exactly when it is made of
    decimal digits and at most one dot (the empty string and a lone dot
    included), and then hides the quote; any other value leaves the amount
    and the quote as they are. *)
Theorem handleAmountChange_accepts (value : string) (f : Form) :
  amount_pattern value = decimal_text value
  /\ handleAmountChange value f
     = (if decimal_text value then {| amount := value; showQuote := false |} else f).
Proof.
  assert (H : amount_pattern value = decimal_text value).
  { unfold decimal_text, count_dots.
    induction value as [|c s IH]; [reflexivity|].
    rewrite amount_pattern_cons. cbn [list_ascii_of_string forallb filter].
    unfold amount_char at 1.
    destruct (is_digit c) eqn:Hd.
    - rewrite (is_digit_not_dot c Hd). exact IH.
    - cbn [orb]. rewrite (Ascii.eqb_sym c ".").
      destruct (Ascii.eqb "." c); [|reflexivity].
      rewrite skip_digits_empty, digits_text. cbn [andb List.length].
      destruct (length (filter (Ascii.eqb ".") (list_ascii_of_string s))) as [|n];
        reflexivity. }
  split; [exact H|].
  unfold handleAmountChange. rewrite H.
  destruct (String.eqb_spec value "") as [->|_]; [reflexivity|].
  reflexivity.
Qed.

(** ** The hash of the transaction sent *)

Lemma sent_hashes_app (a b : list Event) :
  sent_hashes (a ++ b) = sent_hashes a ++ sent_hashes b.
Proof. apply flat_map_app. Qed.

Section BridgeHash.

Variable W : Type.
Variable env : Env W.
Variables wallet amount : string.

Let free : list Event -> Event -> Prop := fun _ _ => True.

(** Events that are not a transaction accepted by the wallet. *)
Let unsent (e : Event) : Prop := sent_hashes [e] = [].

(** Nothing was sent yet. *)
Let fresh (seen : list Event) : Prop := sent_hashes seen = [].

(** [tx] is what was sent, and the state holds its hash. *)
Let recorded_tx (tx : TransactionResponse) (seen : list Event) (s : Store W) : Prop :=
  sent_hashes seen = [hash tx] /\ txHash (state (hook s)) = Some (hash tx).

(** The state holds the hash of whatever was sent. *)
Let kept (seen : list Event) (s : Store W) : Prop :=
  forall h, In h (sent_hashes seen) -> txHash (state (hook s)) = Some h.

Lemma fresh_kept (seen : list Event) (s : Store W) : fresh seen -> kept seen s.
Proof. intros H h Hin. rewrite H in Hin. destruct Hin. Qed.

Lemma recorded_kept (tx : TransactionResponse) (seen : list Event) (s : Store W) :
  recorded_tx tx seen s -> kept seen s.
Proof. intros [H1 H2] h Hin. rewrite H1 in Hin. destruct Hin as [<-|[]]. exact H2. Qed.

Lemma unsent_more (seen evs : list Event) :
  Forall unsent evs -> sent_hashes (seen ++ evs) = sent_hashes seen.
Proof.
  intros Hall. rewrite sent_hashes_app.
  rewrite (proj_none sent_hashes sent_hashes_app eq_refl (P := unsent)) with (evs := evs);
    [apply app_nil_r | trivial | exact Hall].
Qed.

Lemma triple_fresh_quiet (A : Type) (c : M W A) :
  quiet unsent c ->
  triple free (fun seen _ => fresh seen) c (fun _ seen _ => fresh seen).
Proof.
  intros Hq. apply triple_quiet with (X := unsent); [exact Hq | intros; exact I|].
  intros seen s r evs s' Hf Hall _ _. unfold fresh. now rewrite unsent_more.
Qed.

Lemma triple_fresh_setState (f : BridgeState -> BridgeState) :
  triple free (fun seen _ => fresh seen) (setState (W:=W) f) (fun _ seen _ => fresh seen).
Proof.
  apply triple_setState. intros seen s Hf. cbv zeta. split; [exact I|].
  unfold fresh. rewrite unsent_more; [exact Hf | repeat constructor].
Qed.

Lemma triple_recorded_quiet (A : Type) (tx : TransactionResponse) (c : M W A) :
  quiet unsent c ->
  triple free (recorded_tx tx) c (fun _ => recorded_tx tx).
Proof.
  intros Hq. apply triple_quiet with (X := unsent); [exact Hq | intros; exact I|].
  intros seen s r evs s' [H1 H2] Hall Hh _. split.
  - now rewrite unsent_more.
  - now rewrite Hh.
Qed.

Lemma triple_recorded_setState (tx : TransactionResponse)
      (f : BridgeState -> BridgeState) :
  (forall st, txHash (f st) = txHash st) ->
  triple free (recorded_tx tx) (setState (W:=W) f) (fun _ => recorded_tx tx).
Proof.
  intros Hf. apply triple_setState. intros seen s [H1 H2]. cbv zeta. split; [exact I|].
  split.
  - rewrite unsent_more; [exact H1 | repeat constructor].
  - cbn. now rewrite Hf.
Qed.

Lemma bridge_execute_hash (r : Route) (requestId : string) (signer : Signer) :
  triple free (fun seen _ => fresh seen)
         (bridge_execute env r requestId signer)
         (fun _ => kept).
Proof.
  unfold bridge_execute.
  apply triple_bind with (Mid := fun _ seen _ => fresh seen);
    [apply triple_fresh_setState|intros _|intros e seen s; apply fresh_kept].
  apply triple_bind with (Mid := fun o seen _ =>
           match o with
           | Resolved tx => sent_hashes seen = [hash tx]
           | Rejected _ => fresh seen
           end); [|intros tx|intros e seen s; apply fresh_kept].
  { unfold executeBridge.
    apply triple_bind with (Mid := fun o seen _ =>
           match o with
           | Resolved tx => sent_hashes seen = [hash tx]
           | Rejected _ => fresh seen
           end); [|intros tx; apply triple_ret; trivial|trivial].
    apply triple_await. intros seen s o w Hf _. split; [exact I|].
    unfold fresh in *. destruct o; rewrite sent_hashes_app, Hf; reflexivity. }
  apply triple_bind with (Mid := fun _ => recorded_tx tx);
    [|intros _|intros e seen s; apply recorded_kept].
  { apply triple_setState. intros seen s Hs. cbv zeta. split; [exact I|]. split.
    - rewrite unsent_more; [exact Hs | repeat constructor].
    - reflexivity. }
  apply triple_bind with (Mid := fun _ => recorded_tx tx);
    [|intros _|intros e seen s; apply recorded_kept].
  { apply triple_recorded_quiet. apply quiet_await. intros; reflexivity. }
  apply triple_bind with (Mid := fun _ => recorded_tx tx);
    [|intros _|intros e seen s; apply recorded_kept].
  { apply triple_recorded_setState. reflexivity. }
  apply triple_bind with (Mid := fun _ => recorded_tx tx);
    [|intros fin|intros e seen s; apply recorded_kept].
  { apply triple_recorded_quiet. unfold monitorTransaction_default.
    apply monitorTransaction_quiet; try (intros; reflexivity).
    intros f [= <-] st. apply quiet_ret. }
  destruct (String.eqb (squidTransactionStatus fin) "success").
  - apply triple_bind with (Mid := fun _ => recorded_tx tx);
      [|intros _|intros e seen s; apply recorded_kept].
    + apply triple_recorded_setState. reflexivity.
    + apply triple_ret. intros seen s. apply recorded_kept.
  - apply triple_throw. intros seen s. apply recorded_kept.
Qed.

Lemma bridge_try_hash :
  triple free (fun seen _ => fresh seen) (bridge_try env wallet amount) (fun _ => kept).
Proof.
  unfold bridge_try.
  apply triple_bind with (Mid := fun _ seen _ => fresh seen);
    [|intros signer|intros e seen s; apply fresh_kept].
  { apply triple_fresh_quiet. apply quiet_await. intros; reflexivity. }
  apply triple_bind with (Mid := fun _ seen _ => fresh seen);
    [apply triple_fresh_setState|intros _|intros e seen s; apply fresh_kept].
  apply triple_bind with (Mid := fun _ seen _ => fresh seen);
    [|intros amountInWei|intros e seen s; apply fresh_kept].
  { apply triple_settle. trivial. }
  apply triple_bind with (Mid := fun _ seen _ => fresh seen);
    [|intros rr|intros e seen s; apply fresh_kept].
  { apply triple_fresh_quiet. apply getRoute_quiet; intros; reflexivity. }
  apply triple_bind with (Mid := fun _ seen _ => fresh seen);
    [apply triple_fresh_setState|intros _|intros e seen s; apply fresh_kept].
  apply triple_bind with (Mid := fun _ seen _ => fresh seen);
    [apply triple_fresh_setState|intros _|intros e seen s; apply fresh_kept].
  apply triple_bind with (Mid := fun _ seen _ => fresh seen);
    [|intros _|intros e seen s; apply fresh_kept].
  { apply triple_fresh_quiet.
    unfold bridge_ensureAllowance, checkAllowance.
    apply quiet_bind; [apply quiet_await; intros; reflexivity|]. intros a.
    apply quiet_bind; [apply quiet_settle|]. intros required.
    destruct (a <? required)%Z; [|apply quiet_ret].
    unfold approveToken.
    apply quiet_bind; [apply quiet_await; intros; reflexivity|]. intros tx.
    apply quiet_bind; [apply quiet_await; intros; reflexivity|]. intros u.
    apply quiet_ret. }
  apply bridge_execute_hash.
Qed.

Lemma bridge_hash (s : Store W) :
  truthy (walletAddress (hook s)) = Some wallet ->
  kept (events_of (bridge env amount s)) (store_of (bridge env amount s)).
Proof.
  intros Hw. rewrite bridge_unfold, Hw.
  destruct (env_ethereum env (world s)); [|intros h []].
  assert (Ht : triple free (fun seen _ => seen = [])
                 (bind (setState start_loading)
                       (fun _ => try_catch (bridge_try env wallet amount)
                                           (@bridge_catch W)))
                 (fun _ => kept)).
  { apply triple_bind with (Mid := fun _ seen _ => fresh seen);
      [|intros _|intros e seen s0; apply fresh_kept].
    - apply triple_setState. intros seen s0 ->. cbv zeta. split; [exact I | reflexivity].
    - apply triple_try_catch with (Mid := fun _ => kept);
        [apply bridge_try_hash| |trivial].
      intros [|e]; cbn [bridge_catch]; [apply triple_throw; trivial|].
      apply triple_bind with (Mid := fun _ => kept); [|intros _|trivial].
      + apply triple_setState. intros seen s0 Hk. cbv zeta. split; [exact I|].
        intros h Hin. rewrite unsent_more in Hin by (repeat constructor).
        exact (Hk h Hin).
      + apply triple_throw. trivial. }
  destruct (Ht [] s eq_refl) as [_ Hpost]. exact Hpost.
Qed.

End BridgeHash.

(** X18 -- Every run of [bridge], however it ends: once the wallet has
    accepted to send the bridge transaction, the state holds its hash as
    [txHash] at the end of the run -- also when waiting for it, or the
    monitoring, fails afterwards and the run ends with [status] error. *)
Theorem bridge_records_hash (W : Type) (env : Env W) (amount : string) (s : Store W) :
  let run := bridge env amount s in
  forall h,
    In h (sent_hashes (events_of run)) ->
    txHash (state (hook (store_of run))) = Some h.
Proof.
  cbv zeta. intros h Hin.
  destruct (truthy (walletAddress (hook s))) as [wallet|] eqn:Hw.
  - exact (@bridge_hash W env wallet amount s Hw h Hin).
  - rewrite bridge_unfold, Hw in Hin. destruct Hin.
Qed.

Lemma bridge_records_hash_witness :
  let run := bridge Script.env "10" (Script.store initialState Scenario.failedWorld) in
  outcome_of run = Rejected (Error "Bridge failed with status: failed")
  /\ status (state (hook (store_of run))) = status_error
  /\ txHash (state (hook (store_of run))) = Some "0xb22".
Proof.
  intros run. split; [vm_compute; reflexivity|]. split; [vm_compute; reflexivity|].
  apply (@bridge_records_hash _ Script.env "10"
           (Script.store initialState Scenario.failedWorld) "0xb22").
  vm_compute. left. reflexivity.
Defined.

(** ** What bridge signs comes from the quote *)

Section BridgeQuote.

Variable W : Type.
Variable env : Env W.
Variables wallet amount : string.

Let check := from_quote env wallet amount.

Lemma unsigned_event_ok (seen : list Event) (e : Event) :
  unsigned_event e -> check seen e.
Proof. destruct e; cbn; intros H; try exact I; contradiction. Qed.

(** A computation whose events are no wallet calls meets the condition. *)
Lemma triple_unsigned (A : Type) (c : M W A) (F : list Event -> Prop) :
  only unsigned_event c ->
  (forall seen more, F seen -> F (seen ++ more)) ->
  triple check (fun seen _ => F seen) c (fun _ seen _ => F seen).
Proof.
  intros Hc HF seen s Hs. split; [|now apply HF].
  apply guarded_Forall with (X := unsigned_event); [|apply Hc].
  intros. now apply unsigned_event_ok.
Qed.

Lemma only_unsigned_await (A : Type) (ev : Outcome A -> Event)
      (oracle : W -> Outcome A * W) :
  (forall r, unsigned_event (ev r)) -> only unsigned_event (await ev oracle).
Proof.
  intros H. apply only_quiet with (Q := unsigned_event); [|trivial].
  now apply quiet_await.
Qed.

Lemma only_unsigned_setState (f : BridgeState -> BridgeState) :
  only unsigned_event (setState (W:=W) f).
Proof. apply only_setState. intros; exact I. Qed.

Lemma bridge_ensureAllowance_quote (r : Route) (signer : Signer) :
  triple check
         (fun seen _ => quoted env wallet amount r seen)
         (bridge_ensureAllowance env wallet r signer)
         (fun _ seen _ => quoted env wallet amount r seen).
Proof.
  unfold bridge_ensureAllowance, checkAllowance.
  apply triple_bind with (Mid := fun _ seen _ => quoted env wallet amount r seen);
    [|intros a|trivial].
  { apply triple_await. intros seen s o w Hq _. split.
    - exists r. repeat split. exact Hq.
    - now apply quoted_mono. }
  destruct (env_BigInt env (fromAmount (params r))) as [required|e] eqn:Hbig.
  2:{ apply triple_bind with (Mid := fun o seen _ =>
             match o with
             | Resolved _ => False
             | Rejected _ => quoted env wallet amount r seen
             end); [|intros x seen s []|trivial].
      apply triple_settle. trivial. }
  apply triple_bind with (Mid := fun o seen _ =>
           match o with
           | Resolved x => x = required /\ quoted env wallet amount r seen
           | Rejected _ => False
           end); [|intros x|intros e seen s []].
  { apply triple_settle. intros seen s Hq. split; [reflexivity | exact Hq]. }
  destruct (a <? x)%Z.
  - unfold approveToken.
    apply triple_bind with (Mid := fun _ seen _ => quoted env wallet amount r seen);
      [|intros tx|trivial].
    { apply triple_await. intros seen s o w [-> Hq] _. split.
      - exists r. repeat split; assumption.
      - now apply quoted_mono. }
    apply triple_bind with (Mid := fun _ seen _ => quoted env wallet amount r seen);
      [|intros u; apply triple_ret; trivial|trivial].
    apply triple_unsigned; [|apply quoted_mono].
    apply only_unsigned_await. intros; exact I.
  - apply triple_ret. intros seen s [_ Hq]. exact Hq.
Qed.

Lemma bridge_execute_quote (r : Route) (requestId : string) (signer : Signer) :
  triple check
         (fun seen _ => quoted env wallet amount r seen)
         (bridge_execute env r requestId signer)
         (fun _ _ _ => True).
Proof.
  unfold bridge_execute.
  apply triple_bind with (Mid := fun _ seen _ => quoted env wallet amount r seen);
    [|intros _|trivial].
  { apply triple_unsigned; [apply only_unsigned_setState | apply quoted_mono]. }
  apply triple_bind with (Mid := fun _ _ _ => True); [|intros tx|trivial].
  { unfold executeBridge.
    apply triple_bind with (Mid := fun _ _ _ => True);
      [|intros tx; apply triple_ret; trivial|trivial].
    apply triple_await. intros seen s o w Hq _. split; [|exact I].
    exists r. split; [exact Hq | reflexivity]. }
  apply (@triple_unsigned _ _ (fun _ => True)); [|trivial].
  apply only_bind; [apply only_unsigned_setState|]. intros _.
  apply only_bind; [apply only_unsigned_await; intros; exact I|]. intros _.
  apply only_bind; [apply only_unsigned_setState|]. intros _.
  apply only_bind.
  { apply only_quiet with (Q := is_monitor).
    - unfold monitorTransaction_default. apply monitorTransaction_quiet;
        try (intros; reflexivity).
      intros f [= <-] st. apply quiet_ret.
    - intros e He. destruct e; try discriminate He; exact I. }
  intros fin. destruct (String.eqb (squidTransactionStatus fin) "success").
  - apply only_bind; [apply only_unsigned_setState|]. intros _. apply only_ret.
  - apply only_throw.
Qed.

Lemma bridge_try_quote :
  triple check (fun _ _ => True) (bridge_try env wallet amount) (fun _ _ _ => True).
Proof.
  unfold bridge_try.
  apply triple_bind with (Mid := fun _ _ _ => True); [|intros signer|trivial].
  { apply (@triple_unsigned _ _ (fun _ => True)); [|trivial].
    apply only_unsigned_await. intros; exact I. }
  apply triple_bind with (Mid := fun _ _ _ => True); [|intros _|trivial].
  { apply (@triple_unsigned _ _ (fun _ => True)); [|trivial].
    apply only_unsigned_setState. }
  destruct (env_parseUnits env amount TOKEN_DECIMALS_USDC) as [amt|e] eqn:Hparse.
  2:{ apply triple_bind with (Mid := fun o _ _ =>
             match o with Resolved _ => False | Rejected _ => True end);
        [|intros x seen s []|trivial].
      apply triple_settle. trivial. }
  apply triple_bind with (Mid := fun o _ _ =>
           match o with Resolved x => x = amt | Rejected _ => False end);
    [|intros amountInWei|intros e seen s []].
  { apply triple_settle. trivial. }
  apply triple_bind with (Mid := fun o seen _ =>
           match o with
           | Resolved rr => quoted env wallet amount (route rr) seen
           | Rejected _ => True
           end); [|intros rr|trivial].
  { apply triple_quiet with (X := is_http).
    - apply getRoute_quiet; intros; reflexivity.
    - intros seen e He. apply unsigned_event_ok.
      destruct e; try discriminate He; exact I.
    - intros seen s o evs s' -> Hevs Hh Hrun.
      destruct o as [rr|e]; [|exact I].
      destruct (getRoute_resolved env (bridge_request wallet amt) s (rr := rr))
        as (pre & res & body & H1 & _ & H3 & H4 & _); [now rewrite Hrun|].
      rewrite Hrun in H1. cbn [events_of snd] in H1.
      exists amt, res, body. repeat split; try assumption.
      rewrite route_fetches_of_app, H1. apply in_or_app. right.
      apply in_or_app. right. now left. }
  apply triple_bind with (Mid := fun _ seen _ => quoted env wallet amount (route rr) seen);
    [|intros _|trivial].
  { apply triple_unsigned; [apply only_unsigned_setState | apply quoted_mono]. }
  apply triple_bind with (Mid := fun _ seen _ => quoted env wallet amount (route rr) seen);
    [|intros _|trivial].
  { apply triple_unsigned; [apply only_unsigned_setState | apply quoted_mono]. }
  apply triple_bind with (Mid := fun _ seen _ => quoted env wallet amount (route rr) seen);
    [apply bridge_ensureAllowance_quote|intros _|trivial].
  apply bridge_execute_quote.
Qed.

End BridgeQuote.

(** X19 -- In every run of [bridge], every call that touches the user's
    funds is taken from a quote of this very run: when the allowance is
    read, an approval is requested or the transaction is sent, the route
    endpoint has answered this run's request for the amount with a route,
    and the spender is that route's [transactionRequest.target], the amount
    approved is that route's [params.fromAmount] (the answer's, not the
    amount typed), and the transaction is that route's
    [transactionRequest].  A route stored by an earlier [fetchRoute] is
    never used. *)
Theorem bridge_signs_the_quote (W : Type) (env : Env W) (amount : string) (s : Store W) :
  forall pre e post,
    events_of (bridge env amount s) = pre ++ e :: post ->
    from_quote env (or_else (walletAddress (hook s)) "") amount pre e.
Proof.
  rewrite bridge_unfold. unfold or_else.
  destruct (truthy (walletAddress (hook s))) as [wallet|].
  2:{ intros [|x pre] e post H; discriminate H. }
  destruct (env_ethereum env (world s)).
  2:{ intros [|x pre] e post H; discriminate H. }
  assert (Ht : triple (from_quote env wallet amount) (fun _ _ => True)
                 (bind (setState start_loading)
                       (fun _ => try_catch (bridge_try env wallet amount) (@bridge_catch W)))
                 (fun _ _ _ => True)).
  { apply triple_bind with (Mid := fun _ _ _ => True); [|intros _|trivial].
    - apply triple_setState. intros seen s0 _. cbv zeta. split; exact I.
    - apply triple_try_catch with (Mid := fun _ _ _ => True); [| |trivial].
      + apply bridge_try_quote.
      + intros [|e]; cbn [bridge_catch]; [apply triple_throw; trivial|].
        apply triple_bind with (Mid := fun _ _ _ => True); [|intros _|trivial].
        * apply triple_setState. intros seen s0 _. cbv zeta. split; exact I.
        * apply triple_throw. trivial. }
  destruct (Ht [] s I) as [Hg _]. exact Hg.
Qed.

Lemma bridge_signs_the_quote_witness :
  let evs := events_of (bridge Script.env "10" (Script.store initialState Script.happyWorld)) in
  from_quote Script.env Script.wallet "10" (firstn 7 evs) (nth 7 evs (EvSleep 0))
  /\ nth 7 evs (EvSleep 0)
     = EvApprove {| signerAddress := Script.wallet |} TOKENS_USDC_BASE Script.squidRouter
                 10000000 (Resolved {| hash := "0xa11" |}).
Proof.
  intros evs. split.
  - apply (@bridge_signs_the_quote _ Script.env "10"
             (Script.store initialState Script.happyWorld)
             (firstn 7 evs) (nth 7 evs (EvSleep 0)) (skipn 8 evs)).
    vm_compute. reflexivity.
  - vm_compute. reflexivity.
Defined.
